(** * GopherCaptain: a shallow embedding of the orchestration core

    The development follows the Go packages of the repository:
    [state] (SQLite store), [ports] (allocator), [nginx], [systemd], [db],
    [github], [creds], [health] and [orchestrator].

    Conventions.
    - Go [int] is [Z]; no arithmetic in the modelled code can overflow.
    - Go [string] is [string]; [map[string]string] is an optional [gmap]
      ([None] is the nil map).
    - Go [error] is an [option Err] ([None] is [nil]); a function returning
      [(T, error)] returns [Res T].
    - Every call that leaves the process (SQL statement, file operation,
      command execution, HTTP request) may fail.  Whether it does is decided
      by an oracle [fails : Site -> Fault -> bool], indexed by the call site in
      the orchestrator and by the position of the primitive call inside the
      manager method.  Each call site is executed at most once per workflow
      run, so the oracle is as general as a script of outcomes.
    - The host is a record [World] of typed resource sets, together with a
      ghost [trace] recording every mutating manager call that was issued. *)

From Stdlib Require Import ZArith String Ascii List Bool Lia.
From stdpp Require Import base option list gmap strings sorting pretty.
Import ListNotations.

Local Open Scope string_scope.
Local Open Scope Z_scope.

(** ** Errors *)

(** Positions of the primitive external calls inside the manager methods. *)
Inductive Fault :=
  (* database/sql on the state store *)
  | SqlExec
  (* github client *)
  | GhGetLatestRelease | GhGetReleaseByTag | GhDownloadReleaseAsset
  | GhMkdirAll | GhCreate | GhCopy | GhChmod | GhRemoveSymlink | GhSymlink
  (* creds *)
  | RandInt | CredsWriteFile
  (* os calls made by the orchestrator itself *)
  | OsMkdirAll | OsRemoveAll | OsRemoveSymlink | OsRemoveFile | OsSymlink
  | OsReadDir | OsRemoveEntry (version : string)
  (* systemd manager *)
  | SdWriteFile | SdRemoveFile | SdSystemctl
  | SdNeverActive
  | SdUseradd | SdStderrAlreadyExists | SdUserdel | SdStderrDoesNotExist
  (* nginx manager *)
  | NgxWriteFile | NgxRemoveStale | NgxSymlink | NgxRemoveSitesAfterSymlink
  | NgxTest | NgxRemoveEnabledAfterTest | NgxRemoveSitesAfterTest | NgxReload
  | NgxRemoveEnabled | NgxRemoveSites
  (* MariaDB manager *)
  | DbExistsQuery | DbCreateDatabase | DbCreateUser | DbDropAfterUser
  | DbGrant | DbDropUserAfterGrant | DbDropAfterGrant | DbFlush
  | DbDropUser | DbDropDatabase
  (* health *)
  | NetDial.

(** A Go [error] value.  Messages keep the text of the format string; the
    wrapped cause is kept structurally. *)
#[local] Set Warnings "-register-all".
Inductive Err :=
  | ErrNotFound
  | ErrExternal (f : Fault)
  | ErrConstraint (column : string)
  | Errorf (msg : string) (args : list string)
  | Wrapf (msg : string) (args : list string) (cause : Err)
  | RollbackIssues (cause : Err) (issues : list Err).

(** [err.Error()]: the message, followed by the messages of the causes. *)
Fixpoint Error (e : Err) : string :=
  match e with
  | ErrNotFound => "service not found"
  | ErrExternal _ => "external failure"
  | ErrConstraint column => "constraint failed: " ++ column
  | Errorf msg _ => msg
  | Wrapf msg _ cause => msg ++ ": " ++ Error cause
  | RollbackIssues cause issues =>
      Error cause ++ "; rollback issues (may need manual cleanup): "
        ++ String.concat "; " (List.map Error issues)
  end.

Inductive Res (A : Type) :=
  | Ok (a : A)
  | Fail (e : Err).
Arguments Ok {A} a.
Arguments Fail {A} e.

(** [map[string]string]: [None] is the nil map. *)
Abbreviation GoMap := (option (gmap string string)).

Definition len (m : GoMap) : Z :=
  match m with
  | None => 0
  | Some m => Z.of_nat (size m)
  end.

(** [time.Time], as far as the store looks at it. *)
Record Time := { unix_sec : Z; nanos : Z }.

Definition time_Unix (sec nsec : Z) : Time := {| unix_sec := sec; nanos := nsec |}.

(** [encoding/json] on [map[string]string].  The library is outside the
    repository; the store is written against this interface.  [json.Marshal]
    has no failing case on a map from strings to strings. *)
Class JSONCodec := {
  json_Marshal : gmap string string -> string;
  json_Unmarshal : string -> Res GoMap
}.

(** ** Package state *)
Module state.

Record Service := {
  Name : string;
  Repo : string;
  Version : string;
  PrevVersion : string;
  Port : Z;
  RouteType : string;
  RouteValue : string;
  DBName : string;
  DBUser : string;
  ExtraEnv : GoMap;
  DeployedAt : Time;
  UpdatedAt : Time
}.

Record HistoryEntry := {
  ID : Z;
  HService : string;
  Action : string;
  HVersion : string;
  Timestamp : Time;
  Detail : GoMap
}.

(** [sql.NullString] *)
Record NullString := { NString : string; Valid : bool }.

Definition NullString_zero : NullString := {| NString := ""; Valid := false |}.

(** A column value of type TEXT that may be NULL. *)
Definition to_column (s : NullString) : option string :=
  if Valid s then Some (NString s) else None.

Definition scan_NullString (c : option string) : NullString :=
  match c with
  | Some s => {| NString := s; Valid := true |}
  | None => NullString_zero
  end.

(** Rows of the tables [services] and [history] of the schema. *)
Record ServiceRow := {
  c_name : string;
  c_repo : string;
  c_version : string;
  c_prev_version : option string;
  c_port : Z;
  c_route_type : string;
  c_route_value : string;
  c_db_name : string;
  c_db_user : string;
  c_extra_env : option string;
  c_deployed_at : Z;
  c_updated_at : Z
}.

Record HistoryRow := {
  h_id : Z;
  h_service : string;
  h_action : string;
  h_version : option string;
  h_timestamp : Z;
  h_detail : option string
}.

Record Store := {
  services : list ServiceRow;
  history : list HistoryRow
}.

Definition empty : Store := {| services := []; history := [] |}.

Definition nullString (s : string) : NullString :=
  if String.eqb s "" then NullString_zero
  else {| NString := s; Valid := true |}.

(** [SELECT ... FROM services WHERE name = ?] *)
Definition select_by_name (name : string) (st : Store) : option ServiceRow :=
  List.find (fun r => String.eqb (c_name r) name) (services st).

Definition select_by_port (port : Z) (st : Store) : option ServiceRow :=
  List.find (fun r => Z.eqb (c_port r) port) (services st).

Section WithCodec.
Context {J : JSONCodec}.

Definition marshalJSON (v : GoMap) : Res NullString :=
  (* a nil map passed as interface{} is not the nil interface; it is
     caught by the length test like the empty map *)
  if Z.eqb (len v) 0 then Ok NullString_zero
  else
    match v with
    | None => Ok NullString_zero
    | Some m => Ok {| NString := json_Marshal m; Valid := true |}
    end.

(** [scanService]: the row has been found; the columns are copied and the
    extra-environment blob is decoded. *)
Definition scanService (row : ServiceRow) : Res Service :=
  let prevVersion := scan_NullString (c_prev_version row) in
  let extraEnv := scan_NullString (c_extra_env row) in
  let svc := {|
    Name := c_name row; Repo := c_repo row; Version := c_version row;
    PrevVersion := NString prevVersion;
    Port := c_port row;
    RouteType := c_route_type row; RouteValue := c_route_value row;
    DBName := c_db_name row; DBUser := c_db_user row;
    ExtraEnv := None;
    DeployedAt := time_Unix (c_deployed_at row) 0;
    UpdatedAt := time_Unix (c_updated_at row) 0 |} in
  if Valid extraEnv && negb (String.eqb (NString extraEnv) "") then
    match json_Unmarshal (NString extraEnv) with
    | Fail e => Fail (Wrapf "unmarshaling extra_env" [] e)
    | Ok m =>
        Ok {| Name := Name svc; Repo := Repo svc; Version := Version svc;
              PrevVersion := PrevVersion svc; Port := Port svc;
              RouteType := RouteType svc; RouteValue := RouteValue svc;
              DBName := DBName svc; DBUser := DBUser svc;
              ExtraEnv := m;
              DeployedAt := DeployedAt svc; UpdatedAt := UpdatedAt svc |}
    end
  else Ok svc.

(** The row written for a service by INSERT and UPDATE. *)
Definition row_of (svc : Service) (extraEnv : NullString) (deployed_at : Z)
  : ServiceRow :=
  {| c_name := Name svc; c_repo := Repo svc; c_version := Version svc;
     c_prev_version := to_column (nullString (PrevVersion svc));
     c_port := Port svc;
     c_route_type := RouteType svc; c_route_value := RouteValue svc;
     c_db_name := DBName svc; c_db_user := DBUser svc;
     c_extra_env := to_column extraEnv;
     c_deployed_at := deployed_at;
     c_updated_at := unix_sec (UpdatedAt svc) |}.

(** [InsertService]: [name] is the primary key and [port] is UNIQUE. *)
Definition InsertService (io : bool) (svc : Service) (st : Store)
  : option Err * Store :=
  match marshalJSON (ExtraEnv svc) with
  | Fail e => (Some e, st)
  | Ok extraEnv =>
      let row := row_of svc extraEnv (unix_sec (DeployedAt svc)) in
      let err :=
        if io then Some (ErrExternal SqlExec)
        else if bool_decide (is_Some (select_by_name (Name svc) st))
             then Some (ErrConstraint "name")
        else if bool_decide (is_Some (select_by_port (Port svc) st))
             then Some (ErrConstraint "port")
        else None in
      match err with
      | Some e => (Some (Wrapf "inserting service" [Name svc] e), st)
      | None =>
          (None, {| services := (services st ++ [row])%list; history := history st |})
      end
  end.

Definition GetService (io : bool) (name : string) (st : Store) : Res Service :=
  if io then Fail (Wrapf "getting service" [name] (ErrExternal SqlExec))
  else
    match select_by_name name st with
    | None => Fail ErrNotFound
    | Some row =>
        match scanService row with
        | Fail e => Fail (Wrapf "getting service" [name] e)
        | Ok svc => Ok svc
        end
    end.

(** [UPDATE services SET ... WHERE name=?]: every column but [name] and
    [deployed_at] is overwritten in the matching row. *)
Definition update_rows (svc : Service) (extraEnv : NullString)
  (rows : list ServiceRow) : list ServiceRow :=
  List.map (fun r =>
    if String.eqb (c_name r) (Name svc)
    then row_of svc extraEnv (c_deployed_at r) else r) rows.

Definition port_taken_by_other (svc : Service) (st : Store) : bool :=
  existsb (fun r => Z.eqb (c_port r) (Port svc)
                    && negb (String.eqb (c_name r) (Name svc)))
          (services st).

Definition UpdateService (io : bool) (svc : Service) (st : Store)
  : option Err * Store :=
  match marshalJSON (ExtraEnv svc) with
  | Fail e => (Some e, st)
  | Ok extraEnv =>
      if io then
        (Some (Wrapf "updating service" [Name svc] (ErrExternal SqlExec)), st)
      else
        match select_by_name (Name svc) st with
        | None => (Some ErrNotFound, st)      (* RowsAffected = 0 *)
        | Some _ =>
            if port_taken_by_other svc st then
              (Some (Wrapf "updating service" [Name svc] (ErrConstraint "port")),
               st)
            else
              (None, {| services := update_rows svc extraEnv (services st);
                        history := history st |})
        end
  end.

Definition DeleteService (io : bool) (name : string) (st : Store)
  : option Err * Store :=
  if io then (Some (Wrapf "deleting service" [name] (ErrExternal SqlExec)), st)
  else
    match select_by_name name st with
    | None => (Some ErrNotFound, st)
    | Some _ =>
        (None, {| services :=
                    List.filter (fun r => negb (String.eqb (c_name r) name))
                                (services st);
                  history := history st |})
    end.

(** [SELECT port FROM services ORDER BY port] *)
Definition UsedPorts (io : bool) (st : Store) : Res (list Z) :=
  if io then Fail (Wrapf "querying used ports" [] (ErrExternal SqlExec))
  else Ok (merge_sort Z.le (List.map c_port (services st))).

Definition PortOwner (io : bool) (port : Z) (st : Store) : Res string :=
  if io then
    Fail (Wrapf "querying port owner" [pretty port] (ErrExternal SqlExec))
  else
    match select_by_port port st with
    | None => Ok ""
    | Some row => Ok (c_name row)
    end.

Definition AppendHistory (io : bool) (entry : HistoryEntry) (st : Store)
  : option Err * Store :=
  match marshalJSON (Detail entry) with
  | Fail e => (Some e, st)
  | Ok detail =>
      if io then (Some (Wrapf "appending history" [] (ErrExternal SqlExec)), st)
      else
        let row := {|
          h_id := Z.of_nat (length (history st)) + 1;
          h_service := HService entry; h_action := Action entry;
          h_version := to_column (nullString (HVersion entry));
          h_timestamp := unix_sec (Timestamp entry);
          h_detail := to_column detail |} in
        (None, {| services := services st; history := (history st ++ [row])%list |})
  end.

End WithCodec.
(** *** Listings *)
Definition name_le (a b : ServiceRow) : Prop :=
  String.leb (c_name a) (c_name b) = true.

#[local] Instance name_le_dec : RelDecision name_le.
Proof. intros a b. unfold name_le. apply _. Defined.

Definition newer (a b : HistoryRow) : Prop := h_id b <= h_id a.

#[local] Instance newer_dec : RelDecision newer.
Proof. intros a b. unfold newer. apply _. Defined.

Section Listings.
Context {J : JSONCodec}.

(** The loop over [rows.Next()]: each row is scanned as [scanService] scans
    it ([scanServiceFromRows] has the same body); the first error ends the
    listing and is returned as it is. *)
Fixpoint scan_rows (rows : list ServiceRow) (services : list Service)
  : Res (list Service) :=
  match rows with
  | [] => Ok services
  | row :: rest =>
      match scanService row with
      | Fail err => Fail err
      | Ok svc => scan_rows rest (services ++ [svc])%list
      end
  end.

(** [SELECT ... FROM services ORDER BY name] *)
Definition ListServices (io : bool) (st : Store) : Res (list Service) :=
  if io then Fail (Wrapf "listing services" [] (ErrExternal SqlExec))
  else scan_rows (merge_sort name_le (services st)) [].

Definition scanHistory (row : HistoryRow) : Res HistoryEntry :=
  let version := scan_NullString (h_version row) in
  let detail := scan_NullString (h_detail row) in
  let e := {| ID := h_id row; HService := h_service row;
              Action := h_action row; HVersion := NString version;
              Timestamp := time_Unix (h_timestamp row) 0;
              Detail := None |} in
  if Valid detail && negb (String.eqb (NString detail) "") then
    match json_Unmarshal (NString detail) with
    | Fail err => Fail (Wrapf "unmarshaling history detail" [] err)
    | Ok m =>
        Ok {| ID := ID e; HService := HService e; Action := Action e;
              HVersion := HVersion e; Timestamp := Timestamp e; Detail := m |}
    end
  else Ok e.

Fixpoint scan_history (rows : list HistoryRow) (entries : list HistoryEntry)
  : Res (list HistoryEntry) :=
  match rows with
  | [] => Ok entries
  | row :: rest =>
      match scanHistory row with
      | Fail err => Fail err
      | Ok e => scan_history rest (entries ++ [e])%list
      end
  end.

(** [SELECT ... FROM history WHERE service=? ORDER BY id DESC] *)
Definition ListHistory (io : bool) (service : string) (st : Store)
  : Res (list HistoryEntry) :=
  if io then
    Fail (Wrapf "listing history" [service] (ErrExternal SqlExec))
  else
    scan_history
      (merge_sort newer
         (List.filter (fun r => String.eqb (h_service r) service) (history st)))
      [].

End Listings.

End state.

(** ** Package ports *)
Module ports.

Record Allocator := { rangeStart : Z; rangeEnd : Z }.

Definition New (rangeStart rangeEnd : Z) : Allocator :=
  {| rangeStart := rangeStart; rangeEnd := rangeEnd |}.

(** [usedSet[p] = true] for every used port; a missing key reads false. *)
Definition make_usedSet (used : list Z) : gmap Z bool :=
  List.fold_left (fun s p => <[p := true]> s) used ∅.

Definition usedSet_get (usedSet : gmap Z bool) (port : Z) : bool :=
  default false (usedSet !! port).

(** [for port := a.rangeStart; port < a.rangeEnd; port++]: the loop runs over
    the [n] ports from [port] on, [n] being the width of the range. *)
Fixpoint scan (usedSet : gmap Z bool) (n : nat) (port : Z) : option Z :=
  match n with
  | O => None
  | S n' =>
      if negb (usedSet_get usedSet port) then Some port
      else scan usedSet n' (port + 1)
  end.

Definition Next (a : Allocator) (io : bool) (st : state.Store) : Res Z :=
  match state.UsedPorts io st with
  | Fail e => Fail (Wrapf "querying used ports" [] e)
  | Ok used =>
      let usedSet := make_usedSet used in
      match scan usedSet (Z.to_nat (rangeEnd a - rangeStart a)) (rangeStart a) with
      | Some port => Ok port
      | None =>
          Fail (Errorf "port range exhausted"
                  [pretty (rangeStart a); pretty (rangeEnd a)])
      end
  end.

Definition Request (a : Allocator) (io : bool) (port : Z) (st : state.Store)
  : option Err :=
  if (port <? rangeStart a) || (rangeEnd a <=? port) then
    Some (Errorf "port is outside configured range"
            [pretty port; pretty (rangeStart a); pretty (rangeEnd a)])
  else
    match state.PortOwner io port st with
    | Fail e => Some (Wrapf "checking port" [pretty port] e)
    | Ok owner =>
        if negb (String.eqb owner "") then
          Some (Errorf "port is already in use by service" [pretty port; owner])
        else None
    end.

End ports.

(** ** Package nginx *)
Module nginx.

Record RouteParams := {
  Name : string;
  RouteType : string;
  RouteValue : string;
  Port : Z
}.

(** The rendered configuration: which of the two templates was used, and the
    values substituted in it. *)
Inductive Config :=
  | ServerBlock (server_name : string) (port : Z)
  | LocationBlock (location : string) (port : Z).

(** [/etc/nginx/sites-available/gc-<name>.conf] files and the
    [sites-enabled] symlinks, by service name. *)
Record State := {
  sites_available : gmap string Config;
  sites_enabled : gset string
}.

Definition RenderConfig (params : RouteParams) : Res Config :=
  if String.eqb (RouteType params) "subdomain" then
    Ok (ServerBlock (RouteValue params) (Port params))
  else if String.eqb (RouteType params) "path" then
    Ok (LocationBlock (RouteValue params) (Port params))
  else Fail (Errorf "unknown route type; must be 'subdomain' or 'path'"
               [RouteType params]).

Definition remove_enabled (name : string) (s : State) : State :=
  {| sites_available := sites_available s;
     sites_enabled := sites_enabled s ∖ {[name]} |}.

Definition remove_site (name : string) (s : State) : State :=
  {| sites_available := delete name (sites_available s);
     sites_enabled := sites_enabled s |}.

Definition WriteConfig (f : Fault -> bool) (params : RouteParams) (s : State)
  : option Err * State :=
  match RenderConfig params with
  | Fail e => (Some e, s)
  | Ok content =>
      let name := Name params in
      if f NgxWriteFile then
        (Some (Wrapf "writing nginx config" [name] (ErrExternal NgxWriteFile)), s)
      else
        let s := {| sites_available := <[name := content]> (sites_available s);
                    sites_enabled := sites_enabled s |} in
        (* os.Remove(enabledPath): remove stale symlink if any *)
        let s := if f NgxRemoveStale then s else remove_enabled name s in
        (* os.Symlink fails when the path is still there *)
        if f NgxSymlink || bool_decide (name ∈ sites_enabled s) then
          let s := if f NgxRemoveSitesAfterSymlink then s
                   else remove_site name s in
          (Some (Wrapf "creating symlink" [name] (ErrExternal NgxSymlink)), s)
        else
          let s := {| sites_available := sites_available s;
                      sites_enabled := {[name]} ∪ sites_enabled s |} in
          if f NgxTest then
            let s := if f NgxRemoveEnabledAfterTest then s
                     else remove_enabled name s in
            let s := if f NgxRemoveSitesAfterTest then s
                     else remove_site name s in
            (Some (Errorf "nginx config test failed (config rolled back)" []), s)
          else if f NgxReload then
            (Some (Wrapf "reloading nginx" [] (ErrExternal NgxReload)), s)
          else (None, s)
  end.

Definition RemoveConfig (f : Fault -> bool) (name : string) (s : State)
  : option Err * State :=
  let s := if f NgxRemoveEnabled then s else remove_enabled name s in
  let s := if f NgxRemoveSites then s else remove_site name s in
  if f NgxReload then
    (Some (Wrapf "reloading nginx after removing" [name] (ErrExternal NgxReload)),
     s)
  else (None, s).

(** [strings.HasPrefix(value, "/")] and [strings.Contains(value, ".")] *)
Definition HasPrefix_slash (value : string) : bool :=
  match value with
  | String c _ => Ascii.eqb c "/"
  | EmptyString => false
  end.

Fixpoint Contains_dot (value : string) : bool :=
  match value with
  | String c rest => Ascii.eqb c "." || Contains_dot rest
  | EmptyString => false
  end.

Definition InferRouteType (value : string) : string :=
  if HasPrefix_slash value then "path"
  else if Contains_dot value then "subdomain"
  else "subdomain".

End nginx.

(** ** Package systemd *)
Module systemd.

(** Unit files [gc-<name>.service], system users [gc-<name>], enabled units
    and active units, by service name. *)
Record State := {
  units : gset string;
  accounts : gset string;
  enabled : gset string;
  active : gset string
}.

Definition WriteUnit (f : Fault -> bool) (name : string) (s : State)
  : option Err * State :=
  if f SdWriteFile then
    (Some (Wrapf "writing unit file" [name] (ErrExternal SdWriteFile)), s)
  else
    (None, {| units := {[name]} ∪ units s; accounts := accounts s;
              enabled := enabled s; active := active s |}).

(** A missing file is not an error ([os.IsNotExist]). *)
Definition RemoveUnit (f : Fault -> bool) (name : string) (s : State)
  : option Err * State :=
  if f SdRemoveFile then
    (Some (Wrapf "removing unit file" [name] (ErrExternal SdRemoveFile)), s)
  else
    (None, {| units := units s ∖ {[name]}; accounts := accounts s;
              enabled := enabled s; active := active s |}).

Definition DaemonReload (f : Fault -> bool) (s : State) : option Err * State :=
  if f SdSystemctl then
    (Some (Wrapf "daemon-reload" [] (ErrExternal SdSystemctl)), s)
  else (None, s).

Definition Enable (f : Fault -> bool) (name : string) (s : State)
  : option Err * State :=
  if f SdSystemctl then
    (Some (Wrapf "enabling" [name] (ErrExternal SdSystemctl)), s)
  else
    (None, {| units := units s; accounts := accounts s;
              enabled := {[name]} ∪ enabled s; active := active s |}).

Definition set_inactive (name : string) (s : State) : State :=
  {| units := units s; accounts := accounts s;
     enabled := enabled s; active := active s ∖ {[name]} |}.

(** [Start]: [systemctl start], then polling [is-active] for ten seconds.
    The oracle decides at [SdNeverActive] whether the unit is seen active
    before the deadline. *)
Definition Start (f : Fault -> bool) (name : string) (s : State)
  : option Err * State :=
  if f SdSystemctl then
    (Some (Wrapf "starting" [name] (ErrExternal SdSystemctl)), s)
  else if f SdNeverActive then
    (Some (Errorf "service failed to become active within 10s" [name]),
     set_inactive name s)
  else
    (None, {| units := units s; accounts := accounts s;
              enabled := enabled s; active := {[name]} ∪ active s |}).

Definition Stop (f : Fault -> bool) (name : string) (s : State)
  : option Err * State :=
  if f SdSystemctl then
    (Some (Wrapf "stopping" [name] (ErrExternal SdSystemctl)), s)
  else (None, set_inactive name s).

Definition Disable (f : Fault -> bool) (name : string) (s : State)
  : option Err * State :=
  if f SdSystemctl then
    (Some (Wrapf "disabling" [name] (ErrExternal SdSystemctl)), s)
  else
    (None, {| units := units s; accounts := accounts s;
              enabled := enabled s ∖ {[name]}; active := active s |}).

Definition IsActive (name : string) (s : State) : bool :=
  bool_decide (name ∈ active s).

(** [useradd] failing with "already exists" on stderr is not an error. *)
Definition CreateUser (f : Fault -> bool) (name : string) (s : State)
  : option Err * State :=
  if f SdUseradd then
    if f SdStderrAlreadyExists then (None, s)
    else (Some (Wrapf "creating user" [name] (ErrExternal SdUseradd)), s)
  else
    (None, {| units := units s; accounts := {[name]} ∪ accounts s;
              enabled := enabled s; active := active s |}).

(** [userdel] failing with "does not exist" on stderr is not an error. *)
Definition RemoveUser (f : Fault -> bool) (name : string) (s : State)
  : option Err * State :=
  if f SdUserdel then
    if f SdStderrDoesNotExist then (None, s)
    else (Some (Wrapf "removing user" [name] (ErrExternal SdUserdel)), s)
  else
    (None, {| units := units s; accounts := accounts s ∖ {[name]};
              enabled := enabled s; active := active s |}).

End systemd.

(** ** Package creds *)
Module creds.

(** [Generate]: the characters come from [crypto/rand]; the oracle supplies
    the outcome [password]. *)
Definition Generate (f : Fault -> bool) (password : string) (length : Z)
  : Res string :=
  if f RandInt then
    Fail (Wrapf "generating random credential" [] (ErrExternal RandInt))
  else Ok password.

Record EnvFileContent := { Entries : gmap string string }.

Inductive Format := EnvLines | TOML.

(** The secrets file [/etc/gophercaptain/<name>/env] with its format and
    entries, and the directories [/etc/gophercaptain/<name>]. *)
Record State := {
  envdirs : gset string;
  envfiles : gmap string (Format * gmap string string)
}.

Definition write (fmt : Format) (f : Fault -> bool) (name : string)
  (content : EnvFileContent) (s : State) : option Err * State :=
  (* os.WriteFile does not create the directory *)
  if f CredsWriteFile || negb (bool_decide (name ∈ envdirs s)) then
    (Some (Wrapf "writing env file" [name] (ErrExternal CredsWriteFile)), s)
  else
    (None, {| envdirs := envdirs s;
              envfiles := <[name := (fmt, Entries content)]> (envfiles s) |}).

Definition WriteEnvFile := write EnvLines.
Definition WriteTOMLConfigFile := write TOML.

(** *** The loop of Generate

    [Generate] above stands for one run of this loop: the oracle's
    [password] is its result. *)
Definition charset : string :=
  "abcdefghijklmnopqrstuvwxyzABCDEFGHIJKLMNOPQRSTUVWXYZ0123456789".

(** [charset[n]]; an index outside the string is a run-time panic, which
    [rand.Int] excludes by returning a number below [len(charset)]. *)
Definition charset_at (n : Z) : ascii :=
  default "000"%char (String.get (Z.to_nat n) charset).

(** The loop of [Generate] from its [i]-th iteration on, [todo] iterations
    being left; [draw i] is what the [i]-th call of [rand.Int] returns. *)
Fixpoint generate_from (draw : nat -> Res Z) (i todo : nat) : Res string :=
  match todo with
  | O => Ok EmptyString
  | S todo' =>
      match draw i with
      | Fail err => Fail (Wrapf "generating random credential" [] err)
      | Ok n =>
          match generate_from draw (S i) todo' with
          | Fail err => Fail err
          | Ok rest => Ok (String (charset_at n) rest)
          end
      end
  end.

(** [Generate(length)] for a length that is not negative. *)
Definition GenerateWith (draw : nat -> Res Z) (length : Z) : Res string :=
  generate_from draw 0 (Z.to_nat length).

End creds.

(** ** Package db *)
Module db.

Definition is_alnum (c : ascii) : bool :=
  let n := nat_of_ascii c in
  (Nat.leb 48 n && Nat.leb n 57) || (Nat.leb 65 n && Nat.leb n 90)
  || (Nat.leb 97 n && Nat.leb n 122).

Definition is_name_char (c : ascii) : bool :=
  is_alnum c || Ascii.eqb c "_" || Ascii.eqb c "-".

Fixpoint all_name_chars (s : string) : bool :=
  match s with
  | EmptyString => true
  | String c rest => is_name_char c && all_name_chars rest
  end.

(** [validName = ^[a-zA-Z0-9][a-zA-Z0-9_-]*$] *)
Definition validName (name : string) : bool :=
  match name with
  | EmptyString => false
  | String c rest => is_alnum c && all_name_chars rest
  end.

Definition ValidateServiceName (name : string) : option Err :=
  if negb (validName name) then Some (Errorf "invalid service name" [name])
  else None.

Record CreateResult := {
  DBName : string;
  DBUser : string;
  Password : string
}.

(** Schemas and principals of the MariaDB server, by their SQL names. *)
Record State := {
  databases : gset string;
  users : gset string
}.

Definition drop_database (dbName : string) (s : State) : State :=
  {| databases := databases s ∖ {[dbName]}; users := users s |}.

Definition drop_user (dbUser : string) (s : State) : State :=
  {| databases := databases s; users := users s ∖ {[dbUser]} |}.

Definition DatabaseExists (f : Fault -> bool) (name : string) (s : State)
  : Res bool :=
  let dbName := "gc_" ++ name in
  if f DbExistsQuery then
    Fail (Wrapf "checking database existence" [] (ErrExternal DbExistsQuery))
  else Ok (bool_decide (dbName ∈ databases s)).

Definition CreateDatabase (f : Fault -> bool) (random : string) (name : string)
  (s : State) : Res CreateResult * State :=
  match ValidateServiceName name with
  | Some e => (Fail e, s)
  | None =>
      let dbName := "gc_" ++ name in
      let dbUser := "gc_" ++ name in
      match DatabaseExists f name s with
      | Fail e => (Fail e, s)
      | Ok true => (Fail (Errorf "database already exists" [dbName]), s)
      | Ok false =>
          match creds.Generate f random 32 with
          | Fail e => (Fail (Wrapf "generating database password" [] e), s)
          | Ok password =>
              if f DbCreateDatabase then
                (Fail (Wrapf "creating database" [dbName]
                         (ErrExternal DbCreateDatabase)), s)
              else
                let s := {| databases := {[dbName]} ∪ databases s;
                            users := users s |} in
                (* CREATE USER fails for an existing principal *)
                if f DbCreateUser || bool_decide (dbUser ∈ users s) then
                  let s := if f DbDropAfterUser then s
                           else drop_database dbName s in
                  (Fail (Wrapf "creating user" [dbUser]
                           (ErrExternal DbCreateUser)), s)
                else
                  let s := {| databases := databases s;
                              users := {[dbUser]} ∪ users s |} in
                  if f DbGrant then
                    let s := if f DbDropUserAfterGrant then s
                             else drop_user dbUser s in
                    let s := if f DbDropAfterGrant then s
                             else drop_database dbName s in
                    (Fail (Wrapf "granting privileges" [] (ErrExternal DbGrant)),
                     s)
                  else if f DbFlush then
                    (Fail (Wrapf "flushing privileges" [] (ErrExternal DbFlush)),
                     s)
                  else
                    (Ok {| DBName := dbName; DBUser := dbUser;
                           Password := password |}, s)
          end
      end
  end.

Definition DropDatabase (f : Fault -> bool) (name : string) (s : State)
  : option Err * State :=
  match ValidateServiceName name with
  | Some e => (Some e, s)
  | None =>
      let dbName := "gc_" ++ name in
      let dbUser := "gc_" ++ name in
      if f DbDropUser then
        (Some (Wrapf "dropping user" [dbUser] (ErrExternal DbDropUser)), s)
      else
        let s := drop_user dbUser s in
        if f DbDropDatabase then
          (Some (Wrapf "dropping database" [dbName]
                   (ErrExternal DbDropDatabase)), s)
        else (None, drop_database dbName s)
  end.

End db.

(** ** Package github *)
Module github.

(** [/opt/gophercaptain/bin/<name>/]: the versioned files
    [<name>-<version>] and the target of the symlink [<name>]. *)
Record State := {
  artifacts : gset (string * string);
  symlinks : gmap string string
}.

Record Client := {
  defaultOwner : string;
  (* the parsed asset pattern, applied to a name and a version *)
  assetTmpl : string -> string -> Res string
}.

(** What the GitHub API answers. *)
Record Releases := {
  latest_release : string -> string -> string;
  release_assets : string -> string -> string -> list string
}.

Definition ResolveAssetName (tmpl : string -> string -> Res string)
  (name version : string) : Res string :=
  match tmpl name version with
  | Fail e => Fail (Wrapf "executing asset pattern template" [] e)
  | Ok s => Ok s
  end.

Fixpoint FindAsset (assets : list string) (expected : string) : Res string :=
  match assets with
  | a :: rest => if String.eqb a expected then Ok a else FindAsset rest expected
  | [] => Fail (Errorf "no asset matching found; available assets" [expected])
  end.

Definition ResolveVersion (c : Client) (api : Releases) (f : Fault -> bool)
  (owner repo version : string) : Res string :=
  let owner := if String.eqb owner "" then defaultOwner c else owner in
  if String.eqb version "latest" || String.eqb version "" then
    if f GhGetLatestRelease then
      Fail (Wrapf "getting latest release" [owner; repo]
              (ErrExternal GhGetLatestRelease))
    else Ok (latest_release api owner repo)
  else Ok version.

Definition binPath (serviceName version : string) : string :=
  "/opt/gophercaptain/bin/" ++ serviceName ++ "/" ++ serviceName ++ "-"
    ++ version.

Definition DownloadAsset (c : Client) (api : Releases) (f : Fault -> bool)
  (owner repo version serviceName : string) (s : State)
  : Res string * State :=
  let owner := if String.eqb owner "" then defaultOwner c else owner in
  if f GhGetReleaseByTag then
    (Fail (Wrapf "getting release" [version; owner; repo]
             (ErrExternal GhGetReleaseByTag)), s)
  else
    match ResolveAssetName (assetTmpl c) serviceName version with
    | Fail e => (Fail e, s)
    | Ok expected =>
        let assetNames := release_assets api owner repo version in
        if negb (existsb (String.eqb expected) assetNames) then
          match FindAsset assetNames expected with
          | Fail e => (Fail e, s)
          | Ok _ => (Fail (Errorf "no asset matching found" [expected]), s)
          end
        else if f GhDownloadReleaseAsset then
          (Fail (Wrapf "downloading asset" [expected]
                   (ErrExternal GhDownloadReleaseAsset)), s)
        else if f GhMkdirAll then
          (Fail (Wrapf "creating bin dir" [serviceName] (ErrExternal GhMkdirAll)),
           s)
        else if f GhCreate then
          (Fail (Wrapf "creating file" [binPath serviceName version]
                   (ErrExternal GhCreate)), s)
        else
          let s := {| artifacts := {[(serviceName, version)]} ∪ artifacts s;
                      symlinks := symlinks s |} in
          if f GhCopy then
            (Fail (Wrapf "writing asset" [binPath serviceName version]
                     (ErrExternal GhCopy)), s)
          else if f GhChmod then
            (Fail (Wrapf "chmod" [binPath serviceName version]
                     (ErrExternal GhChmod)), s)
          else
            (* os.Remove(symlinkPath): remove existing symlink if any *)
            let s := if f GhRemoveSymlink then s
                     else {| artifacts := artifacts s;
                             symlinks := delete serviceName (symlinks s) |} in
            if f GhSymlink
               || bool_decide (is_Some (symlinks s !! serviceName)) then
              (Fail (Wrapf "creating symlink" [serviceName; version]
                       (ErrExternal GhSymlink)), s)
            else
              (Ok (binPath serviceName version),
               {| artifacts := artifacts s;
                  symlinks := <[serviceName := version]> (symlinks s) |})
    end.

End github.

(** ** Package health *)
Module health.

(** [WaitForPort]: one TCP dial per second until the deadline; the oracle
    decides at [NetDial] whether any of them is accepted in time. *)
Definition WaitForPort (f : Fault -> bool) (port : Z) (timeout : Z)
  : option Err :=
  if f NetDial then
    Some (Errorf "port not responding" [pretty port; pretty timeout])
  else None.

End health.

(** ** Package strings (the functions the orchestrator uses) *)
Module gostrings.

(** [strings.Contains(s, "/")] *)
Fixpoint Contains_slash (s : string) : bool :=
  match s with
  | String c rest => Ascii.eqb c "/" || Contains_slash rest
  | EmptyString => false
  end.

(** [strings.Split(s, "/")]: never empty. *)
Fixpoint Split_slash (s : string) : list string :=
  match s with
  | EmptyString => [EmptyString]
  | String c rest =>
      if Ascii.eqb c "/" then EmptyString :: Split_slash rest
      else match Split_slash rest with
           | h :: t => String c h :: t
           | [] => [String c EmptyString]
           end
  end.

(** [strings.SplitN(s, "/", 2)] on a string that contains a slash: the text
    before the first slash and the text after it. *)
Fixpoint SplitN2_slash (s : string) : string * string :=
  match s with
  | EmptyString => (EmptyString, EmptyString)
  | String c rest =>
      if Ascii.eqb c "/" then (EmptyString, rest)
      else let '(a, b) := SplitN2_slash rest in (String c a, b)
  end.

End gostrings.

(** ** Package orchestrator *)
Module orchestrator.

(** The fields of [config.Config] the orchestrator reads. *)
Record Config := {
  Ports_RangeStart : Z;
  Ports_RangeEnd : Z;
  MariaDB_Host : string;
  MariaDB_Port : Z
}.

(** The call sites of the four workflows, in source order. *)
Inductive Site :=
  (* Deploy *)
  | D_GetService | D_ResolveVersion | D_Next | D_Request | D_DownloadAsset
  | D_CreateDatabase | D_MkdirAll | D_WriteEnv
  | D_CreateUser | D_WriteUnit | D_DaemonReload | D_Enable | D_Start
  | D_WriteConfig | D_InsertService | D_AppendHistory
  (* the rollback closure of Deploy *)
  | RB_removeBinary | RB_DropDatabase | RB_removeEnvDir
  | RB_Stop | RB_Disable | RB_RemoveUnit | RB_DaemonReload | RB_RemoveUser
  | RB_RemoveConfig
  (* Upgrade *)
  | U_GetService | U_ResolveVersion | U_DownloadAsset | U_Stop
  | U_updateSymlink | U_symlink_undo | U_symlink_Start
  | U_Start | U_start_undo | U_start_Start
  | U_WaitForPort | U_health_Stop | U_health_undo | U_health_Start
  | U_pruneVersions | U_UpdateService | U_AppendHistory
  (* Rollback *)
  | R_GetService | R_Stop | R_updateSymlink | R_symlink_Start | R_Start
  | R_UpdateService | R_AppendHistory
  (* Remove *)
  | M_GetService | M_Stop | M_Disable | M_RemoveUnit | M_DaemonReload
  | M_RemoveUser | M_RemoveConfig | M_removeEnvDir | M_RemoveAll
  | M_DropDatabase | M_AppendHistory | M_DeleteService.

(** What the environment decides during one workflow run. *)
Record Env := {
  fails : Site -> Fault -> bool;
  api : github.Releases;
  random : string;            (* the outcome of creds.Generate *)
  now : Time                  (* time.Now() *)
}.

(** Mutating calls issued by a workflow, in order (ghost state). *)
Inductive Event :=
  | CallDownloadAsset (name version : string)
  | CallCreateDatabase (name : string)
  | CallDropDatabase (name : string)
  | CallMkdirAll (name : string)
  | CallWriteEnv (name : string)
  | CallRemoveEnvDir (name : string)
  | CallCreateUser (name : string)
  | CallWriteUnit (name : string)
  | CallDaemonReload
  | CallEnable (name : string)
  | CallStart (name : string)
  | CallStop (name : string)
  | CallDisable (name : string)
  | CallRemoveUnit (name : string)
  | CallRemoveUser (name : string)
  | CallWriteConfig (name : string)
  | CallRemoveConfig (name : string)
  | CallUpdateSymlink (name version : string)
  | CallRemoveBinary (name version : string)
  | CallRemoveAllBin (name : string)
  | CallPruneVersions (name current previous : string)
  | CallInsertService (name : string)
  | CallUpdateService (name : string)
  | CallDeleteService (name : string)
  | CallAppendHistory (name action : string)
  | Progress (msg : string).

(** The host: the state store and the five systems the managers drive. *)
Record World := {
  store : state.Store;
  bin : github.State;
  etc : creds.State;
  sd : systemd.State;
  ngx : nginx.State;
  maria : db.State;
  trace : list Event
}.

Definition log (ev : Event) (w : World) : World :=
  {| store := store w; bin := bin w; etc := etc w; sd := sd w; ngx := ngx w;
     maria := maria w; trace := (trace w ++ [ev])%list |}.

Definition on_store {A} (ev : Event) (op : state.Store -> A * state.Store)
  (w : World) : A * World :=
  (fst (op (store w)),
   {| store := snd (op (store w)); bin := bin w; etc := etc w; sd := sd w;
      ngx := ngx w; maria := maria w; trace := (trace w ++ [ev])%list |}).

Definition on_bin {A} (ev : Event) (op : github.State -> A * github.State)
  (w : World) : A * World :=
  (fst (op (bin w)),
   {| store := store w; bin := snd (op (bin w)); etc := etc w; sd := sd w;
      ngx := ngx w; maria := maria w; trace := (trace w ++ [ev])%list |}).

Definition on_etc {A} (ev : Event) (op : creds.State -> A * creds.State)
  (w : World) : A * World :=
  (fst (op (etc w)),
   {| store := store w; bin := bin w; etc := snd (op (etc w)); sd := sd w;
      ngx := ngx w; maria := maria w; trace := (trace w ++ [ev])%list |}).

Definition on_sd {A} (ev : Event) (op : systemd.State -> A * systemd.State)
  (w : World) : A * World :=
  (fst (op (sd w)),
   {| store := store w; bin := bin w; etc := etc w; sd := snd (op (sd w));
      ngx := ngx w; maria := maria w; trace := (trace w ++ [ev])%list |}).

Definition on_ngx {A} (ev : Event) (op : nginx.State -> A * nginx.State)
  (w : World) : A * World :=
  (fst (op (ngx w)),
   {| store := store w; bin := bin w; etc := etc w; sd := sd w;
      ngx := snd (op (ngx w)); maria := maria w; trace := (trace w ++ [ev])%list |}).

Definition on_maria {A} (ev : Event) (op : db.State -> A * db.State)
  (w : World) : A * World :=
  (fst (op (maria w)),
   {| store := store w; bin := bin w; etc := etc w; sd := sd w;
      ngx := ngx w; maria := snd (op (maria w)); trace := (trace w ++ [ev])%list |}).

Record Orchestrator := {
  cfg : Config;
  gh : github.Client;
  ports : ports.Allocator
}.

Definition New (cfg : Config) (gh : github.Client) : Orchestrator :=
  {| cfg := cfg; gh := gh;
     ports := ports.New (Ports_RangeStart cfg) (Ports_RangeEnd cfg) |}.

(** *** Helpers *)

Definition unlink (name : string) (s : github.State) : github.State :=
  {| github.artifacts := github.artifacts s;
     github.symlinks := delete name (github.symlinks s) |}.

(** [os.Symlink] fails when the path is still there. *)
Definition updateSymlink (f : Fault -> bool) (name version : string)
  (s : github.State) : option Err * github.State :=
  let s := if f OsRemoveSymlink then s else unlink name s in
  if f OsSymlink || bool_decide (is_Some (github.symlinks s !! name)) then
    (Some (ErrExternal OsSymlink), s)
  else
    (None, {| github.artifacts := github.artifacts s;
              github.symlinks := <[name := version]> (github.symlinks s) |}).

(** [os.Remove] fails on a missing file. *)
Definition removeBinary (f : Fault -> bool) (name version : string)
  (s : github.State) : option Err * github.State :=
  let s := if f OsRemoveSymlink then s else unlink name s in
  if f OsRemoveFile || negb (bool_decide ((name, version) ∈ github.artifacts s))
  then (Some (ErrExternal OsRemoveFile), s)
  else
    (None, {| github.artifacts := github.artifacts s ∖ {[(name, version)]};
              github.symlinks := github.symlinks s |}).

Definition removeEnvDir (f : Fault -> bool) (name : string) (s : creds.State)
  : option Err * creds.State :=
  if f OsRemoveAll then (Some (ErrExternal OsRemoveAll), s)
  else
    (None, {| creds.envdirs := creds.envdirs s ∖ {[name]};
              creds.envfiles := delete name (creds.envfiles s) |}).

(** [os.MkdirAll(envDir, 0755)] *)
Definition mkdirEnvDir (f : Fault -> bool) (name : string) (s : creds.State)
  : option Err * creds.State :=
  if f OsMkdirAll then (Some (ErrExternal OsMkdirAll), s)
  else
    (None, {| creds.envdirs := {[name]} ∪ creds.envdirs s;
              creds.envfiles := creds.envfiles s |}).

(** [os.RemoveAll(binDir)]: every versioned file of the service and the
    symlink. *)
Definition removeBinDir (f : Fault -> bool) (name : string) (s : github.State)
  : option Err * github.State :=
  if f OsRemoveAll then (Some (ErrExternal OsRemoveAll), s)
  else
    (None, {| github.artifacts :=
                filter (fun p => p.1 ≠ name) (github.artifacts s);
              github.symlinks := delete name (github.symlinks s) |}).

(** [pruneVersions]: the directory entries are the symlink and the versioned
    files; the entries named [name], [name-current] and [name-previous] are
    kept, each other one is removed unless its removal fails. *)
Definition pruneVersions (f : Fault -> bool) (name current previous : string)
  (s : github.State) : unit * github.State :=
  if f OsReadDir then (tt, s)
  else
    (tt, {| github.artifacts :=
              filter (fun p => p.1 ≠ name ∨ p.2 = current ∨ p.2 = previous
                               ∨ f (OsRemoveEntry p.2) = true)
                     (github.artifacts s);
            github.symlinks := github.symlinks s |}).

(** *** The rollback journal of Deploy *)

(** The entries of [completed]: "binary", "database", "envfile", "systemd"
    and "nginx". *)
Inductive Step := Binary | Database | Envfile | Systemd | Nginx.

Definition step_name (s : Step) : string :=
  match s with
  | Binary => "binary"
  | Database => "database"
  | Envfile => "envfile"
  | Systemd => "systemd"
  | Nginx => "nginx"
  end.

(** One iteration of the loop of the rollback closure: the [switch]. *)
Definition compensate (env : Env) (name version : string) (step : Step)
  (w : World) : option Err * World :=
  match step with
  | Binary =>
      on_bin (CallRemoveBinary name version)
             (removeBinary (fails env RB_removeBinary) name version) w
  | Database =>
      on_maria (CallDropDatabase name)
               (db.DropDatabase (fails env RB_DropDatabase) name) w
  | Envfile =>
      on_etc (CallRemoveEnvDir name)
             (removeEnvDir (fails env RB_removeEnvDir) name) w
  | Systemd =>
      let w := snd (on_sd (CallStop name)
                          (systemd.Stop (fails env RB_Stop) name) w) in
      let w := snd (on_sd (CallDisable name)
                          (systemd.Disable (fails env RB_Disable) name) w) in
      let w := snd (on_sd (CallRemoveUnit name)
                          (systemd.RemoveUnit (fails env RB_RemoveUnit) name) w) in
      let w := snd (on_sd CallDaemonReload
                          (systemd.DaemonReload (fails env RB_DaemonReload)) w) in
      on_sd (CallRemoveUser name)
            (systemd.RemoveUser (fails env RB_RemoveUser) name) w
  | Nginx =>
      on_ngx (CallRemoveConfig name)
             (nginx.RemoveConfig (fails env RB_RemoveConfig) name) w
  end.

(** The loop [for i := len(completed) - 1; i >= 0; i--], run over the steps
    in the order it visits them. *)
Fixpoint rollback_loop (env : Env) (name version : string) (steps : list Step)
  (rollbackErrs : list Err) (w : World) : list Err * World :=
  match steps with
  | [] => (rollbackErrs, w)
  | step :: rest =>
      let rbErr := fst (compensate env name version step w) in
      let w := snd (compensate env name version step w) in
      let rollbackErrs :=
        match rbErr with
        | Some e => (rollbackErrs ++ [Wrapf "rollback" [step_name step] e])%list
        | None => rollbackErrs
        end in
      rollback_loop env name version rest rollbackErrs w
  end.

Definition rollback (env : Env) (name version : string) (completed : list Step)
  (originalErr : Err) (w : World) : Err * World :=
  let rollbackErrs :=
    fst (rollback_loop env name version (rev completed) [] w) in
  let w := snd (rollback_loop env name version (rev completed) [] w) in
  (if (0 <? Z.of_nat (length rollbackErrs))
   then RollbackIssues originalErr rollbackErrs
   else originalErr, w).

(** *** Deploy *)

Module DeployRequest.
Record t := {
  Repo : string;
  Name : string;        (* derived from repo if empty *)
  Version : string;     (* "latest" or explicit tag *)
  Port : Z;             (* 0 = auto-assign *)
  Route : string;       (* empty = no routing *)
  RouteType : string;   (* inferred if empty *)
  ExtraEnv : GoMap;
  NoDB : bool;
  ConfigFile : bool;
  Owner : string
}.
End DeployRequest.

Module DeployResult.
Record t := {
  Name : string;
  Version : string;
  Port : Z;
  Route : string;
  RouteType : string;
  DBName : string;
  NginxSkip : bool;
  NginxWarn : string
}.
End DeployResult.

Section Workflows.
Context {J : JSONCodec}.

(** What a run of Deploy yields: the returned pair, the value of
    [completed] at the return (ghost), and the host. *)
Definition DeployOutcome : Type := Res DeployResult.t * list Step * World.

(** [return nil, rollback(err)] *)
Definition abort (env : Env) (name version : string) (completed : list Step)
  (err : Err) (w : World) : DeployOutcome :=
  (Fail (fst (rollback env name version completed err w)), completed,
   snd (rollback env name version completed err w)).

(** Step 6: record state. *)
Definition deploy_record (env : Env) (req : DeployRequest.t)
  (name version : string) (port : Z) (routeType : string)
  (dbResult : option db.CreateResult) (result : DeployResult.t)
  (completed : list Step) (w : World) : DeployOutcome :=
  let now := now env in
  let svc := {|
    state.Name := name;
    state.Repo := DeployRequest.Repo req;
    state.Version := version;
    state.PrevVersion := "";
    state.Port := port;
    state.RouteType := routeType;
    state.RouteValue := DeployRequest.Route req;
    state.DBName := DeployResult.DBName result;
    state.DBUser :=
      match dbResult with
      | Some r => db.DBUser r
      | None => DeployResult.DBName result
      end;
    state.ExtraEnv := DeployRequest.ExtraEnv req;
    state.DeployedAt := now;
    state.UpdatedAt := now |} in
  let r := on_store (CallInsertService name)
             (state.InsertService (fails env D_InsertService SqlExec) svc) w in
  match fst r with
  | Some err =>
      abort env name version completed (Wrapf "recording state" [] err) (snd r)
  | None =>
      let h := on_store (CallAppendHistory name "deploy")
                 (state.AppendHistory (fails env D_AppendHistory SqlExec)
                    {| state.ID := 0; state.HService := name;
                       state.Action := "deploy"; state.HVersion := version;
                       state.Timestamp := now;
                       state.Detail := Some {[ "port" := pretty port ]} |})
                 (snd r) in
      (Ok result, completed, snd h)
  end.

(** Step 5: write nginx config (non-fatal). *)
Definition deploy_route (env : Env) (req : DeployRequest.t)
  (name version : string) (port : Z) (routeType : string)
  (dbResult : option db.CreateResult) (completed : list Step) (w : World)
  : DeployOutcome :=
  let result := {|
    DeployResult.Name := name;
    DeployResult.Version := version;
    DeployResult.Port := port;
    DeployResult.Route := "";
    DeployResult.RouteType := "";
    DeployResult.DBName :=
      match dbResult with Some r => db.DBName r | None => "" end;
    DeployResult.NginxSkip := false;
    DeployResult.NginxWarn := "" |} in
  if negb (String.eqb (DeployRequest.Route req) "") then
    let params := {| nginx.Name := name; nginx.RouteType := routeType;
                     nginx.RouteValue := DeployRequest.Route req;
                     nginx.Port := port |} in
    let r := on_ngx (CallWriteConfig name)
               (nginx.WriteConfig (fails env D_WriteConfig) params) w in
    match fst r with
    | Some err =>
        (* Nginx failure is non-fatal: warn but continue *)
        deploy_record env req name version port routeType dbResult
          {| DeployResult.Name := name; DeployResult.Version := version;
             DeployResult.Port := port;
             DeployResult.Route := ""; DeployResult.RouteType := "";
             DeployResult.DBName := DeployResult.DBName result;
             DeployResult.NginxSkip := true;
             DeployResult.NginxWarn := Error err |}
          completed (snd r)
    | None =>
        deploy_record env req name version port routeType dbResult
          {| DeployResult.Name := name; DeployResult.Version := version;
             DeployResult.Port := port;
             DeployResult.Route := DeployRequest.Route req;
             DeployResult.RouteType := routeType;
             DeployResult.DBName := DeployResult.DBName result;
             DeployResult.NginxSkip := false;
             DeployResult.NginxWarn := "" |}
          (completed ++ [Nginx])%list (snd r)
    end
  else
    deploy_record env req name version port routeType dbResult
      {| DeployResult.Name := name; DeployResult.Version := version;
         DeployResult.Port := port;
         DeployResult.Route := ""; DeployResult.RouteType := "";
         DeployResult.DBName := DeployResult.DBName result;
         DeployResult.NginxSkip := true;
         DeployResult.NginxWarn := "" |}
      completed w.

(** Step 4: create user, write systemd unit, reload, enable, start. *)
Definition deploy_unit (env : Env) (req : DeployRequest.t)
  (name version : string) (port : Z) (routeType : string)
  (dbResult : option db.CreateResult) (completed : list Step) (w : World)
  : DeployOutcome :=
  let r := on_sd (CallCreateUser name)
             (systemd.CreateUser (fails env D_CreateUser) name) w in
  match fst r with
  | Some err =>
      abort env name version completed (Wrapf "creating system user" [] err)
            (snd r)
  | None =>
  let r := on_sd (CallWriteUnit name)
             (systemd.WriteUnit (fails env D_WriteUnit) name) (snd r) in
  match fst r with
  | Some err =>
      abort env name version completed (Wrapf "writing systemd unit" [] err)
            (snd r)
  | None =>
  let r := on_sd CallDaemonReload
             (systemd.DaemonReload (fails env D_DaemonReload)) (snd r) in
  match fst r with
  | Some err =>
      abort env name version completed (Wrapf "daemon-reload" [] err) (snd r)
  | None =>
  let r := on_sd (CallEnable name)
             (systemd.Enable (fails env D_Enable) name) (snd r) in
  match fst r with
  | Some err =>
      abort env name version completed (Wrapf "enabling service" [] err) (snd r)
  | None =>
  let r := on_sd (CallStart name)
             (systemd.Start (fails env D_Start) name) (snd r) in
  match fst r with
  | Some err =>
      abort env name version completed (Wrapf "starting service" [] err) (snd r)
  | None =>
      deploy_route env req name version port routeType dbResult
        (completed ++ [Systemd])%list (snd r)
  end end end end end.

(** Step 3: write env/config file. *)
Definition deploy_env (o : Orchestrator) (env : Env) (req : DeployRequest.t)
  (name version : string) (port : Z) (routeType : string)
  (dbResult : option db.CreateResult) (completed : list Step) (w : World)
  : DeployOutcome :=
  let envEntries : gmap string string := {[ "PORT" := pretty port ]} in
  let envEntries :=
    match dbResult with
    | Some r =>
        <["DB_PASSWORD" := db.Password r]>
        (<["DB_USER" := db.DBUser r]>
        (<["DB_NAME" := db.DBName r]>
        (<["DB_PORT" := pretty (MariaDB_Port (cfg o))]>
        (<["DB_HOST" := MariaDB_Host (cfg o)]> envEntries))))
    | None => envEntries
    end in
  (* for k, v := range req.ExtraEnv { envEntries[k] = v } *)
  let envEntries :=
    match DeployRequest.ExtraEnv req with
    | Some extra => extra ∪ envEntries
    | None => envEntries
    end in
  let r := on_etc (CallMkdirAll name)
             (mkdirEnvDir (fails env D_MkdirAll) name) w in
  match fst r with
  | Some err =>
      abort env name version completed (Wrapf "creating env dir" [] err) (snd r)
  | None =>
  let envContent := {| creds.Entries := envEntries |} in
  let r := on_etc (CallWriteEnv name)
             (if DeployRequest.ConfigFile req
              then creds.WriteTOMLConfigFile (fails env D_WriteEnv) name envContent
              else creds.WriteEnvFile (fails env D_WriteEnv) name envContent)
             (snd r) in
  match fst r with
  | Some err =>
      abort env name version completed (Wrapf "writing env file" [] err) (snd r)
  | None =>
      deploy_unit env req name version port routeType dbResult
        (completed ++ [Envfile])%list (snd r)
  end end.

(** Step 2: create database (unless --no-db). *)
Definition deploy_database (o : Orchestrator) (env : Env)
  (req : DeployRequest.t) (name version : string) (port : Z)
  (routeType : string) (completed : list Step) (w : World) : DeployOutcome :=
  if negb (DeployRequest.NoDB req) then
    let r := on_maria (CallCreateDatabase name)
               (db.CreateDatabase (fails env D_CreateDatabase) (random env) name)
               w in
    match fst r with
    | Fail err =>
        abort env name version completed (Wrapf "creating database" [] err)
              (snd r)
    | Ok dbResult =>
        deploy_env o env req name version port routeType (Some dbResult)
          (completed ++ [Database])%list (snd r)
    end
  else deploy_env o env req name version port routeType None completed w.

(** The name the deploy works under. *)
Definition deploy_name (req : DeployRequest.t) : string :=
  if String.eqb (DeployRequest.Name req) "" then
    List.last (gostrings.Split_slash (DeployRequest.Repo req)) ""
  else DeployRequest.Name req.

Definition deploy_owner_repo (req : DeployRequest.t) : string * string :=
  if gostrings.Contains_slash (DeployRequest.Repo req) then
    gostrings.SplitN2_slash (DeployRequest.Repo req)
  else (DeployRequest.Owner req, DeployRequest.Repo req).

Definition DeployRun (o : Orchestrator) (env : Env) (req : DeployRequest.t)
  (w : World) : DeployOutcome :=
  let name := deploy_name req in
  match db.ValidateServiceName name with
  | Some err => (Fail err, [], w)
  | None =>
  (* Check name not already taken *)
  match state.GetService (fails env D_GetService SqlExec) name (store w) with
  | Ok _ =>
      (Fail (Errorf "service already exists; use a different --name or remove it first"
               [name]), [], w)
  | Fail _ =>
  let owner := fst (deploy_owner_repo req) in
  let repo := snd (deploy_owner_repo req) in
  match github.ResolveVersion (gh o) (api env) (fails env D_ResolveVersion)
          owner repo (DeployRequest.Version req) with
  | Fail err => (Fail (Wrapf "resolving version" [] err), [], w)
  | Ok version =>
  (* Allocate port *)
  let allocated :=
    if DeployRequest.Port req =? 0 then
      ports.Next (ports o) (fails env D_Next SqlExec) (store w)
    else
      match ports.Request (ports o) (fails env D_Request SqlExec)
              (DeployRequest.Port req) (store w) with
      | Some err => Fail err
      | None => Ok (DeployRequest.Port req)
      end in
  match allocated with
  | Fail err => (Fail err, [], w)
  | Ok port =>
  (* Infer route type *)
  let routeType :=
    if String.eqb (DeployRequest.RouteType req) ""
       && negb (String.eqb (DeployRequest.Route req) "")
    then nginx.InferRouteType (DeployRequest.Route req)
    else DeployRequest.RouteType req in
  (* Step 1: fetch binary *)
  let r := on_bin (CallDownloadAsset name version)
             (github.DownloadAsset (gh o) (api env) (fails env D_DownloadAsset)
                owner repo version name) w in
  match fst r with
  | Fail err => (Fail (Wrapf "fetching binary" [] err), [], snd r)
  | Ok _ =>
      deploy_database o env req name version port routeType [Binary] (snd r)
  end end end end end.

Definition Deploy (o : Orchestrator) (env : Env) (req : DeployRequest.t)
  (w : World) : Res DeployResult.t * World :=
  (fst (fst (DeployRun o env req w)), snd (DeployRun o env req w)).

(** *** Upgrade *)

Record UpgradeRequest := {
  up_Name : string;
  up_Version : string;    (* "latest" or explicit tag *)
  up_Owner : string
}.

Record UpgradeResult := {
  res_Name : string;
  OldVersion : string;
  NewVersion : string;
  RolledBack : bool;
  RollbackMsg : string
}.

Definition upgrade_owner_repo (req : UpgradeRequest) (svc : state.Service)
  : string * string :=
  if gostrings.Contains_slash (state.Repo svc) then
    (if String.eqb (up_Owner req) ""
     then fst (gostrings.SplitN2_slash (state.Repo svc))
     else up_Owner req,
     snd (gostrings.SplitN2_slash (state.Repo svc)))
  else (up_Owner req, state.Repo svc).

(** Steps 6 and 7: prune old versions, update state. *)
Definition upgrade_commit (env : Env) (req : UpgradeRequest)
  (svc : state.Service) (version oldVersion : string) (w : World)
  : Res UpgradeResult * World :=
  let w := snd (on_bin (CallPruneVersions (up_Name req) version oldVersion)
                  (pruneVersions (fails env U_pruneVersions) (up_Name req)
                     version oldVersion) w) in
  let now := now env in
  let svc := {|
    state.Name := state.Name svc; state.Repo := state.Repo svc;
    state.Version := version;
    state.PrevVersion := oldVersion;
    state.Port := state.Port svc;
    state.RouteType := state.RouteType svc;
    state.RouteValue := state.RouteValue svc;
    state.DBName := state.DBName svc; state.DBUser := state.DBUser svc;
    state.ExtraEnv := state.ExtraEnv svc;
    state.DeployedAt := state.DeployedAt svc;
    state.UpdatedAt := now |} in
  let r := on_store (CallUpdateService (state.Name svc))
             (state.UpdateService (fails env U_UpdateService SqlExec) svc) w in
  match fst r with
  | Some err => (Fail (Wrapf "updating state" [] err), snd r)
  | None =>
      let h := on_store (CallAppendHistory (up_Name req) "upgrade")
                 (state.AppendHistory (fails env U_AppendHistory SqlExec)
                    {| state.ID := 0; state.HService := up_Name req;
                       state.Action := "upgrade"; state.HVersion := version;
                       state.Timestamp := now;
                       state.Detail := Some {[ "from" := oldVersion ]} |})
                 (snd r) in
      (Ok {| res_Name := up_Name req; OldVersion := oldVersion;
             NewVersion := version; RolledBack := false; RollbackMsg := "" |},
       snd h)
  end.

(** Steps 2 to 5: stop, update symlink, start, health check. *)
Definition upgrade_switch (env : Env) (req : UpgradeRequest)
  (svc : state.Service) (version oldVersion : string) (w : World)
  : Res UpgradeResult * World :=
  let name := up_Name req in
  (* Step 2: stop service *)
  let r := on_sd (CallStop name) (systemd.Stop (fails env U_Stop) name) w in
  match fst r with
  | Some err => (Fail (Wrapf "stopping service" [] err), snd r)
  | None =>
  (* Step 3: update symlink *)
  let r := on_bin (CallUpdateSymlink name version)
             (updateSymlink (fails env U_updateSymlink) name version) (snd r) in
  match fst r with
  | Some err =>
      (* Try to restart with old version *)
      let w := snd (on_bin (CallUpdateSymlink name oldVersion)
                      (updateSymlink (fails env U_symlink_undo) name oldVersion)
                      (snd r)) in
      let w := snd (on_sd (CallStart name)
                      (systemd.Start (fails env U_symlink_Start) name) w) in
      (Fail (Wrapf "updating symlink" [] err), w)
  | None =>
  (* Step 4: start service *)
  let r := on_sd (CallStart name) (systemd.Start (fails env U_Start) name)
             (snd r) in
  match fst r with
  | Some err =>
      (* Rollback: swap symlink back and restart *)
      let w := snd (on_bin (CallUpdateSymlink name oldVersion)
                      (updateSymlink (fails env U_start_undo) name oldVersion)
                      (snd r)) in
      let w := snd (on_sd (CallStart name)
                      (systemd.Start (fails env U_start_Start) name) w) in
      (Ok {| res_Name := name; OldVersion := oldVersion; NewVersion := version;
             RolledBack := true;
             RollbackMsg := "service failed to start with " ++ version
                              ++ ", rolled back to " ++ oldVersion |}, w)
  | None =>
  (* Step 5: health check *)
  match health.WaitForPort (fails env U_WaitForPort) (state.Port svc) 10 with
  | Some err =>
      (* Rollback: swap symlink back, restart *)
      let w := snd (on_sd (CallStop name)
                      (systemd.Stop (fails env U_health_Stop) name) (snd r)) in
      let w := snd (on_bin (CallUpdateSymlink name oldVersion)
                      (updateSymlink (fails env U_health_undo) name oldVersion)
                      w) in
      let w := snd (on_sd (CallStart name)
                      (systemd.Start (fails env U_health_Start) name) w) in
      (Ok {| res_Name := name; OldVersion := oldVersion; NewVersion := version;
             RolledBack := true;
             RollbackMsg := "health check failed for " ++ version
                              ++ ", rolled back to " ++ oldVersion |}, w)
  | None => upgrade_commit env req svc version oldVersion (snd r)
  end end end end.

Definition Upgrade (o : Orchestrator) (env : Env) (req : UpgradeRequest)
  (w : World) : Res UpgradeResult * World :=
  match state.GetService (fails env U_GetService SqlExec) (up_Name req)
          (store w) with
  | Fail _ =>
      (Fail (Errorf "service not found; run 'gophercaptain list' to see deployed services"
               [up_Name req]), w)
  | Ok svc =>
  let owner := fst (upgrade_owner_repo req svc) in
  let repo := snd (upgrade_owner_repo req svc) in
  match github.ResolveVersion (gh o) (api env) (fails env U_ResolveVersion)
          owner repo (up_Version req) with
  | Fail err => (Fail (Wrapf "resolving version" [] err), w)
  | Ok version =>
  if String.eqb version (state.Version svc) then
    (Fail (Errorf "service is already at version" [up_Name req; version]), w)
  else
    let oldVersion := state.Version svc in
    (* Step 1: fetch new binary *)
    let r := on_bin (CallDownloadAsset (up_Name req) version)
               (github.DownloadAsset (gh o) (api env)
                  (fails env U_DownloadAsset) owner repo version (up_Name req))
               w in
    match fst r with
    | Fail err => (Fail (Wrapf "fetching binary" [] err), snd r)
    | Ok _ => upgrade_switch env req svc version oldVersion (snd r)
    end
  end end.

(** *** Rollback *)

Definition Rollback (env : Env) (name : string) (w : World)
  : Res string * World :=
  match state.GetService (fails env R_GetService SqlExec) name (store w) with
  | Fail _ =>
      (Fail (Errorf "service not found; run 'gophercaptain list' to see deployed services"
               [name]), w)
  | Ok svc =>
  if String.eqb (state.PrevVersion svc) "" then
    (Fail (Errorf "service has no previous version to roll back to" [name]), w)
  else
  let prevVersion := state.PrevVersion svc in
  (* Stop service *)
  let r := on_sd (CallStop name) (systemd.Stop (fails env R_Stop) name) w in
  match fst r with
  | Some err => (Fail (Wrapf "stopping service" [] err), snd r)
  | None =>
  (* Swap symlink *)
  let r := on_bin (CallUpdateSymlink name prevVersion)
             (updateSymlink (fails env R_updateSymlink) name prevVersion)
             (snd r) in
  match fst r with
  | Some err =>
      let w := snd (on_sd (CallStart name)
                      (systemd.Start (fails env R_symlink_Start) name) (snd r)) in
      (Fail (Wrapf "updating symlink" [] err), w)
  | None =>
  (* Start service *)
  let r := on_sd (CallStart name) (systemd.Start (fails env R_Start) name)
             (snd r) in
  match fst r with
  | Some err => (Fail (Wrapf "starting service after rollback" [] err), snd r)
  | None =>
  (* Update state *)
  let now := now env in
  let svc := {|
    state.Name := state.Name svc; state.Repo := state.Repo svc;
    state.Version := prevVersion;
    state.PrevVersion := state.Version svc;
    state.Port := state.Port svc;
    state.RouteType := state.RouteType svc;
    state.RouteValue := state.RouteValue svc;
    state.DBName := state.DBName svc; state.DBUser := state.DBUser svc;
    state.ExtraEnv := state.ExtraEnv svc;
    state.DeployedAt := state.DeployedAt svc;
    state.UpdatedAt := now |} in
  let w := snd (on_store (CallUpdateService (state.Name svc))
                  (state.UpdateService (fails env R_UpdateService SqlExec) svc)
                  (snd r)) in
  let w := snd (on_store (CallAppendHistory name "rollback")
                  (state.AppendHistory (fails env R_AppendHistory SqlExec)
                     {| state.ID := 0; state.HService := name;
                        state.Action := "rollback";
                        state.HVersion := prevVersion;
                        state.Timestamp := now; state.Detail := None |})
                  w) in
  (Ok prevVersion, w)
  end end end end.

(** *** Remove *)

Record RemoveRequest := {
  rm_Name : string;
  DropDB : bool;
  Yes : bool
}.

(** The [step] callback reports progress; its calls are logged. *)
Definition step (msg : string) (w : World) : World := log (Progress msg) w.

Definition Remove (env : Env) (req : RemoveRequest) (w : World)
  : option Err * World :=
  let name := rm_Name req in
  match state.GetService (fails env M_GetService SqlExec) name (store w) with
  | Fail _ =>
      (Some (Errorf "service not found; run 'gophercaptain list' to see deployed services"
               [name]), w)
  | Ok svc =>
  (* Stop systemd service *)
  let w := step ("Stopping gc-" ++ name ++ "...") w in
  let w := snd (on_sd (CallStop name) (systemd.Stop (fails env M_Stop) name) w) in
  (* Disable and remove unit *)
  let w := step "Removing systemd unit..." w in
  let w := snd (on_sd (CallDisable name)
                  (systemd.Disable (fails env M_Disable) name) w) in
  let w := snd (on_sd (CallRemoveUnit name)
                  (systemd.RemoveUnit (fails env M_RemoveUnit) name) w) in
  let w := snd (on_sd CallDaemonReload
                  (systemd.DaemonReload (fails env M_DaemonReload)) w) in
  let w := snd (on_sd (CallRemoveUser name)
                  (systemd.RemoveUser (fails env M_RemoveUser) name) w) in
  (* Remove nginx config *)
  let w :=
    if negb (String.eqb (state.RouteValue svc) "") then
      let w := step "Removing nginx config..." w in
      snd (on_ngx (CallRemoveConfig name)
             (nginx.RemoveConfig (fails env M_RemoveConfig) name) w)
    else w in
  (* Remove env file and config directory *)
  let w := step "Removing env and binaries..." w in
  let w := snd (on_etc (CallRemoveEnvDir name)
                  (removeEnvDir (fails env M_removeEnvDir) name) w) in
  (* Remove binaries *)
  let w := snd (on_bin (CallRemoveAllBin name)
                  (removeBinDir (fails env M_RemoveAll) name) w) in
  (* Drop database if requested *)
  let dropped :=
    if DropDB req && negb (String.eqb (state.DBName svc) "") then
      let w := step ("Dropping database " ++ state.DBName svc ++ "...") w in
      on_maria (CallDropDatabase name)
        (db.DropDatabase (fails env M_DropDatabase) name) w
    else (None, w) in
  match fst dropped with
  | Some err => (Some (Wrapf "dropping database" [] err), snd dropped)
  | None =>
  (* Delete from state, record history *)
  let now := now env in
  let w := snd (on_store (CallAppendHistory name "remove")
                  (state.AppendHistory (fails env M_AppendHistory SqlExec)
                     {| state.ID := 0; state.HService := name;
                        state.Action := "remove";
                        state.HVersion := state.Version svc;
                        state.Timestamp := now; state.Detail := None |})
                  (snd dropped)) in
  let w := snd (on_store (CallDeleteService name)
                  (state.DeleteService (fails env M_DeleteService SqlExec) name)
                  w) in
  (None, w)
  end end.

End Workflows.
End orchestrator.

(** ** A reference JSON codec

    Objects with string members, keys in sorted order, with the escapes
    for the quote and the backslash.  It is used to run the model on
    concrete inputs. *)
Module json.

Definition quote : ascii := "034"%char.
Definition backslash : ascii := "092"%char.

Fixpoint escape (s : string) : string :=
  match s with
  | EmptyString => EmptyString
  | String c rest =>
      if Ascii.eqb c quote || Ascii.eqb c backslash
      then String backslash (String c (escape rest))
      else String c (escape rest)
  end.

Definition quoted (s : string) : string :=
  String quote (escape s ++ String quote EmptyString).

Definition member (kv : string * string) : string :=
  quoted kv.1 ++ ":" ++ quoted kv.2.

Definition key_le (a b : string * string) : Prop :=
  String.leb a.1 b.1 = true.

#[local] Instance key_le_dec : RelDecision key_le.
Proof. intros a b. unfold key_le. apply _. Defined.

Definition Marshal (m : gmap string string) : string :=
  "{" ++ String.concat ","
           (List.map member (merge_sort key_le (map_to_list m)))
      ++ "}".

(** Reading a string literal after its opening quote: the text and what
    follows the closing quote. *)
Fixpoint unquote (s : string) : option (string * string) :=
  match s with
  | EmptyString => None
  | String c rest =>
      if Ascii.eqb c quote then Some (EmptyString, rest)
      else if Ascii.eqb c backslash then
        match rest with
        | EmptyString => None
        | String d rest' =>
            match unquote rest' with
            | Some (t, after) => Some (String d t, after)
            | None => None
            end
        end
      else
        match unquote rest with
        | Some (t, after) => Some (String c t, after)
        | None => None
        end
  end.

Fixpoint members (fuel : nat) (s : string) (acc : gmap string string)
  : option (gmap string string) :=
  match fuel with
  | O => None
  | S fuel' =>
      match s with
      | String q rest =>
          if negb (Ascii.eqb q quote) then None
          else
            match unquote rest with
            | Some (k, String colon (String q' rest')) =>
                if negb (Ascii.eqb colon ":" && Ascii.eqb q' quote) then None
                else
                  match unquote rest' with
                  | Some (v, String c after) =>
                      if Ascii.eqb c "}" then
                        match after with
                        | EmptyString => Some (<[k := v]> acc)
                        | _ => None
                        end
                      else if Ascii.eqb c "," then
                        members fuel' after (<[k := v]> acc)
                      else None
                  | _ => None
                  end
            | _ => None
            end
      | EmptyString => None
      end
  end.

Definition Unmarshal (data : string) : Res GoMap :=
  if String.eqb data "null" then Ok None
  else if String.eqb data "{}" then Ok (Some ∅)
  else
    match data with
    | String c rest =>
        if Ascii.eqb c "{" then
          match members (String.length data) rest ∅ with
          | Some m => Ok (Some m)
          | None => Fail (Errorf "invalid character" [])
          end
        else Fail (Errorf "invalid character" [])
    | EmptyString => Fail (Errorf "unexpected end of JSON input" [])
    end.

Definition codec : JSONCodec :=
  {| json_Marshal := Marshal; json_Unmarshal := Unmarshal |}.

End json.

(** ** Package strings, for a separator of one byte *)
Module gotext.

Definition newline : ascii := "010"%char.

(** [strings.Split(s, sep)]: never empty. *)
Fixpoint Split (sep : ascii) (s : string) : list string :=
  match s with
  | EmptyString => [EmptyString]
  | String c rest =>
      if Ascii.eqb c sep then EmptyString :: Split sep rest
      else match Split sep rest with
           | h :: t => String c h :: t
           | [] => [String c EmptyString]
           end
  end.

(** The text before the first [sep] and the text after it, if there is
    one. *)
Fixpoint cut (sep : ascii) (s : string) : option (string * string) :=
  match s with
  | EmptyString => None
  | String c rest =>
      if Ascii.eqb c sep then Some (EmptyString, rest)
      else match cut sep rest with
           | Some (a, b) => Some (String c a, b)
           | None => None
           end
  end.

(** [strings.SplitN(s, sep, 2)] *)
Definition SplitN2 (sep : ascii) (s : string) : list string :=
  match cut sep s with
  | Some (a, b) => [a; b]
  | None => [s]
  end.

(** [strings.Join(elems, sep)] *)
Definition Join (elems : list string) (sep : string) : string :=
  String.concat sep elems.

Definition str_le (a b : string) : Prop := String.leb a b = true.

#[local] Instance str_le_dec : RelDecision str_le.
Proof. intros a b. unfold str_le. apply _. Defined.

(** [sort.Strings] *)
Definition sort_Strings (keys : list string) : list string :=
  merge_sort str_le keys.

End gotext.

(** ** The data written by creds.WriteEnvFile *)
Module envfile.

(** The keys of the map, sorted. *)
Definition keys (content : creds.EnvFileContent) : list string :=
  gotext.sort_Strings (List.map fst (map_to_list (creds.Entries content))).

(** [fmt.Sprintf("%s=%s", k, content.Entries[k])] *)
Definition line (content : creds.EnvFileContent) (k : string) : string :=
  k ++ "=" ++ default "" (creds.Entries content !! k).

Definition lines (content : creds.EnvFileContent) : list string :=
  List.map (line content) (keys content).

(** [strings.Join(lines, "\n") + "\n"] *)
Definition data (content : creds.EnvFileContent) : string :=
  gotext.Join (lines content) (String gotext.newline EmptyString)
    ++ String gotext.newline EmptyString.

End envfile.

(** ** Package commands *)
Module commands.

Definition to_lower (c : ascii) : ascii :=
  let n := nat_of_ascii c in
  if Nat.leb 65 n && Nat.leb n 90 then ascii_of_nat (n + 32) else c.

(** One rune of the subject against one capital letter of the pattern under
    [(?i)]: the letter, its lower-case form and, for K and S, the runes
    that fold to them (U+212A and U+017F), as they are encoded in UTF-8.
    The answer is the text after the rune. *)
Definition match_letter (p : ascii) (s : string) : option string :=
  match s with
  | EmptyString => None
  | String c rest =>
      if Ascii.eqb c p || Ascii.eqb c (to_lower p) then Some rest
      else if Ascii.eqb p "K" then
        match s with
        | String "226" (String "132" (String "170" rest')) => Some rest'
        | _ => None
        end
      else if Ascii.eqb p "S" then
        match s with
        | String "197" (String "191" rest') => Some rest'
        | _ => None
        end
      else None
  end.

Fixpoint match_word (pat s : string) : bool :=
  match pat with
  | EmptyString => true
  | String p pat' =>
      match match_letter p s with
      | Some rest => match_word pat' rest
      | None => false
      end
  end.

Fixpoint contains_word (pat s : string) : bool :=
  match s with
  | EmptyString => match_word pat EmptyString
  | String _ rest => match_word pat s || contains_word pat rest
  end.

(** [credentialKeys = (?i)(PASSWORD|SECRET|TOKEN|KEY)], searched anywhere
    in the subject. *)
Definition credentialKeys_MatchString (s : string) : bool :=
  existsb (fun pat => contains_word pat s) ["PASSWORD"; "SECRET"; "TOKEN"; "KEY"].

(** What a sequence of prints leaves on the output. *)
Definition printed (outs : list string) : string :=
  List.fold_right String.append EmptyString outs.

(** What one iteration of the loop of [inspect] over the lines of the env
    file prints. *)
Definition inspect_line (line : string) : string :=
  if String.eqb line "" then ""
  else
    match gotext.SplitN2 "=" line with
    | [k; _] =>
        if credentialKeys_MatchString k
        then k ++ "=****" ++ String gotext.newline EmptyString
        else line ++ String gotext.newline EmptyString
    | _ => line ++ String gotext.newline EmptyString
    end.

(** The env-file part of the output of [inspect], for a file that was
    read. *)
Definition inspect_env (data : string) : string :=
  printed (List.map inspect_line (gotext.Split gotext.newline data)).

(** The loop of [deploy] over the [-e KEY=VALUE] arguments. *)
Fixpoint parse_env (envVars : list string) (extraEnv : gmap string string)
  : Res (gmap string string) :=
  match envVars with
  | [] => Ok extraEnv
  | e :: rest =>
      match gotext.SplitN2 "=" e with
      | [k; v] => parse_env rest (<[k := v]> extraEnv)
      | _ => Fail (Errorf "invalid env var: must be KEY=VALUE" [e])
      end
  end.

End commands.

(** * Specification vocabulary *)

(** ** Concrete inputs used by the examples *)
Module fixtures.
Import orchestrator.

Definition cfg0 : Config :=
  {| Ports_RangeStart := 3000; Ports_RangeEnd := 4000;
     MariaDB_Host := "127.0.0.1"; MariaDB_Port := 3306 |}.

(** The default asset pattern [{{.Name}}-linux-amd64]. *)
Definition gh0 : github.Client :=
  {| github.defaultOwner := "owner";
     github.assetTmpl := fun name _ => Ok (name ++ "-linux-amd64") |}.

Definition api0 : github.Releases :=
  {| github.latest_release := fun _ _ => "v1.1.0";
     github.release_assets :=
       fun _ repo _ => [repo ++ "-linux-amd64"; "checksums.txt"] |}.

Definition o0 : Orchestrator := New cfg0 gh0.

(** A fresh host. *)
Definition world0 : World :=
  {| store := state.empty;
     bin := {| github.artifacts := ∅; github.symlinks := ∅ |};
     etc := {| creds.envdirs := ∅; creds.envfiles := ∅ |};
     sd := {| systemd.units := ∅; systemd.accounts := ∅;
              systemd.enabled := ∅; systemd.active := ∅ |};
     ngx := {| nginx.sites_available := ∅; nginx.sites_enabled := ∅ |};
     maria := {| db.databases := ∅; db.users := ∅ |};
     trace := [] |}.

Definition env_of (f : Site -> Fault -> bool) : Env :=
  {| fails := f; api := api0; random := "s3cr3t";
     now := {| unix_sec := 1700000000; nanos := 5 |} |}.

Definition env_ok : Env := env_of (fun _ _ => false).

(** [nginx -t] rejects the configuration. *)
Definition env_nginx_test_fails : Env :=
  env_of (fun s f => match s, f with
                     | D_WriteConfig, NgxTest => true
                     | _, _ => false
                     end).

(** Writing the secrets file fails, and so does DROP DATABASE during the
    rollback. *)
Definition env_env_and_drop_fail : Env :=
  env_of (fun s f => match s, f with
                     | D_WriteEnv, CredsWriteFile => true
                     | RB_DropDatabase, DbDropDatabase => true
                     | _, _ => false
                     end).

(** Recording the state fails; during the rollback [systemctl stop] fails
    and the unit file cannot be removed. *)
Definition env_insert_and_stop_fail : Env :=
  env_of (fun s f => match s, f with
                     | D_InsertService, SqlExec => true
                     | RB_Stop, SdSystemctl => true
                     | RB_RemoveUnit, SdRemoveFile => true
                     | _, _ => false
                     end).

(** The new version never binds its port. *)
Definition env_health_fails : Env :=
  env_of (fun s f => match s, f with
                     | U_WaitForPort, NetDial => true
                     | _, _ => false
                     end).

(** DROP USER fails during Remove. *)
Definition env_drop_fails : Env :=
  env_of (fun s f => match s, f with
                     | M_DropDatabase, DbDropUser => true
                     | _, _ => false
                     end).

(** deploy(repo="owner/api", version="v1.0.0", route="api.example.com") *)
Definition req0 : DeployRequest.t :=
  {| DeployRequest.Repo := "owner/api"; DeployRequest.Name := "";
     DeployRequest.Version := "v1.0.0"; DeployRequest.Port := 0;
     DeployRequest.Route := "api.example.com"; DeployRequest.RouteType := "";
     DeployRequest.ExtraEnv := None; DeployRequest.NoDB := false;
     DeployRequest.ConfigFile := false; DeployRequest.Owner := "" |}.

(** The host after the deploy above went through. *)
Definition world1 : World :=
  Eval vm_compute in snd (@Deploy json.codec o0 env_ok req0 world0).

Definition upgrade0 : UpgradeRequest :=
  {| up_Name := "api"; up_Version := "v1.1.0"; up_Owner := "" |}.

(** The host after [world1] was upgraded to v1.1.0. *)
Definition world2 : World :=
  Eval vm_compute in snd (@Upgrade json.codec o0 env_ok upgrade0 world1).

Definition remove0 : RemoveRequest :=
  {| rm_Name := "api"; DropDB := true; Yes := true |}.

Definition svc0 : state.Service :=
  {| state.Name := "api"; state.Repo := "owner/api"; state.Version := "v1.0.0";
     state.PrevVersion := ""; state.Port := 3000;
     state.RouteType := "subdomain"; state.RouteValue := "api.example.com";
     state.DBName := "gc_api"; state.DBUser := "gc_api";
     state.ExtraEnv := Some {[ "LOG_LEVEL" := "info" ]};
     state.DeployedAt := {| unix_sec := 1700000000; nanos := 0 |};
     state.UpdatedAt := {| unix_sec := 1700000000; nanos := 0 |} |}.

(** Recording the state fails; every compensation succeeds. *)
Definition env_insert_fails : Env :=
  env_of (fun s f => match s, f with
                     | D_InsertService, SqlExec => true
                     | _, _ => false
                     end).

Definition row_on (name : string) (port : Z) : state.ServiceRow :=
  {| state.c_name := name; state.c_repo := "owner/" ++ name;
     state.c_version := "v1.0.0"; state.c_prev_version := None;
     state.c_port := port; state.c_route_type := ""; state.c_route_value := "";
     state.c_db_name := ""; state.c_db_user := ""; state.c_extra_env := None;
     state.c_deployed_at := 1700000000; state.c_updated_at := 1700000000 |}.

(** Ports 3000, 3001 and 3003 are taken. *)
Definition store3 : state.Store :=
  {| state.services := [row_on "a" 3000; row_on "b" 3001; row_on "c" 3003];
     state.history := [] |}.

(** The record of "api" as read from [world1]. *)
Definition svc1 : state.Service :=
  {| state.Name := "api"; state.Repo := "owner/api"; state.Version := "v1.0.0";
     state.PrevVersion := ""; state.Port := 3000;
     state.RouteType := "subdomain"; state.RouteValue := "api.example.com";
     state.DBName := "gc_api"; state.DBUser := "gc_api";
     state.ExtraEnv := None;
     state.DeployedAt := {| unix_sec := 1700000000; nanos := 0 |};
     state.UpdatedAt := {| unix_sec := 1700000000; nanos := 0 |} |}.

Definition upgrade_same : UpgradeRequest :=
  {| up_Name := "api"; up_Version := "v1.0.0"; up_Owner := "" |}.

(** The store after [svc0] was inserted into the empty store. *)
Definition store_svc0 : state.Store :=
  Eval vm_compute in snd (@state.InsertService json.codec false svc0 state.empty).

(** The host after [world2] was rolled back, and after it was rolled back
    again. *)
Definition world3 : World :=
  Eval vm_compute in snd (@Rollback json.codec env_ok "api" world2).

Definition world4 : World :=
  Eval vm_compute in snd (@Rollback json.codec env_ok "api" world3).

(** The run of Deploy in which recording the state fails and every
    compensation succeeds. *)
Definition run_insert_fails : DeployOutcome :=
  Eval vm_compute in @DeployRun json.codec o0 env_insert_fails req0 world0.

(** The record of "api" after an upgrade, written at a later time. *)
Definition svc0_v2 : state.Service :=
  {| state.Name := "api"; state.Repo := "owner/api"; state.Version := "v1.1.0";
     state.PrevVersion := "v1.0.0"; state.Port := 3000;
     state.RouteType := "subdomain"; state.RouteValue := "api.example.com";
     state.DBName := "gc_api"; state.DBUser := "gc_api";
     state.ExtraEnv := None;
     state.DeployedAt := {| unix_sec := 1800000000; nanos := 7 |};
     state.UpdatedAt := {| unix_sec := 1800000000; nanos := 7 |} |}.

Definition entry0 : state.HistoryEntry :=
  {| state.ID := 7; state.HService := "api"; state.Action := "deploy";
     state.HVersion := "v1.0.0";
     state.Timestamp := {| unix_sec := 1700000000; nanos := 5 |};
     state.Detail := None |}.

Definition no_fault : Fault -> bool := fun _ => false.

(** GRANT is refused. *)
Definition grant_fails : Fault -> bool :=
  fun f => match f with DbGrant => true | _ => false end.

Definition params0 : nginx.RouteParams :=
  {| nginx.Name := "api"; nginx.RouteType := "subdomain";
     nginx.RouteValue := "api.example.com"; nginx.Port := 3000 |}.

(** What the deploy of [req0] on the fresh host returns. *)
Definition res0 : DeployResult.t :=
  {| DeployResult.Name := "api"; DeployResult.Version := "v1.0.0";
     DeployResult.Port := 3000; DeployResult.Route := "api.example.com";
     DeployResult.RouteType := "subdomain"; DeployResult.DBName := "gc_api";
     DeployResult.NginxSkip := false; DeployResult.NginxWarn := "" |}.

(** What the upgrade of [world1] returns. *)
Definition upres0 : UpgradeResult :=
  {| res_Name := "api"; OldVersion := "v1.0.0"; NewVersion := "v1.1.0";
     RolledBack := false; RollbackMsg := "" |}.

(** [systemctl stop] fails during the upgrade. *)
Definition env_stop_fails : Env :=
  env_of (fun s f => match s, f with
                     | U_Stop, SdSystemctl => true
                     | _, _ => false
                     end).

(** The host after "api" was removed from [world2] with its database. *)
Definition world5 : World :=
  Eval vm_compute in snd (@Remove json.codec env_ok remove0 world2).

(** A random source that counts. *)
Definition draw0 : nat -> Res Z := fun i => Ok (Z.of_nat i mod 62).

Definition content0 : creds.EnvFileContent :=
  {| creds.Entries := <["PORT" := "3000"]> {[ "DB_PASSWORD" := "s3cr3t" ]} |}.

Definition kvs0 : list (string * string) :=
  [("A", "1"); ("B", "x=y"); ("A", "2")].

End fixtures.

(** ** Predicates of the statements *)
Import orchestrator.

Definition assigned (st : state.Store) (p : Z) : Prop :=
  In p (List.map state.c_port (state.services st)).

Definition rank (s : Step) : nat :=
  match s with Binary => 0 | Database => 1 | Envfile => 2 | Systemd => 3 | Nginx => 4 end.

Definition journal_below (k : nat) (j : list Step) : Prop :=
  NoDup j /\ In Binary j /\ Forall (fun s => (rank s < k)%nat) j.

Definition aborted (env : Env) (name version : string) (w0 : World) (out : DeployOutcome) : Prop :=
  exists orig w_mid,
    out = abort env name version (snd (fst out)) orig w_mid
    /\ store w_mid = store w0 /\ journal_below 5 (snd (fst out)).

Record deployed (req : DeployRequest.t) (name version : string) (port : Z)
  (routeType : string) (w0 w' : World) (res : DeployResult.t) : Prop := {
  d_name : DeployResult.Name res = name;
  d_version : DeployResult.Version res = version;
  d_port : DeployResult.Port res = port;
  d_row : exists row,
      state.services (store w') = (state.services (store w0) ++ [row])%list
      /\ state.c_name row = name /\ state.c_version row = version
      /\ state.c_port row = port /\ state.c_route_type row = routeType
      /\ state.c_route_value row = DeployRequest.Route req;
  d_active : name ∈ systemd.active (sd w');
  d_db : DeployRequest.NoDB req = false ->
         DeployResult.DBName res = "gc_" ++ name
         /\ "gc_" ++ name ∈ db.databases (maria w')
         /\ "gc_" ++ name ∈ db.users (maria w');
  d_warn : DeployRequest.Route req <> "" -> DeployResult.NginxSkip res = true ->
           DeployResult.NginxWarn res <> "" /\ DeployResult.Route res = ""
           /\ DeployResult.RouteType res = ""
}.

Definition succeeded (req : DeployRequest.t) (name version : string) (port : Z)
  (routeType : string) (w0 : World) (out : DeployOutcome) : Prop :=
  exists res w', out = (Ok res, snd (fst out), w')
                 /\ deployed req name version port routeType w0 w' res.

Definition db_ready (req : DeployRequest.t) (name : string)
  (dbResult : option db.CreateResult) (w : World) : Prop :=
  DeployRequest.NoDB req = false ->
  exists r, dbResult = Some r /\ db.DBName r = "gc_" ++ name
            /\ "gc_" ++ name ∈ db.databases (maria w)
            /\ "gc_" ++ name ∈ db.users (maria w).

Definition deploy_version (o : Orchestrator) (env : Env) (req : DeployRequest.t) : Res string :=
  github.ResolveVersion (gh o) (api env) (fails env D_ResolveVersion)
    (fst (deploy_owner_repo req)) (snd (deploy_owner_repo req))
    (DeployRequest.Version req).

Definition deploy_port (o : Orchestrator) (env : Env) (req : DeployRequest.t) (w : World) : Res Z :=
  if DeployRequest.Port req =? 0 then
    ports.Next (ports o) (fails env D_Next SqlExec) (store w)
  else
    match ports.Request (ports o) (fails env D_Request SqlExec)
            (DeployRequest.Port req) (store w) with
    | Some err => Fail err
    | None => Ok (DeployRequest.Port req)
    end.

Definition deploy_routeType (req : DeployRequest.t) : string :=
  if String.eqb (DeployRequest.RouteType req) ""
     && negb (String.eqb (DeployRequest.Route req) "")
  then nginx.InferRouteType (DeployRequest.Route req)
  else DeployRequest.RouteType req.

#[local] Set Warnings "-clear-no-such-hyp".

Ltac case_if :=
  match goal with
  | |- context [if ?c then _ else _] => destruct c eqn:?
  end.

Definition step_undone (name version : string) (s : Step) (w : World) : Prop :=
  match s with
  | Binary =>
      ((name, version) ∉ github.artifacts (bin w))
      /\ github.symlinks (bin w) !! name = None
  | Database =>
      (("gc_" ++ name) ∉ db.databases (maria w))
      /\ (("gc_" ++ name) ∉ db.users (maria w))
  | Envfile =>
      (name ∉ creds.envdirs (etc w)) /\ creds.envfiles (etc w) !! name = None
  | Systemd =>
      (name ∉ systemd.units (sd w)) /\ (name ∉ systemd.accounts (sd w))
      /\ (name ∉ systemd.enabled (sd w)) /\ (name ∉ systemd.active (sd w))
  | Nginx =>
      nginx.sites_available (ngx w) !! name = None
      /\ (name ∉ nginx.sites_enabled (ngx w))
  end.

Definition step_sites (s : Step) : list Site :=
  match s with
  | Binary => [RB_removeBinary]
  | Database => [RB_DropDatabase]
  | Envfile => [RB_removeEnvDir]
  | Systemd => [RB_Stop; RB_Disable; RB_RemoveUnit; RB_DaemonReload; RB_RemoveUser]
  | Nginx => [RB_RemoveConfig]
  end.

Definition compensation_succeeds (env : Env) (s : Step) : Prop :=
  forall site f, In site (step_sites s) -> fails env site f = false.

Definition bin_shrinks (b' b : github.State) : Prop :=
  github.artifacts b' ⊆ github.artifacts b
  /\ forall n, github.symlinks b !! n = None -> github.symlinks b' !! n = None.

Definition maria_shrinks (m' m : db.State) : Prop :=
  db.databases m' ⊆ db.databases m /\ db.users m' ⊆ db.users m.

Definition etc_shrinks (e' e : creds.State) : Prop :=
  creds.envdirs e' ⊆ creds.envdirs e
  /\ forall n, creds.envfiles e !! n = None -> creds.envfiles e' !! n = None.

Definition sd_shrinks (s' s : systemd.State) : Prop :=
  systemd.units s' ⊆ systemd.units s /\ systemd.accounts s' ⊆ systemd.accounts s
  /\ systemd.enabled s' ⊆ systemd.enabled s /\ systemd.active s' ⊆ systemd.active s.

Definition ngx_shrinks (n' n : nginx.State) : Prop :=
  (forall k, nginx.sites_available n !! k = None ->
             nginx.sites_available n' !! k = None)
  /\ nginx.sites_enabled n' ⊆ nginx.sites_enabled n.

Record shrinks (w' w : World) : Prop := {
  sh_bin : bin_shrinks (bin w') (bin w);
  sh_maria : maria_shrinks (maria w') (maria w);
  sh_etc : etc_shrinks (etc w') (etc w);
  sh_sd : sd_shrinks (sd w') (sd w);
  sh_ngx : ngx_shrinks (ngx w') (ngx w);
  sh_store : store w' = store w
}.

Create HintDb shrink.

Definition compensation_calls (name version : string) (s : Step) : list Event :=
  match s with
  | Binary => [CallRemoveBinary name version]
  | Database => [CallDropDatabase name]
  | Envfile => [CallRemoveEnvDir name]
  | Systemd => [CallStop name; CallDisable name; CallRemoveUnit name;
                CallDaemonReload; CallRemoveUser name]
  | Nginx => [CallRemoveConfig name]
  end.

(** The part of the host a compensation reads and writes. *)
Definition same_part (s : Step) (w w' : World) : Prop :=
  match s with
  | Binary => bin w = bin w'
  | Database => maria w = maria w'
  | Envfile => etc w = etc w'
  | Systemd => sd w = sd w'
  | Nginx => ngx w = ngx w'
  end.

(** What the compensation of a step reports when run on [w]. *)
Definition reported (env : Env) (name version : string) (w : World) (s : Step)
  : option Err :=
  match fst (compensate env name version s w) with
  | Some e => Some (Wrapf "rollback" [step_name s] e)
  | None => None
  end.

Definition upgrade_version (o : Orchestrator) (env : Env) (req : UpgradeRequest)
  (svc : state.Service) : Res string :=
  github.ResolveVersion (gh o) (api env) (fails env U_ResolveVersion)
    (fst (upgrade_owner_repo req svc)) (snd (upgrade_owner_repo req svc))
    (up_Version req).

(** The outcome of the fetch step of Upgrade on the bin directory of [w]. *)
Definition upgrade_fetch (o : Orchestrator) (env : Env) (req : UpgradeRequest)
  (svc : state.Service) (version : string) (w : World)
  : Res string * github.State :=
  github.DownloadAsset (gh o) (api env) (fails env U_DownloadAsset)
    (fst (upgrade_owner_repo req svc)) (snd (upgrade_owner_repo req svc))
    version (up_Name req) (bin w).

(** Upgrade gets as far as starting the new version: the service is known,
    the version resolves to a new one, and fetch, stop and symlink update
    succeed. *)
Definition upgrade_reaches_start {J : JSONCodec} (o : Orchestrator) (env : Env)
  (req : UpgradeRequest) (w : World) (svc : state.Service) (version : string)
  : Prop :=
  state.GetService (fails env U_GetService SqlExec) (up_Name req) (store w) = Ok svc
  /\ upgrade_version o env req svc = Ok version
  /\ version <> state.Version svc
  /\ (exists path, fst (upgrade_fetch o env req svc version w) = Ok path)
  /\ fst (systemd.Stop (fails env U_Stop) (up_Name req) (sd w)) = None
  /\ fst (updateSymlink (fails env U_updateSymlink) (up_Name req) version
            (snd (upgrade_fetch o env req svc version w))) = None.

Definition start_fails (env : Env) (name : string) : Prop :=
  forall s, fst (systemd.Start (fails env U_Start) name s) <> None.

Definition start_succeeds (env : Env) (name : string) : Prop :=
  forall s, fst (systemd.Start (fails env U_Start) name s) = None.

Definition health_check_fails (env : Env) (port : Z) : Prop :=
  health.WaitForPort (fails env U_WaitForPort) port 10 <> None.

(** The calls of the fallback paths of Upgrade do not fail. *)
Definition fallback_succeeds (env : Env) : Prop :=
  forall site f,
    In site [U_start_undo; U_start_Start; U_health_Stop; U_health_undo;
             U_health_Start] ->
    fails env site f = false.

(** The calls Remove issues before it reaches the database. *)
Definition teardown_calls (name : string) (svc : state.Service) : list Event :=
  [Progress ("Stopping gc-" ++ name ++ "..."); CallStop name;
   Progress "Removing systemd unit..."; CallDisable name; CallRemoveUnit name;
   CallDaemonReload; CallRemoveUser name]
  ++ (if negb (String.eqb (state.RouteValue svc) "")
      then [Progress "Removing nginx config..."; CallRemoveConfig name]
      else [])
  ++ [Progress "Removing env and binaries..."; CallRemoveEnvDir name;
      CallRemoveAllBin name].

Definition teardown_succeeds (env : Env) : Prop :=
  forall site f,
    In site [M_Stop; M_Disable; M_RemoveUnit; M_DaemonReload; M_RemoveUser;
             M_RemoveConfig; M_removeEnvDir; M_RemoveAll] ->
    fails env site f = false.

(** Process, unit, account, route, secrets and binaries of [name] are gone. *)
Definition torn_down (name : string) (svc : state.Service) (w : World) : Prop :=
  (name ∉ systemd.active (sd w)) /\ (name ∉ systemd.enabled (sd w))
  /\ (name ∉ systemd.units (sd w)) /\ (name ∉ systemd.accounts (sd w))
  /\ (state.RouteValue svc <> "" ->
      nginx.sites_available (ngx w) !! name = None
      /\ name ∉ nginx.sites_enabled (ngx w))
  /\ (name ∉ creds.envdirs (etc w)) /\ creds.envfiles (etc w) !! name = None
  /\ (forall version, (name, version) ∉ github.artifacts (bin w))
  /\ github.symlinks (bin w) !! name = None.

(** The constraints of the schema: [name] is the primary key and [port] is
    UNIQUE. *)
Definition store_wf (st : state.Store) : Prop :=
  List.NoDup (List.map state.c_name (state.services st))
  /\ List.NoDup (List.map state.c_port (state.services st)).

(** The version and previous-version fields of the record of [name], as a
    reader of the store sees them. *)
Definition stored_versions (name : string) (w : World) : option (string * string) :=
  match state.select_by_name name (store w) with
  | Some row =>
      Some (state.c_version row,
            state.NString (state.scan_NullString (state.c_prev_version row)))
  | None => None
  end.

(** The [id] column of [history] counts the rows as they were appended. *)
Definition history_wf (st : state.Store) : Prop :=
  forall i row, nth_error (state.history st) i = Some row ->
                state.h_id row = Z.of_nat i + 1.

(** The blob of a mapping can be decoded. *)
Definition decodable {J : JSONCodec} (v : GoMap) : Prop :=
  forall m, v = Some m -> exists m', json_Unmarshal (json_Marshal m) = Ok m'.

(** The record read back for a service written as [svc]: the time stamps
    are kept in whole seconds. *)
Definition same_record (svc svc' : state.Service) : Prop :=
  state.Name svc' = state.Name svc /\ state.Repo svc' = state.Repo svc
  /\ state.Version svc' = state.Version svc
  /\ state.PrevVersion svc' = state.PrevVersion svc
  /\ state.Port svc' = state.Port svc
  /\ state.RouteType svc' = state.RouteType svc
  /\ state.RouteValue svc' = state.RouteValue svc
  /\ state.DBName svc' = state.DBName svc
  /\ state.DBUser svc' = state.DBUser svc
  /\ state.UpdatedAt svc' = time_Unix (unix_sec (state.UpdatedAt svc)) 0.

(** The records are in ascending order of their names. *)
Definition by_name (a b : state.Service) : Prop :=
  String.leb (state.Name a) (state.Name b) = true.

(** Every record of the table has a name. *)
Definition named (st : state.Store) : Prop :=
  forall row, In row (state.services st) -> state.c_name row <> "".

Definition in_range (a : ports.Allocator) (p : Z) : Prop :=
  ports.rangeStart a <= p < ports.rangeEnd a.

(** No configuration and no enabled link exist for [name]. *)
Definition no_route (name : string) (s : nginx.State) : Prop :=
  nginx.sites_available s !! name = None /\ name ∉ nginx.sites_enabled s.

(** The configurations and links of the names other than [name] agree. *)
Definition same_routes_but (name : string) (s s' : nginx.State) : Prop :=
  forall n, n <> name ->
    nginx.sites_available s' !! n = nginx.sites_available s !! n
    /\ (n ∈ nginx.sites_enabled s' <-> n ∈ nginx.sites_enabled s).

(** The removals of RemoveConfig are not refused. *)
Definition removal_succeeds (f : Fault -> bool) : Prop :=
  f NgxRemoveEnabled = false /\ f NgxRemoveSites = false.

(** Characters that would end a quoted SQL identifier or literal, or leave
    the directory of a path. *)
Definition unsafe_chars : list ascii :=
  ["'"; "`"; "/"; "\"; "."; " "; ";"; "010"; "034"]%char.

(** The clean-up statements of CreateDatabase are not refused. *)
Definition cleanup_succeeds (f : Fault -> bool) : Prop :=
  f DbDropAfterUser = false /\ f DbDropUserAfterGrant = false
  /\ f DbDropAfterGrant = false.

(** The owner DownloadAsset asks GitHub about. *)
Definition effective_owner (c : github.Client) (owner : string) : string :=
  if String.eqb owner "" then github.defaultOwner c else owner.

(** The message of the three workflows for a service they cannot read. *)
Definition not_found (name : string) : Err :=
  Errorf "service not found; run 'gophercaptain list' to see deployed services"
    [name].

(** What a successful Deploy has recorded: a new row for a name and a port
    that were free, and at most one new history row (the result of
    AppendHistory is ignored). *)
Definition recorded (name version : string) (port : Z) (st st' : state.Store)
  : Prop :=
  state.select_by_name name st = None /\ ~ assigned st port
  /\ (exists row,
        state.services st' = (state.services st ++ [row])%list
        /\ state.c_name row = name /\ state.c_version row = version
        /\ state.c_port row = port /\ state.c_prev_version row = None)
  /\ (state.history st' = state.history st
      \/ exists h, state.history st' = (state.history st ++ [h])%list
           /\ state.h_service h = name /\ state.h_action h = "deploy"
           /\ state.h_version h = state.to_column (state.nullString version)).

(** The entries of the env file of a deploy: the port, the coordinates of
    the database if one was created, and the extra environment of the
    request, which takes precedence. *)
Definition deploy_envEntries (o : Orchestrator) (req : DeployRequest.t)
  (port : Z) (dbResult : option db.CreateResult) : gmap string string :=
  let envEntries : gmap string string := {[ "PORT" := pretty port ]} in
  let envEntries :=
    match dbResult with
    | Some r =>
        <["DB_PASSWORD" := db.Password r]>
        (<["DB_USER" := db.DBUser r]>
        (<["DB_NAME" := db.DBName r]>
        (<["DB_PORT" := pretty (MariaDB_Port (cfg o))]>
        (<["DB_HOST" := MariaDB_Host (cfg o)]> envEntries))))
    | None => envEntries
    end in
  match DeployRequest.ExtraEnv req with
  | Some extra => extra ∪ envEntries
  | None => envEntries
  end.

(** The database step of a deploy, as the request asks for it. *)
Definition deploy_dbResult (env : Env) (req : DeployRequest.t) (name : string)
  : option db.CreateResult :=
  if DeployRequest.NoDB req then None
  else Some {| db.DBName := "gc_" ++ name; db.DBUser := "gc_" ++ name;
               db.Password := random env |}.

(** The parameters of the route of a deploy. *)
Definition deploy_params (req : DeployRequest.t) (name : string) (port : Z)
  : nginx.RouteParams :=
  {| nginx.Name := name; nginx.RouteType := deploy_routeType req;
     nginx.RouteValue := DeployRequest.Route req; nginx.Port := port |}.

(** What a successful Deploy has installed on the host. *)
Record installed (o : Orchestrator) (env : Env) (req : DeployRequest.t)
  (name version : string) (port : Z) (w w' : World) (res : DeployResult.t)
  : Prop := {
  i_artifact : (name, version) ∈ github.artifacts (bin w');
  i_symlink : github.symlinks (bin w') !! name = Some version;
  i_envdir : name ∈ creds.envdirs (etc w');
  i_envfile :
    creds.envfiles (etc w') !! name
    = Some (if DeployRequest.ConfigFile req then creds.TOML else creds.EnvLines,
            deploy_envEntries o req port (deploy_dbResult env req name));
  i_unit : name ∈ systemd.units (sd w');
  i_enabled : name ∈ systemd.enabled (sd w');
  i_active : name ∈ systemd.active (sd w');
  i_database :
    if DeployRequest.NoDB req then maria w' = maria w
    else ("gc_" ++ name ∉ db.databases (maria w))
         /\ "gc_" ++ name ∈ db.databases (maria w')
         /\ "gc_" ++ name ∈ db.users (maria w')
         /\ DeployResult.DBName res = "gc_" ++ name;
  i_route :
    if String.eqb (DeployRequest.Route req) "" then
      ngx w' = ngx w /\ DeployResult.NginxSkip res = true
      /\ DeployResult.NginxWarn res = ""
    else
      ngx w' = snd (nginx.WriteConfig (fails env D_WriteConfig)
                      (deploy_params req name port) (ngx w))
      /\ (DeployResult.NginxSkip res = false ->
          DeployResult.Route res = DeployRequest.Route req
          /\ DeployResult.RouteType res = deploy_routeType req
          /\ exists content,
               nginx.RenderConfig (deploy_params req name port) = Ok content
               /\ nginx.sites_available (ngx w') !! name = Some content
               /\ name ∈ nginx.sites_enabled (ngx w'))
}.

(** The contract of [rand.Int(rand.Reader, max)]: a number from 0 up to,
    and not including, [max]. *)
Definition below (max : Z) (draw : nat -> Res Z) : Prop :=
  forall i n, draw i = Ok n -> 0 <= n < max.

(** The byte [c] does not occur in [s]. *)
Definition without (c : ascii) (s : string) : Prop :=
  ~ In c (list_ascii_of_string s).

(** The entries can be written one per line: no key holds an equals sign or
    a line feed, no value holds a line feed. *)
Definition line_safe (content : creds.EnvFileContent) : Prop :=
  forall k v, creds.Entries content !! k = Some v ->
    without "=" k /\ without gotext.newline k /\ without gotext.newline v.

(** What [inspect] shows for an entry. *)
Definition shown (content : creds.EnvFileContent) (k : string) : string :=
  if commands.credentialKeys_MatchString k then
    k ++ "=****" ++ String gotext.newline EmptyString
  else envfile.line content k ++ String gotext.newline EmptyString.

Create Rewrite HintDb world.

(** * Proofs *)

Section Facts.
Context {J : JSONCodec}.

(** Projections of the host after one manager call. *)
Lemma on_store_store {A} ev (op : state.Store -> A * state.Store) w :
  store (snd (on_store ev op w)) = snd (op (store w)).
Proof. reflexivity. Qed.

Lemma on_store_bin {A} ev (op : state.Store -> A * state.Store) w :
  bin (snd (on_store ev op w)) = bin w.
Proof. reflexivity. Qed.

Lemma on_store_etc {A} ev (op : state.Store -> A * state.Store) w :
  etc (snd (on_store ev op w)) = etc w.
Proof. reflexivity. Qed.

Lemma on_store_sd {A} ev (op : state.Store -> A * state.Store) w :
  sd (snd (on_store ev op w)) = sd w.
Proof. reflexivity. Qed.

Lemma on_store_ngx {A} ev (op : state.Store -> A * state.Store) w :
  ngx (snd (on_store ev op w)) = ngx w.
Proof. reflexivity. Qed.

Lemma on_store_maria {A} ev (op : state.Store -> A * state.Store) w :
  maria (snd (on_store ev op w)) = maria w.
Proof. reflexivity. Qed.

Lemma on_store_trace {A} ev (op : state.Store -> A * state.Store) w :
  trace (snd (on_store ev op w)) = (trace w ++ [ev])%list.
Proof. reflexivity. Qed.

Lemma on_store_fst {A} ev (op : state.Store -> A * state.Store) w :
  fst (on_store ev op w) = fst (op (store w)).
Proof. reflexivity. Qed.

Lemma on_bin_store {A} ev (op : github.State -> A * github.State) w :
  store (snd (on_bin ev op w)) = store w.
Proof. reflexivity. Qed.

Lemma on_bin_bin {A} ev (op : github.State -> A * github.State) w :
  bin (snd (on_bin ev op w)) = snd (op (bin w)).
Proof. reflexivity. Qed.

Lemma on_bin_etc {A} ev (op : github.State -> A * github.State) w :
  etc (snd (on_bin ev op w)) = etc w.
Proof. reflexivity. Qed.

Lemma on_bin_sd {A} ev (op : github.State -> A * github.State) w :
  sd (snd (on_bin ev op w)) = sd w.
Proof. reflexivity. Qed.

Lemma on_bin_ngx {A} ev (op : github.State -> A * github.State) w :
  ngx (snd (on_bin ev op w)) = ngx w.
Proof. reflexivity. Qed.

Lemma on_bin_maria {A} ev (op : github.State -> A * github.State) w :
  maria (snd (on_bin ev op w)) = maria w.
Proof. reflexivity. Qed.

Lemma on_bin_trace {A} ev (op : github.State -> A * github.State) w :
  trace (snd (on_bin ev op w)) = (trace w ++ [ev])%list.
Proof. reflexivity. Qed.

Lemma on_bin_fst {A} ev (op : github.State -> A * github.State) w :
  fst (on_bin ev op w) = fst (op (bin w)).
Proof. reflexivity. Qed.

Lemma on_etc_store {A} ev (op : creds.State -> A * creds.State) w :
  store (snd (on_etc ev op w)) = store w.
Proof. reflexivity. Qed.

Lemma on_etc_bin {A} ev (op : creds.State -> A * creds.State) w :
  bin (snd (on_etc ev op w)) = bin w.
Proof. reflexivity. Qed.

Lemma on_etc_etc {A} ev (op : creds.State -> A * creds.State) w :
  etc (snd (on_etc ev op w)) = snd (op (etc w)).
Proof. reflexivity. Qed.

Lemma on_etc_sd {A} ev (op : creds.State -> A * creds.State) w :
  sd (snd (on_etc ev op w)) = sd w.
Proof. reflexivity. Qed.

Lemma on_etc_ngx {A} ev (op : creds.State -> A * creds.State) w :
  ngx (snd (on_etc ev op w)) = ngx w.
Proof. reflexivity. Qed.

Lemma on_etc_maria {A} ev (op : creds.State -> A * creds.State) w :
  maria (snd (on_etc ev op w)) = maria w.
Proof. reflexivity. Qed.

Lemma on_etc_trace {A} ev (op : creds.State -> A * creds.State) w :
  trace (snd (on_etc ev op w)) = (trace w ++ [ev])%list.
Proof. reflexivity. Qed.

Lemma on_etc_fst {A} ev (op : creds.State -> A * creds.State) w :
  fst (on_etc ev op w) = fst (op (etc w)).
Proof. reflexivity. Qed.

Lemma on_sd_store {A} ev (op : systemd.State -> A * systemd.State) w :
  store (snd (on_sd ev op w)) = store w.
Proof. reflexivity. Qed.

Lemma on_sd_bin {A} ev (op : systemd.State -> A * systemd.State) w :
  bin (snd (on_sd ev op w)) = bin w.
Proof. reflexivity. Qed.

Lemma on_sd_etc {A} ev (op : systemd.State -> A * systemd.State) w :
  etc (snd (on_sd ev op w)) = etc w.
Proof. reflexivity. Qed.

Lemma on_sd_sd {A} ev (op : systemd.State -> A * systemd.State) w :
  sd (snd (on_sd ev op w)) = snd (op (sd w)).
Proof. reflexivity. Qed.

Lemma on_sd_ngx {A} ev (op : systemd.State -> A * systemd.State) w :
  ngx (snd (on_sd ev op w)) = ngx w.
Proof. reflexivity. Qed.

Lemma on_sd_maria {A} ev (op : systemd.State -> A * systemd.State) w :
  maria (snd (on_sd ev op w)) = maria w.
Proof. reflexivity. Qed.

Lemma on_sd_trace {A} ev (op : systemd.State -> A * systemd.State) w :
  trace (snd (on_sd ev op w)) = (trace w ++ [ev])%list.
Proof. reflexivity. Qed.

Lemma on_sd_fst {A} ev (op : systemd.State -> A * systemd.State) w :
  fst (on_sd ev op w) = fst (op (sd w)).
Proof. reflexivity. Qed.

Lemma on_ngx_store {A} ev (op : nginx.State -> A * nginx.State) w :
  store (snd (on_ngx ev op w)) = store w.
Proof. reflexivity. Qed.

Lemma on_ngx_bin {A} ev (op : nginx.State -> A * nginx.State) w :
  bin (snd (on_ngx ev op w)) = bin w.
Proof. reflexivity. Qed.

Lemma on_ngx_etc {A} ev (op : nginx.State -> A * nginx.State) w :
  etc (snd (on_ngx ev op w)) = etc w.
Proof. reflexivity. Qed.

Lemma on_ngx_sd {A} ev (op : nginx.State -> A * nginx.State) w :
  sd (snd (on_ngx ev op w)) = sd w.
Proof. reflexivity. Qed.

Lemma on_ngx_ngx {A} ev (op : nginx.State -> A * nginx.State) w :
  ngx (snd (on_ngx ev op w)) = snd (op (ngx w)).
Proof. reflexivity. Qed.

Lemma on_ngx_maria {A} ev (op : nginx.State -> A * nginx.State) w :
  maria (snd (on_ngx ev op w)) = maria w.
Proof. reflexivity. Qed.

Lemma on_ngx_trace {A} ev (op : nginx.State -> A * nginx.State) w :
  trace (snd (on_ngx ev op w)) = (trace w ++ [ev])%list.
Proof. reflexivity. Qed.

Lemma on_ngx_fst {A} ev (op : nginx.State -> A * nginx.State) w :
  fst (on_ngx ev op w) = fst (op (ngx w)).
Proof. reflexivity. Qed.

Lemma on_maria_store {A} ev (op : db.State -> A * db.State) w :
  store (snd (on_maria ev op w)) = store w.
Proof. reflexivity. Qed.

Lemma on_maria_bin {A} ev (op : db.State -> A * db.State) w :
  bin (snd (on_maria ev op w)) = bin w.
Proof. reflexivity. Qed.

Lemma on_maria_etc {A} ev (op : db.State -> A * db.State) w :
  etc (snd (on_maria ev op w)) = etc w.
Proof. reflexivity. Qed.

Lemma on_maria_sd {A} ev (op : db.State -> A * db.State) w :
  sd (snd (on_maria ev op w)) = sd w.
Proof. reflexivity. Qed.

Lemma on_maria_ngx {A} ev (op : db.State -> A * db.State) w :
  ngx (snd (on_maria ev op w)) = ngx w.
Proof. reflexivity. Qed.

Lemma on_maria_maria {A} ev (op : db.State -> A * db.State) w :
  maria (snd (on_maria ev op w)) = snd (op (maria w)).
Proof. reflexivity. Qed.

Lemma on_maria_trace {A} ev (op : db.State -> A * db.State) w :
  trace (snd (on_maria ev op w)) = (trace w ++ [ev])%list.
Proof. reflexivity. Qed.

Lemma on_maria_fst {A} ev (op : db.State -> A * db.State) w :
  fst (on_maria ev op w) = fst (op (maria w)).
Proof. reflexivity. Qed.

Lemma log_store ev w : store (log ev w) = store w.
Proof. reflexivity. Qed.

Lemma log_bin ev w : bin (log ev w) = bin w.
Proof. reflexivity. Qed.

Lemma log_etc ev w : etc (log ev w) = etc w.
Proof. reflexivity. Qed.

Lemma log_sd ev w : sd (log ev w) = sd w.
Proof. reflexivity. Qed.

Lemma log_ngx ev w : ngx (log ev w) = ngx w.
Proof. reflexivity. Qed.

Lemma log_maria ev w : maria (log ev w) = maria w.
Proof. reflexivity. Qed.

Lemma log_trace ev w : trace (log ev w) = (trace w ++ [ev])%list.
Proof. reflexivity. Qed.

#[local] Hint Rewrite @on_store_store @on_store_bin @on_store_etc
  @on_store_sd @on_store_ngx @on_store_maria @on_store_trace @on_store_fst
  @on_bin_store @on_bin_bin @on_bin_etc @on_bin_sd @on_bin_ngx @on_bin_maria
  @on_bin_trace @on_bin_fst @on_etc_store @on_etc_bin @on_etc_etc @on_etc_sd
  @on_etc_ngx @on_etc_maria @on_etc_trace @on_etc_fst @on_sd_store @on_sd_bin
  @on_sd_etc @on_sd_sd @on_sd_ngx @on_sd_maria @on_sd_trace @on_sd_fst
  @on_ngx_store @on_ngx_bin @on_ngx_etc @on_ngx_sd @on_ngx_ngx @on_ngx_maria
  @on_ngx_trace @on_ngx_fst @on_maria_store @on_maria_bin @on_maria_etc
  @on_maria_sd @on_maria_ngx @on_maria_maria @on_maria_trace @on_maria_fst
  @log_store @log_bin @log_etc @log_sd @log_ngx @log_maria @log_trace : world.

Lemma HasPrefix_slash_spec value :
  nginx.HasPrefix_slash value = true <-> exists rest, value = String "/" rest.
Proof.
  destruct value as [|c rest]; simpl.
  - split; [discriminate | intros [r Hr]; discriminate].
  - rewrite Ascii.eqb_eq. split.
    + intros ->. eauto.
    + intros [r Hr]. congruence.
Qed.

(** C10.  [InferRouteType] on every route value: a value that starts with a
    slash is a "path", whether or not it contains a dot; a value that does
    not start with a slash is a "subdomain" when it contains a dot, and is
    a "subdomain" as well when it contains none (the default, not an
    error). *)
Theorem InferRouteType_classifies (value : string) :
  ((exists rest, value = String "/" rest) -> nginx.InferRouteType value = "path")
  /\ (~ (exists rest, value = String "/" rest) ->
      nginx.Contains_dot value = true ->
      nginx.InferRouteType value = "subdomain")
  /\ (~ (exists rest, value = String "/" rest) ->
      nginx.Contains_dot value = false ->
      nginx.InferRouteType value = "subdomain").
Proof.
  unfold nginx.InferRouteType.
  destruct (nginx.HasPrefix_slash value) eqn:Hp.
  - apply HasPrefix_slash_spec in Hp. repeat split; intros; tauto.
  - assert (Hn : ~ exists rest, value = String "/" rest).
    { intros H. apply HasPrefix_slash_spec in H. congruence. }
    repeat split; intros; try tauto.
    + rewrite H0. reflexivity.
    + rewrite H0. reflexivity.
Qed.

Lemma usedSet_get_fold (used : list Z) (acc : gmap Z bool) (p : Z) :
  ports.usedSet_get (fold_left (fun s q => <[q := true]> s) used acc) p = true
  <-> In p used \/ ports.usedSet_get acc p = true.
Proof.
  revert acc. induction used as [|q used IH]; intros acc; simpl.
  - tauto.
  - rewrite IH. unfold ports.usedSet_get.
    destruct (decide (q = p)) as [->|Hne].
    + rewrite lookup_insert_eq. simpl. tauto.
    + rewrite lookup_insert_ne by done. intuition congruence.
Qed.

Lemma usedSet_get_make (used : list Z) (p : Z) :
  ports.usedSet_get (ports.make_usedSet used) p = true <-> In p used.
Proof.
  unfold ports.make_usedSet. rewrite usedSet_get_fold.
  unfold ports.usedSet_get. rewrite lookup_empty. simpl. split; [|tauto].
  intros [?|?]; [done|discriminate].
Qed.

Lemma scan_spec (usedSet : gmap Z bool) (n : nat) (p0 : Z) :
  match ports.scan usedSet n p0 with
  | Some p =>
      p0 <= p < p0 + Z.of_nat n /\ ports.usedSet_get usedSet p = false
      /\ forall q, p0 <= q < p -> ports.usedSet_get usedSet q = true
  | None => forall q, p0 <= q < p0 + Z.of_nat n -> ports.usedSet_get usedSet q = true
  end.
Proof.
  revert p0. induction n as [|n IH]; intros p0; simpl.
  - intros q Hq. lia.
  - destruct (ports.usedSet_get usedSet p0) eqn:Hu; simpl.
    + specialize (IH (p0 + 1)). destruct (ports.scan usedSet n (p0 + 1)) as [p|].
      * destruct IH as (Hr & Hf & Hl). split; [lia|]. split; [done|].
        intros q Hq. destruct (decide (q = p0)) as [->|]; [done|]. apply Hl. lia.
      * intros q Hq. destruct (decide (q = p0)) as [->|]; [done|]. apply IH. lia.
    + split; [lia|]. split; [done|]. intros q Hq. lia.
Qed.

Lemma UsedPorts_assigned st p used :
  state.UsedPorts false st = Ok used -> (In p used <-> assigned st p).
Proof.
  unfold state.UsedPorts, assigned. intros [= <-].
  split; apply Permutation_in; [|symmetry]; apply merge_sort_Permutation.
Qed.

Lemma scan_ext (s1 s2 : gmap Z bool) n p0 :
  (forall p, ports.usedSet_get s1 p = ports.usedSet_get s2 p) ->
  ports.scan s1 n p0 = ports.scan s2 n p0.
Proof.
  intros Heq. revert p0. induction n as [|n IH]; intros p0; simpl; [done|].
  rewrite Heq, IH. done.
Qed.

Lemma Next_inv a st p :
  ports.Next a false st = Ok p ->
  ports.scan (ports.make_usedSet (merge_sort Z.le (List.map state.c_port (state.services st))))
    (Z.to_nat (ports.rangeEnd a - ports.rangeStart a)) (ports.rangeStart a) = Some p.
Proof.
  unfold ports.Next; simpl. destruct (ports.scan _ _ _); [congruence|discriminate].
Qed.

Lemma used_assigned st q :
  ports.usedSet_get (ports.make_usedSet (merge_sort Z.le (List.map state.c_port (state.services st)))) q = true
  <-> assigned st q.
Proof.
  rewrite usedSet_get_make. apply UsedPorts_assigned. reflexivity.
Qed.

Lemma Next_spec (a : ports.Allocator) (st : state.Store) :
  (forall p, ports.Next a false st = Ok p ->
     ports.rangeStart a <= p < ports.rangeEnd a /\ ~ assigned st p
     /\ forall q, ports.rangeStart a <= q < p -> assigned st q)
  /\ (forall q, ports.rangeStart a <= q < ports.rangeEnd a -> ~ assigned st q ->
      exists p, ports.Next a false st = Ok p)
  /\ (forall st', (forall p, assigned st' p <-> assigned st p) ->
      ports.Next a false st' = ports.Next a false st).
Proof.
  split; [|split].
  - intros p Hp. apply Next_inv in Hp.
    pose proof (scan_spec (ports.make_usedSet (merge_sort Z.le (List.map state.c_port (state.services st))))
                  (Z.to_nat (ports.rangeEnd a - ports.rangeStart a)) (ports.rangeStart a)) as Hs.
    rewrite Hp in Hs. destruct Hs as (Hr & Hf & Hl).
    split; [lia|]. split.
    + rewrite <- used_assigned. congruence.
    + intros q Hq. apply used_assigned. auto.
  - intros q Hq Hfree. unfold ports.Next; simpl.
    pose proof (scan_spec (ports.make_usedSet (merge_sort Z.le (List.map state.c_port (state.services st))))
                  (Z.to_nat (ports.rangeEnd a - ports.rangeStart a)) (ports.rangeStart a)) as Hs.
    destruct (ports.scan _ _ _) as [p|]; [eauto|].
    exfalso. apply Hfree. apply used_assigned. apply Hs. lia.
  - intros st' Heq. unfold ports.Next; simpl.
    rewrite (scan_ext (ports.make_usedSet (merge_sort Z.le (List.map state.c_port (state.services st'))))
               (ports.make_usedSet (merge_sort Z.le (List.map state.c_port (state.services st))))); [reflexivity|].
    intros p.
    destruct (ports.usedSet_get (ports.make_usedSet (merge_sort Z.le (List.map state.c_port (state.services st)))) p) eqn:E.
    + apply used_assigned. apply Heq. apply used_assigned. done.
    + apply not_true_is_false. intros E'.
      apply used_assigned in E'. apply Heq in E'. apply used_assigned in E'. congruence.
Qed.

(* manager facts *)
Lemma Start_ok f name s :
  fst (systemd.Start f name s) = None -> name ∈ systemd.active (snd (systemd.Start f name s)).
Proof.
  unfold systemd.Start. repeat case_match; simpl; try discriminate. intros _. set_solver.
Qed.

Lemma CreateDatabase_ok f random name s r :
  fst (db.CreateDatabase f random name s) = Ok r ->
  db.DBName r = "gc_" ++ name /\ db.DBUser r = "gc_" ++ name
  /\ "gc_" ++ name ∈ db.databases (snd (db.CreateDatabase f random name s))
  /\ "gc_" ++ name ∈ db.users (snd (db.CreateDatabase f random name s)).
Proof.
  unfold db.CreateDatabase. repeat case_match; simpl; try discriminate.
  intros [= <-]. simpl. set_solver.
Qed.

Lemma RenderConfig_error params e :
  nginx.RenderConfig params = Fail e -> Error e <> "".
Proof.
  unfold nginx.RenderConfig. repeat case_match; try discriminate.
  intros [= <-]. simpl. discriminate.
Qed.

Lemma WriteConfig_warning f params s e :
  fst (nginx.WriteConfig f params s) = Some e -> Error e <> "".
Proof.
  unfold nginx.WriteConfig.
  destruct (nginx.RenderConfig params) as [content|e0] eqn:HR.
  - repeat case_match; simpl; try discriminate; intros [= <-]; simpl; discriminate.
  - simpl. intros [= <-]. eapply RenderConfig_error; eauto.
Qed.

Lemma journal_below_weaken k k' j : (k <= k')%nat -> journal_below k j -> journal_below k' j.
Proof.
  intros Hk (Hn & Hb & Hf). repeat split; auto.
  eapply Forall_impl; [exact Hf|]. simpl. intros; lia.
Qed.

Lemma journal_below_snoc k j s :
  journal_below k j -> (k <= rank s)%nat -> journal_below (S (rank s)) (j ++ [s]).
Proof.
  intros (Hn & Hb & Hf) Hk. repeat split.
  - apply NoDup_app. split; [done|]. split; [|apply NoDup_singleton].
    intros x Hx Hs. apply list_elem_of_singleton in Hs. subst x.
    rewrite Forall_forall in Hf. apply Hf in Hx. lia.
  - apply in_or_app. auto.
  - apply Forall_app. split.
    + eapply Forall_impl; [exact Hf|]. simpl. intros; lia.
    + constructor; [lia|constructor].
Qed.

Lemma InsertService_cases io svc st :
  (exists e, state.InsertService io svc st = (Some e, st))
  \/ (exists row, state.InsertService io svc st
                  = (None, {| state.services := (state.services st ++ [row])%list;
                              state.history := state.history st |})
        /\ state.c_name row = state.Name svc
        /\ state.c_version row = state.Version svc
        /\ state.c_port row = state.Port svc
        /\ state.c_route_type row = state.RouteType svc
        /\ state.c_route_value row = state.RouteValue svc).
Proof.
  unfold state.InsertService.
  destruct (state.marshalJSON (state.ExtraEnv svc)) as [extraEnv|e]; [|eauto].
  repeat case_match; simplify_eq;
    try (left; eexists; reflexivity).
  right. eexists. split; [reflexivity|]. simpl. auto.
Qed.

Lemma AppendHistory_services io entry st :
  state.services (snd (state.AppendHistory io entry st)) = state.services st.
Proof.
  unfold state.AppendHistory. repeat case_match; reflexivity.
Qed.

Lemma deploy_record_spec env req name version port routeType dbResult result completed w w0 :
  store w = store w0 ->
  journal_below 5 completed ->
  name ∈ systemd.active (sd w) ->
  DeployResult.Name result = name ->
  DeployResult.Version result = version ->
  DeployResult.Port result = port ->
  (DeployRequest.NoDB req = false ->
     DeployResult.DBName result = "gc_" ++ name
     /\ "gc_" ++ name ∈ db.databases (maria w)
     /\ "gc_" ++ name ∈ db.users (maria w)) ->
  (DeployRequest.Route req <> "" -> DeployResult.NginxSkip result = true ->
     DeployResult.NginxWarn result <> "" /\ DeployResult.Route result = ""
     /\ DeployResult.RouteType result = "") ->
  aborted env name version w0
    (deploy_record env req name version port routeType dbResult result completed w)
  \/ succeeded req name version port routeType w0
    (deploy_record env req name version port routeType dbResult result completed w).
Proof.
  intros Hst Hj Hact Hn Hv Hp Hdb Hwarn. unfold deploy_record.
  cbn [on_store fst snd].
  match goal with |- context [state.InsertService ?io ?svc ?st] =>
    destruct (InsertService_cases io svc st) as [[e He]|(row & He & Hr)] end.
  - left. rewrite He. cbn [fst snd].
    eexists _, _. split; [reflexivity|]. split; [|exact Hj]. simpl. rewrite Hst. reflexivity.
  - right. rewrite He. cbn [fst snd].
    eexists _, _. split; [reflexivity|].
    constructor; auto.
    simpl in Hr. destruct Hr as (? & ? & ? & ? & ?).
    exists row. cbn [store]. rewrite AppendHistory_services. cbn [state.services].
    rewrite <- Hst. repeat split; assumption.
Qed.

Lemma aborted_intro env name version w0 completed err w :
  store w = store w0 -> journal_below 5 completed ->
  aborted env name version w0 (abort env name version completed err w).
Proof.
  intros Hst Hj. exists err, w. cbn [abort fst snd]. auto.
Qed.

Lemma deploy_route_spec env req name version port routeType dbResult completed w w0 :
  store w = store w0 ->
  journal_below 4 completed ->
  name ∈ systemd.active (sd w) ->
  db_ready req name dbResult w ->
  aborted env name version w0
    (deploy_route env req name version port routeType dbResult completed w)
  \/ succeeded req name version port routeType w0
    (deploy_route env req name version port routeType dbResult completed w).
Proof.
  intros Hst Hj Hact Hdb. unfold deploy_route.
  assert (Hdb' : forall w', maria w' = maria w ->
            DeployRequest.NoDB req = false ->
            match dbResult with Some r => db.DBName r | None => "" end = "gc_" ++ name
            /\ "gc_" ++ name ∈ db.databases (maria w')
            /\ "gc_" ++ name ∈ db.users (maria w')).
  { intros w' Hm Hno. destruct (Hdb Hno) as (r & -> & ? & ? & ?). rewrite Hm. auto. }
  destruct (negb (DeployRequest.Route req =? "")%string) eqn:Hroute.
  - cbn [on_ngx fst snd].
    destruct (fst (nginx.WriteConfig (fails env D_WriteConfig) _ (ngx w))) as [err|] eqn:Hw.
    + apply deploy_record_spec; cbn; auto.
      * apply journal_below_weaken with 4%nat; [lia|done].
      * intros _ _. split; [|done]. eapply WriteConfig_warning; eauto.
    + apply deploy_record_spec; cbn; auto.
      * apply (journal_below_snoc 4 completed Nginx); [done|simpl; lia].
      * intros _ [=].
  - apply deploy_record_spec; cbn; auto.
    + apply journal_below_weaken with 4%nat; [lia|done].
    + intros Hne. apply negb_false_iff, String.eqb_eq in Hroute. done.
Qed.

Lemma deploy_unit_spec env req name version port routeType dbResult completed w w0 :
  store w = store w0 ->
  journal_below 3 completed ->
  db_ready req name dbResult w ->
  aborted env name version w0
    (deploy_unit env req name version port routeType dbResult completed w)
  \/ succeeded req name version port routeType w0
    (deploy_unit env req name version port routeType dbResult completed w).
Proof.
  intros Hst Hj Hdb. unfold deploy_unit. cbn [on_sd fst snd].
  assert (Hj5 : journal_below 5 completed)
    by (apply journal_below_weaken with 3%nat; [lia|done]).
  repeat match goal with
  | |- context [match fst ?x with Some _ => _ | None => _ end] =>
      destruct (fst x) eqn:?; [left; apply aborted_intro; [exact Hst|exact Hj5]|]
  end.
  apply deploy_route_spec; cbn [store sd maria]; auto.
  - apply (journal_below_snoc 3 completed Systemd); [done|simpl; lia].
  - apply Start_ok. assumption.
Qed.

Lemma deploy_env_spec o env req name version port routeType dbResult completed w w0 :
  store w = store w0 ->
  journal_below 2 completed ->
  db_ready req name dbResult w ->
  aborted env name version w0
    (deploy_env o env req name version port routeType dbResult completed w)
  \/ succeeded req name version port routeType w0
    (deploy_env o env req name version port routeType dbResult completed w).
Proof.
  intros Hst Hj Hdb. unfold deploy_env. cbn [on_etc fst snd].
  assert (Hj5 : journal_below 5 completed)
    by (apply journal_below_weaken with 2%nat; [lia|done]).
  repeat match goal with
  | |- context [match fst ?x with Some _ => _ | None => _ end] =>
      destruct (fst x) eqn:?; [left; apply aborted_intro; [exact Hst|exact Hj5]|]
  end.
  apply deploy_unit_spec; cbn [store sd maria]; auto.
  apply (journal_below_snoc 2 completed Envfile); [done|simpl; lia].
Qed.

Lemma deploy_database_spec o env req name version port routeType w w0 :
  store w = store w0 ->
  aborted env name version w0
    (deploy_database o env req name version port routeType [Binary] w)
  \/ succeeded req name version port routeType w0
    (deploy_database o env req name version port routeType [Binary] w).
Proof.
  intros Hst. unfold deploy_database. cbn [on_maria fst snd].
  assert (Hj : journal_below 1 [Binary]).
  { repeat split; [apply NoDup_singleton|simpl; auto|repeat constructor]. }
  destruct (negb (DeployRequest.NoDB req)) eqn:Hno.
  - destruct (fst (db.CreateDatabase _ _ _ _)) as [r|e] eqn:Hc.
    + apply deploy_env_spec; cbn [store maria]; auto.
      * apply (journal_below_snoc 1 [Binary] Database); [done|simpl; lia].
      * intros _. apply CreateDatabase_ok in Hc. exists r. tauto.
    + left. apply aborted_intro; [exact Hst|].
      apply journal_below_weaken with 1%nat; [lia|done].
  - apply deploy_env_spec; auto.
    + apply journal_below_weaken with 1%nat; [lia|done].
    + intros Hf. rewrite Hf in Hno. discriminate.
Qed.

Lemma DeployRun_spec o env req w :
  (exists e w', DeployRun o env req w = (Fail e, [], w') /\ store w' = store w)
  \/ (db.validName (deploy_name req) = true
      /\ exists version port,
           deploy_version o env req = Ok version
           /\ deploy_port o env req w = Ok port
           /\ (aborted env (deploy_name req) version w (DeployRun o env req w)
               \/ succeeded req (deploy_name req) version port
                    (deploy_routeType req) w (DeployRun o env req w))).
Proof.
  unfold DeployRun.
  destruct (db.ValidateServiceName (deploy_name req)) as [e|] eqn:Hv; [left; eauto|].
  destruct (state.GetService _ _ _) as [svc|e0]; [left; eauto|].
  fold (deploy_version o env req).
  destruct (deploy_version o env req) as [version|e1] eqn:Hver; [|left; eauto].
  fold (deploy_port o env req w).
  destruct (deploy_port o env req w) as [port|e2] eqn:Hport; [|left; eauto].
  fold (deploy_routeType req).
  cbn [on_bin fst snd].
  destruct (fst (github.DownloadAsset _ _ _ _ _ _ _ _)) as [path|e3] eqn:Hd.
  - right. split.
    { unfold db.ValidateServiceName in Hv.
      destruct (db.validName (deploy_name req)); [done|discriminate]. }
    exists version, port. split; [done|]. split; [done|].
    apply deploy_database_spec. reflexivity.
  - left. eexists _, _. split; [reflexivity|]. reflexivity.
Qed.

Lemma bin_shrinks_refl b : bin_shrinks b b.
Proof. split; auto. Qed.
Lemma maria_shrinks_refl m : maria_shrinks m m.
Proof. split; auto. Qed.
Lemma etc_shrinks_refl e : etc_shrinks e e.
Proof. split; auto. Qed.
Lemma sd_shrinks_refl s : sd_shrinks s s.
Proof. repeat split; auto. Qed.
Lemma ngx_shrinks_refl n : ngx_shrinks n n.
Proof. split; auto. Qed.

#[local] Hint Resolve bin_shrinks_refl maria_shrinks_refl etc_shrinks_refl
  sd_shrinks_refl ngx_shrinks_refl : shrink.

Lemma shrinks_refl w : shrinks w w.
Proof. constructor; auto with shrink. Qed.

Lemma shrinks_trans w1 w2 w3 : shrinks w1 w2 -> shrinks w2 w3 -> shrinks w1 w3.
Proof.
  intros [[] [] [] (?&?&?&?) [] ?] [[] [] [] (?&?&?&?) [] ?].
  constructor; repeat split; try (etrans; eassumption); auto.
Qed.

Lemma undone_shrinks name version s w w' :
  shrinks w' w -> step_undone name version s w -> step_undone name version s w'.
Proof.
  intros [[] [] [] (?&?&?&?) [] ?]. destruct s; simpl; intuition auto.
Qed.

Lemma lookup_delete_None' {V} (m : gmap string V) (k n : string) :
  m !! n = None -> delete k m !! n = None.
Proof. intros H. rewrite lookup_delete_None. auto. Qed.

Lemma on_bin_shrinks {A} ev (op : github.State -> A * github.State) w :
  bin_shrinks (snd (op (bin w))) (bin w) -> shrinks (snd (on_bin ev op w)) w.
Proof. intros H. constructor; cbn; auto with shrink. Qed.

Lemma on_maria_shrinks {A} ev (op : db.State -> A * db.State) w :
  maria_shrinks (snd (op (maria w))) (maria w) -> shrinks (snd (on_maria ev op w)) w.
Proof. intros H. constructor; cbn; auto with shrink. Qed.

Lemma on_etc_shrinks {A} ev (op : creds.State -> A * creds.State) w :
  etc_shrinks (snd (op (etc w))) (etc w) -> shrinks (snd (on_etc ev op w)) w.
Proof. intros H. constructor; cbn; auto with shrink. Qed.

Lemma on_sd_shrinks {A} ev (op : systemd.State -> A * systemd.State) w :
  sd_shrinks (snd (op (sd w))) (sd w) -> shrinks (snd (on_sd ev op w)) w.
Proof. intros H. constructor; cbn; auto with shrink. Qed.

Lemma on_ngx_shrinks {A} ev (op : nginx.State -> A * nginx.State) w :
  ngx_shrinks (snd (op (ngx w))) (ngx w) -> shrinks (snd (on_ngx ev op w)) w.
Proof. intros H. constructor; cbn; auto with shrink. Qed.

Lemma removeBinary_shrinks f name version b :
  bin_shrinks (snd (removeBinary f name version b)) b.
Proof.
  unfold removeBinary, unlink.
  repeat case_if; cbn; (split; [set_solver|]); intros n Hn; cbn;
    try apply lookup_delete_None'; exact Hn.
Qed.

Lemma DropDatabase_shrinks f name m :
  maria_shrinks (snd (db.DropDatabase f name m)) m.
Proof.
  unfold db.DropDatabase, db.drop_user, db.drop_database.
  destruct (db.ValidateServiceName name); [split; done|].
  repeat case_if; cbn; split; set_solver.
Qed.

Lemma removeEnvDir_shrinks f name e :
  etc_shrinks (snd (removeEnvDir f name e)) e.
Proof.
  unfold removeEnvDir.
  case_if; cbn; (split; [set_solver|]); intros n Hn; cbn;
    try apply lookup_delete_None'; exact Hn.
Qed.

Lemma Stop_shrinks f name s : sd_shrinks (snd (systemd.Stop f name s)) s.
Proof. unfold systemd.Stop. case_if; cbn; repeat split; set_solver. Qed.

Lemma Disable_shrinks f name s : sd_shrinks (snd (systemd.Disable f name s)) s.
Proof. unfold systemd.Disable. case_if; cbn; repeat split; set_solver. Qed.

Lemma RemoveUnit_shrinks f name s : sd_shrinks (snd (systemd.RemoveUnit f name s)) s.
Proof. unfold systemd.RemoveUnit. case_if; cbn; repeat split; set_solver. Qed.

Lemma DaemonReload_shrinks f s : sd_shrinks (snd (systemd.DaemonReload f s)) s.
Proof. unfold systemd.DaemonReload. case_if; cbn; repeat split; set_solver. Qed.

Lemma RemoveUser_shrinks f name s : sd_shrinks (snd (systemd.RemoveUser f name s)) s.
Proof.
  unfold systemd.RemoveUser. repeat case_if; cbn; repeat split; set_solver.
Qed.

Lemma RemoveConfig_shrinks f name n :
  ngx_shrinks (snd (nginx.RemoveConfig f name n)) n.
Proof.
  unfold nginx.RemoveConfig, nginx.remove_enabled, nginx.remove_site.
  repeat case_if; cbn; (split; [|set_solver]); intros k Hk; cbn;
    try apply lookup_delete_None'; exact Hk.
Qed.

Lemma compensate_shrinks env name version s w :
  shrinks (snd (compensate env name version s w)) w.
Proof.
  destruct s; unfold compensate.
  - apply on_bin_shrinks, removeBinary_shrinks.
  - apply on_maria_shrinks, DropDatabase_shrinks.
  - apply on_etc_shrinks, removeEnvDir_shrinks.
  - eapply shrinks_trans; [apply on_sd_shrinks, RemoveUser_shrinks|].
    eapply shrinks_trans; [apply on_sd_shrinks, DaemonReload_shrinks|].
    eapply shrinks_trans; [apply on_sd_shrinks, RemoveUnit_shrinks|].
    eapply shrinks_trans; [apply on_sd_shrinks, Disable_shrinks|].
    apply on_sd_shrinks, Stop_shrinks.
  - apply on_ngx_shrinks, RemoveConfig_shrinks.
Qed.

Lemma classic_step_eq (a b : Step) : a = b \/ a <> b.
Proof. destruct a, b; auto; right; discriminate. Qed.

Lemma compensate_undoes env name version s w :
  compensation_succeeds env s -> db.validName name = true ->
  step_undone name version s (snd (compensate env name version s w)).
Proof.
  intros Hq Hv.
  assert (Hf : forall site, In site (step_sites s) -> forall f, fails env site f = false)
    by (intros site Hin f; apply Hq; exact Hin).
  destruct s; unfold compensate; cbn [on_bin on_maria on_etc on_sd on_ngx fst snd];
    cbn [step_sites] in Hf.
  - unfold removeBinary, unlink. rewrite !(Hf RB_removeBinary) by (left; reflexivity). cbn.
    destruct (bool_decide ((name, version) ∈ github.artifacts (bin w))) eqn:Hin;
      cbn; rewrite lookup_delete_eq; (split; [|done]).
    + set_solver.
    + apply bool_decide_eq_false in Hin. exact Hin.
  - unfold db.DropDatabase, db.ValidateServiceName. rewrite Hv. cbn.
    rewrite !(Hf RB_DropDatabase) by (left; reflexivity). cbn. set_solver.
  - unfold removeEnvDir. rewrite !(Hf RB_removeEnvDir) by (left; reflexivity). cbn.
    rewrite lookup_delete_eq. set_solver.
  - unfold systemd.Stop, systemd.Disable, systemd.RemoveUnit, systemd.DaemonReload,
      systemd.RemoveUser.
    rewrite !(Hf RB_Stop), !(Hf RB_Disable), !(Hf RB_RemoveUnit),
      !(Hf RB_DaemonReload), !(Hf RB_RemoveUser) by (simpl; tauto).
    cbn. repeat split; set_solver.
  - unfold nginx.RemoveConfig. rewrite !(Hf RB_RemoveConfig) by (left; reflexivity). cbn.
    rewrite lookup_delete_eq. set_solver.
Qed.

Lemma rollback_loop_shrinks env name version steps errs w :
  shrinks (snd (rollback_loop env name version steps errs w)) w.
Proof.
  revert errs w. induction steps as [|s steps IH]; intros errs w; simpl.
  - apply shrinks_refl.
  - eapply shrinks_trans; [apply IH|apply compensate_shrinks].
Qed.

Lemma rollback_loop_undoes env name version steps errs w s :
  compensation_succeeds env s -> db.validName name = true -> In s steps ->
  step_undone name version s (snd (rollback_loop env name version steps errs w)).
Proof.
  intros Hq Hv. revert errs w. induction steps as [|s' steps IH]; intros errs w Hin.
  - destruct Hin.
  - simpl. destruct (classic_step_eq s' s) as [->|Hne].
    + eapply undone_shrinks; [apply rollback_loop_shrinks|].
      apply compensate_undoes; assumption.
    + destruct Hin as [->|Hin]; [done|]. apply IH; exact Hin.
Qed.

Lemma rollback_undoes env name version completed err w s :
  compensation_succeeds env s -> db.validName name = true -> In s completed ->
  step_undone name version s (snd (rollback env name version completed err w)).
Proof.
  intros Hq Hv Hin. unfold rollback. cbn [snd].
  apply rollback_loop_undoes; auto. apply in_rev in Hin. exact Hin.
Qed.

Lemma rollback_store env name version completed err w :
  store (snd (rollback env name version completed err w)) = store w.
Proof.
  unfold rollback. cbn [snd]. apply sh_store, rollback_loop_shrinks.
Qed.

Lemma compensate_trace env name version s w :
  trace (snd (compensate env name version s w))
  = (trace w ++ compensation_calls name version s)%list.
Proof.
  destruct s; cbn; rewrite <- ?app_assoc; reflexivity.
Qed.

Lemma rollback_loop_trace env name version steps errs w :
  trace (snd (rollback_loop env name version steps errs w))
  = (trace w ++ concat (List.map (compensation_calls name version) steps))%list.
Proof.
  revert errs w. induction steps as [|s steps IH]; intros errs w; simpl.
  - rewrite app_nil_r. reflexivity.
  - rewrite IH, compensate_trace, <- app_assoc. reflexivity.
Qed.

Lemma compensate_same_part env name version s w w' :
  same_part s w w' ->
  fst (compensate env name version s w) = fst (compensate env name version s w').
Proof.
  destruct s; cbn; intros ->; reflexivity.
Qed.

Lemma compensate_other_part env name version s s' w :
  s <> s' -> same_part s' w (snd (compensate env name version s w)).
Proof.
  destruct s, s'; cbn; congruence.
Qed.

Lemma same_part_trans s w1 w2 w3 :
  same_part s w1 w2 -> same_part s w2 w3 -> same_part s w1 w3.
Proof. destruct s; cbn; congruence. Qed.

Lemma rollback_loop_reports env name version steps errs w w0 :
  NoDup steps -> (forall s, In s steps -> same_part s w0 w) ->
  fst (rollback_loop env name version steps errs w)
  = (errs ++ omap (reported env name version w0) steps)%list.
Proof.
  intros Hnd. revert errs w.
  induction Hnd as [|s steps Hnotin Hnd IH]; intros errs w Hpart.
  - simpl. rewrite app_nil_r. reflexivity.
  - cbn [rollback_loop omap list_omap]. rewrite IH.
    + unfold reported at 2.
      rewrite (compensate_same_part env name version s w0 w) by (apply Hpart; left; reflexivity).
      destruct (fst (compensate env name version s w)); [|reflexivity].
      rewrite <- app_assoc. reflexivity.
    + intros s' Hin. eapply same_part_trans; [apply Hpart; right; exact Hin|].
      apply compensate_other_part. intros ->. apply Hnotin. apply list_elem_of_In. exact Hin.
Qed.

Lemma same_part_refl s w : same_part s w w.
Proof. destruct s; reflexivity. Qed.

Lemma rollback_spec env name version completed originalErr w :
  NoDup completed ->
  trace (snd (rollback env name version completed originalErr w))
  = (trace w ++ concat (List.map (compensation_calls name version) (rev completed)))%list
  /\ fst (rollback env name version completed originalErr w)
     = match omap (reported env name version w) (rev completed) with
       | [] => originalErr
       | issues => RollbackIssues originalErr issues
       end.
Proof.
  intros Hnd. unfold rollback. cbn [fst snd]. split.
  - apply rollback_loop_trace.
  - rewrite (rollback_loop_reports env name version (rev completed) [] w w).
    + cbn [app]. destruct (omap _ _); reflexivity.
    + apply NoDup_ListNoDup. apply NoDup_rev. apply NoDup_ListNoDup. exact Hnd.
    + intros. apply same_part_refl.
Qed.

(** C2, as amended.  When Deploy fails after the artifact fetch has
    succeeded, and no operation of the compensations of the journaled steps
    fails, then at the return everything the journaled steps created is gone
    (artifact and symlink; database and principal; secrets directory and
    file; unit, account, enablement and process; route configuration) and the
    store is as it was before the call: no Service record has been added, and
    none exists for the name unless one existed before. *)
Theorem Deploy_failure_undoes_journal o env req w e journal w' :
  DeployRun o env req w = (Fail e, journal, w') ->
  In Binary journal ->
  (forall s, In s journal -> compensation_succeeds env s) ->
  exists version,
    deploy_version o env req = Ok version
    /\ (forall s, In s journal -> step_undone (deploy_name req) version s w')
    /\ store w' = store w
    /\ (state.select_by_name (deploy_name req) (store w) = None ->
        state.select_by_name (deploy_name req) (store w') = None).
Proof.
  intros Hrun Hbin Hq.
  cut (exists version,
          deploy_version o env req = Ok version
          /\ (forall s, In s journal -> step_undone (deploy_name req) version s w')
          /\ store w' = store w).
  { intros (version & Hver & Hund & Hst). exists version.
    repeat split; auto. rewrite Hst. auto. }
  destruct (DeployRun_spec o env req w) as [(e0 & w0 & He & _)|(Hv & version & port & Hver & _ & Hcases)].
  - rewrite He in Hrun. injection Hrun as _ <- _. destruct Hbin.
  - exists version. split; [exact Hver|].
    destruct Hcases as [(orig & w_mid & Hab & Hst & _)|(res & w2 & Hok & _)].
    + rewrite Hrun in Hab. cbn [fst snd] in Hab. unfold abort in Hab.
      injection Hab as _ Hw. split.
      * intros s Hs. rewrite Hw.
        apply (rollback_undoes env (deploy_name req) version journal orig w_mid s); auto.
      * rewrite Hw.
        exact (eq_trans (rollback_store env (deploy_name req) version journal orig w_mid) Hst).
    + rewrite Hrun in Hok. discriminate.
Qed.

(** C7.  When the version resolved for an upgrade is the version already
    installed, Upgrade returns the "already at version" outcome and the host
    is unchanged: no fetch, stop, symlink change or state update is issued,
    and the stored record is untouched. *)
Theorem Upgrade_same_version_no_change o env req w svc version :
  state.GetService (fails env U_GetService SqlExec) (up_Name req) (store w) = Ok svc ->
  upgrade_version o env req svc = Ok version ->
  version = state.Version svc ->
  Upgrade o env req w
  = (Fail (Errorf "service is already at version" [up_Name req; version]), w).
Proof.
  intros Hget Hver Heq. unfold Upgrade. rewrite Hget.
  fold (upgrade_version o env req svc). rewrite Hver.
  rewrite Heq, String.eqb_refl. reflexivity.
Qed.

Lemma Start_result_state f name s s' :
  fst (systemd.Start f name s) = fst (systemd.Start f name s').
Proof. unfold systemd.Start. repeat case_if; reflexivity. Qed.

Lemma updateSymlink_ok f name version b :
  f OsRemoveSymlink = false -> f OsSymlink = false ->
  updateSymlink f name version b
  = (None, {| github.artifacts := github.artifacts b;
              github.symlinks := <[name := version]> (delete name (github.symlinks b)) |}).
Proof.
  intros H1 H2. unfold updateSymlink, unlink. rewrite H1, H2. cbn.
  rewrite lookup_delete_eq. cbn. reflexivity.
Qed.

Lemma Start_ok_active f name s :
  f SdSystemctl = false -> f SdNeverActive = false ->
  name ∈ systemd.active (snd (systemd.Start f name s)).
Proof.
  intros H1 H2. unfold systemd.Start. rewrite H1, H2. cbn. set_solver.
Qed.


Lemma sd_teardown f1 f2 f3 f4 f5 name s :
  (forall x, f1 x = false) -> (forall x, f2 x = false) -> (forall x, f3 x = false) ->
  (forall x, f4 x = false) -> (forall x, f5 x = false) ->
  snd (systemd.RemoveUser f5 name
         (snd (systemd.DaemonReload f4
                 (snd (systemd.RemoveUnit f3 name
                         (snd (systemd.Disable f2 name
                                 (snd (systemd.Stop f1 name s)))))))))
  = {| systemd.units := systemd.units s ∖ {[name]};
       systemd.accounts := systemd.accounts s ∖ {[name]};
       systemd.enabled := systemd.enabled s ∖ {[name]};
       systemd.active := systemd.active s ∖ {[name]} |}.
Proof.
  intros H1 H2 H3 H4 H5.
  unfold systemd.Stop. rewrite H1. cbn [snd].
  unfold systemd.Disable. rewrite H2. cbn [snd].
  unfold systemd.RemoveUnit. rewrite H3. cbn [snd].
  unfold systemd.DaemonReload. rewrite H4. cbn [snd].
  unfold systemd.RemoveUser. rewrite H5. cbn [snd].
  reflexivity.
Qed.

Lemma RemoveConfig_quiet f name n :
  (forall x, f x = false) ->
  snd (nginx.RemoveConfig f name n)
  = {| nginx.sites_available := delete name (nginx.sites_available n);
       nginx.sites_enabled := nginx.sites_enabled n ∖ {[name]} |}.
Proof. intros H. unfold nginx.RemoveConfig. rewrite !H. reflexivity. Qed.

Lemma removeEnvDir_quiet f name e :
  (forall x, f x = false) ->
  snd (removeEnvDir f name e)
  = {| creds.envdirs := creds.envdirs e ∖ {[name]};
       creds.envfiles := delete name (creds.envfiles e) |}.
Proof. intros H. unfold removeEnvDir. rewrite !H. reflexivity. Qed.

Lemma removeBinDir_quiet f name b :
  (forall x, f x = false) ->
  snd (removeBinDir f name b)
  = {| github.artifacts := filter (fun p => p.1 <> name) (github.artifacts b);
       github.symlinks := delete name (github.symlinks b) |}.
Proof. intros H. unfold removeBinDir. rewrite !H. reflexivity. Qed.

(** C5.  In every remove with database destruction requested for a service
    that has a database, if dropping the database and principal fails, Remove
    returns that error and the store is unchanged (the record is retained and
    no history entry is appended), although the teardown of process, unit,
    account, route, secrets and binaries has already been issued; when none
    of those teardown calls failed, all of them are gone. *)
Theorem Remove_keeps_record_when_drop_fails env req w svc err :
  state.GetService (fails env M_GetService SqlExec) (rm_Name req) (store w) = Ok svc ->
  DropDB req = true ->
  state.DBName svc <> "" ->
  fst (db.DropDatabase (fails env M_DropDatabase) (rm_Name req) (maria w)) = Some err ->
  exists w',
    Remove env req w = (Some (Wrapf "dropping database" [] err), w')
    /\ store w' = store w
    /\ trace w' = (trace w ++ teardown_calls (rm_Name req) svc
                     ++ [Progress ("Dropping database " ++ state.DBName svc ++ "...");
                         CallDropDatabase (rm_Name req)])%list
    /\ (teardown_succeeds env -> torn_down (rm_Name req) svc w').
Proof.
  intros Hget Hdrop Hdb Herr. unfold Remove. rewrite Hget. cbv zeta.
  rewrite Hdrop. apply String.eqb_neq in Hdb. rewrite Hdb. cbn [andb negb].
  unfold step, teardown_calls.
  destruct (negb (state.RouteValue svc =? "")%string) eqn:Hroute.
  - autorewrite with world. rewrite Herr.
    eexists. split; [reflexivity|]. split; [autorewrite with world; reflexivity|].
    split.
    { autorewrite with world. cbn [app]. rewrite <- !app_assoc. reflexivity. }
    intros Hq. unfold torn_down. autorewrite with world.
    rewrite sd_teardown by (intros x; apply Hq; simpl; tauto).
    rewrite RemoveConfig_quiet by (intros x; apply Hq; simpl; tauto).
    rewrite removeEnvDir_quiet by (intros x; apply Hq; simpl; tauto).
    rewrite removeBinDir_quiet by (intros x; apply Hq; simpl; tauto).
    cbn. rewrite !lookup_delete_eq.
    repeat split; try set_solver;
      try (intros version Hin; apply elem_of_filter in Hin; cbn in Hin; tauto).
  - autorewrite with world. rewrite Herr.
    eexists. split; [reflexivity|]. split; [autorewrite with world; reflexivity|].
    split.
    { autorewrite with world. cbn [app]. rewrite <- !app_assoc. reflexivity. }
    intros Hq. unfold torn_down. autorewrite with world.
    rewrite sd_teardown by (intros x; apply Hq; simpl; tauto).
    rewrite removeEnvDir_quiet by (intros x; apply Hq; simpl; tauto).
    rewrite removeBinDir_quiet by (intros x; apply Hq; simpl; tauto).
    cbn. rewrite !lookup_delete_eq.
    repeat split; try set_solver;
      try (intros version Hin; apply elem_of_filter in Hin; cbn in Hin; tauto);
      try (apply negb_false_iff, String.eqb_eq in Hroute; congruence).
Qed.

Lemma find_app_new {A} (p : A -> bool) (l : list A) (x : A) :
  List.find p l = None -> p x = true -> List.find p (l ++ [x]) = Some x.
Proof.
  induction l as [|y l IH]; simpl; intros Hn Hx.
  - rewrite Hx. reflexivity.
  - destruct (p y); [discriminate|]. auto.
Qed.

Lemma InsertService_ok io svc st st' :
  state.InsertService io svc st = (None, st') ->
  exists extraEnv,
    state.marshalJSON (state.ExtraEnv svc) = Ok extraEnv
    /\ state.select_by_name (state.Name svc) st'
       = Some (state.row_of svc extraEnv (unix_sec (state.DeployedAt svc))).
Proof.
  unfold state.InsertService.
  destruct (state.marshalJSON (state.ExtraEnv svc)) as [extraEnv|e]; [|discriminate].
  destruct io; [discriminate|].
  destruct (bool_decide (is_Some (state.select_by_name (state.Name svc) st))) eqn:Hn;
    [discriminate|].
  destruct (bool_decide (is_Some (state.select_by_port (state.Port svc) st)));
    [discriminate|].
  intros [= <-]. exists extraEnv. split; [reflexivity|].
  apply bool_decide_eq_false in Hn. unfold state.select_by_name in *. cbn.
  apply find_app_new.
  - destruct (List.find _ _); [exfalso; apply Hn; eauto|reflexivity].
  - cbn. apply String.eqb_refl.
Qed.


Lemma find_some_name name rows row :
  List.find (fun r => String.eqb (state.c_name r) name) rows = Some row ->
  In row rows /\ state.c_name row = name.
Proof.
  intros H. apply List.find_some in H as [Hin Heq].
  apply String.eqb_eq in Heq. auto.
Qed.

Lemma NoDup_map_inj {A B} (f : A -> B) (l : list A) x y :
  List.NoDup (List.map f l) -> In x l -> In y l -> f x = f y -> x = y.
Proof.
  induction l as [|a l IH]; simpl; [tauto|].
  intros Hnd Hx Hy Hf. inversion Hnd as [|? ? Hnotin Hnd']; subst.
  destruct Hx as [->|Hx], Hy as [->|Hy]; auto.
  - exfalso. apply Hnotin. rewrite Hf. apply in_map. exact Hy.
  - exfalso. apply Hnotin. rewrite <- Hf. apply in_map. exact Hx.
Qed.

Lemma GetService_inv io name st svc :
  state.GetService io name st = Ok svc ->
  exists row, state.select_by_name name st = Some row
    /\ state.Name svc = state.c_name row
    /\ state.Version svc = state.c_version row
    /\ state.PrevVersion svc
       = state.NString (state.scan_NullString (state.c_prev_version row))
    /\ state.Port svc = state.c_port row.
Proof.
  unfold state.GetService. destruct io; [discriminate|].
  destruct (state.select_by_name name st) as [row|]; [|discriminate].
  unfold state.scanService.
  destruct (_ && _); [destruct (json_Unmarshal _); [|discriminate]|];
    intros [= <-]; exists row; cbn; auto.
Qed.

Lemma update_rows_find svc extraEnv rows row name :
  state.Name svc = name ->
  List.find (fun r => String.eqb (state.c_name r) name) rows = Some row ->
  List.find (fun r => String.eqb (state.c_name r) name)
    (state.update_rows svc extraEnv rows)
  = Some (state.row_of svc extraEnv (state.c_deployed_at row)).
Proof.
  intros <-.
  induction rows as [|r rows IH]; simpl; [discriminate|].
  destruct (String.eqb (state.c_name r) (state.Name svc)) eqn:E.
  - intros [= ->]. cbn. rewrite String.eqb_refl. reflexivity.
  - intros H. rewrite E. auto.
Qed.

Lemma update_rows_names svc extraEnv rows :
  List.map state.c_name (state.update_rows svc extraEnv rows)
  = List.map state.c_name rows.
Proof.
  unfold state.update_rows. rewrite List.map_map. apply List.map_ext.
  intros r. destruct (String.eqb (state.c_name r) (state.Name svc)) eqn:E; [|reflexivity].
  cbn. apply String.eqb_eq in E. congruence.
Qed.

Lemma update_rows_ports svc extraEnv rows row :
  List.NoDup (List.map state.c_name rows) ->
  In row rows -> state.c_name row = state.Name svc ->
  state.c_port row = state.Port svc ->
  List.map state.c_port (state.update_rows svc extraEnv rows)
  = List.map state.c_port rows.
Proof.
  intros Hnd Hin Hname Hport.
  unfold state.update_rows. rewrite List.map_map. apply List.map_ext_in.
  intros r Hr. destruct (String.eqb (state.c_name r) (state.Name svc)) eqn:E; [|reflexivity].
  cbn. apply String.eqb_eq in E.
  assert (r = row) by (eapply (NoDup_map_inj state.c_name); eauto; congruence).
  subst r. congruence.
Qed.

Lemma port_not_taken svc st row :
  List.NoDup (List.map state.c_port (state.services st)) ->
  In row (state.services st) -> state.c_name row = state.Name svc ->
  state.c_port row = state.Port svc ->
  state.port_taken_by_other svc st = false.
Proof.
  intros Hnd Hin Hname Hport. unfold state.port_taken_by_other.
  apply not_true_is_false. intros Hex.
  apply List.existsb_exists in Hex as (r & Hr & Hc).
  apply andb_true_iff in Hc as [Hp Hn].
  apply Z.eqb_eq in Hp. apply negb_true_iff, String.eqb_neq in Hn.
  assert (r = row) by (eapply (NoDup_map_inj state.c_port); eauto; congruence).
  subst r. congruence.
Qed.

Lemma AppendHistory_services' io entry st :
  state.services (snd (state.AppendHistory io entry st)) = state.services st.
Proof.
  unfold state.AppendHistory.
  destruct (state.marshalJSON (state.Detail entry)); [|reflexivity].
  destruct io; reflexivity.
Qed.

Lemma marshalJSON_ok v : exists ns, state.marshalJSON v = Ok ns.
Proof.
  unfold state.marshalJSON. destruct (len v =? 0); [eauto|].
  destruct v; eauto.
Qed.

Lemma Rollback_swaps env name w r w' v p :
  store_wf (store w) ->
  stored_versions name w = Some (v, p) -> p <> "" ->
  Rollback env name w = (Ok r, w') ->
  fails env R_UpdateService SqlExec = false ->
  r = p /\ stored_versions name w' = Some (p, v) /\ store_wf (store w').
Proof.
  intros [Hnames Hports] Hsv Hp Hrun Hupd. unfold Rollback in Hrun.
  destruct (state.GetService _ name (store w)) as [svc|] eqn:Hget; [|discriminate].
  apply GetService_inv in Hget as (row & Hsel & Hn & Hver & Hprev & Hport).
  unfold stored_versions in Hsv. rewrite Hsel in Hsv. injection Hsv as Hv1 Hp1.
  rewrite Hp1 in Hprev. rewrite Hv1 in Hver.
  apply find_some_name in Hsel as Hrow. destruct Hrow as [Hin Hrn].
  apply String.eqb_neq in Hp. rewrite Hprev, Hp in Hrun. cbv zeta in Hrun.
  autorewrite with world in Hrun.
  destruct (fst (systemd.Stop _ _ _)); [discriminate|].
  destruct (fst (updateSymlink _ _ _ _)); [discriminate|].
  destruct (fst (systemd.Start _ _ _)); [discriminate|].
  injection Hrun as <- <-. split; [reflexivity|].
  unfold stored_versions. autorewrite with world.
  unfold state.select_by_name, store_wf. cbn [store].
  rewrite !AppendHistory_services'.
  unfold state.UpdateService.
  destruct (marshalJSON_ok (state.ExtraEnv svc)) as [ns Hns].
  cbn [state.ExtraEnv state.Name]. rewrite Hns, Hupd.
  assert (Hname : state.Name svc = name) by congruence.
  rewrite Hname. rewrite Hsel.
  match goal with |- context [state.port_taken_by_other ?s ?st] =>
    rewrite (port_not_taken s st row) by (cbn; auto; congruence) end.
  cbn [snd state.services].
  match goal with |- context [state.update_rows ?s ?e ?rows] =>
    rewrite (update_rows_find s e rows row name) by (cbn; auto);
    rewrite (update_rows_names s e rows);
    rewrite (update_rows_ports s e rows row) by (cbn; auto; congruence) end.
  cbn. split; [|split; assumption].
  rewrite Hver. unfold state.nullString. destruct (String.eqb v "") eqn:Ev; cbn.
  - apply String.eqb_eq in Ev. rewrite Ev. reflexivity.
  - reflexivity.
Qed.


Lemma Deploy_success o env req w res w' :
  Deploy o env req w = (Ok res, w') ->
  exists version port,
    deploy_version o env req = Ok version
    /\ deploy_port o env req w = Ok port
    /\ deployed req (deploy_name req) version port (deploy_routeType req) w w' res.
Proof.
  unfold Deploy. intros Hrun.
  destruct (DeployRun_spec o env req w)
    as [(e0 & w0 & He & _)|(Hv & version & port & Hver & Hport & Hcases)].
  - rewrite He in Hrun. discriminate.
  - exists version, port. split; [exact Hver|]. split; [exact Hport|].
    destruct Hcases as [(orig & w_mid & Hab & _)|(res' & w2 & Hok & Hdep)].
    + rewrite Hab in Hrun. discriminate.
    + rewrite Hok in Hrun. cbn [fst snd] in Hrun. injection Hrun as <- <-.
      exact Hdep.
Qed.

(** C1, as the code has it.  Whenever Deploy succeeds for a request with a
    route whose activation failed, the result carries a non-empty warning and
    empty route fields, the process is active and the database (if requested)
    exists; the Service record appended to the store, however, holds the
    requested route value and the route type, not empty route fields. *)
Theorem Deploy_route_failure_keeps_requested_route o env req w res w' :
  Deploy o env req w = (Ok res, w') ->
  DeployRequest.Route req <> "" ->
  DeployResult.NginxSkip res = true ->
  DeployResult.NginxWarn res <> ""
  /\ DeployResult.Route res = "" /\ DeployResult.RouteType res = ""
  /\ (exists row,
        state.services (store w') = (state.services (store w) ++ [row])%list
        /\ state.c_name row = deploy_name req
        /\ state.c_route_type row = deploy_routeType req
        /\ state.c_route_value row = DeployRequest.Route req
        /\ state.c_route_value row <> "")
  /\ deploy_name req ∈ systemd.active (sd w')
  /\ (DeployRequest.NoDB req = false ->
      ("gc_" ++ deploy_name req) ∈ db.databases (maria w')
      /\ ("gc_" ++ deploy_name req) ∈ db.users (maria w')).
Proof.
  intros Hrun Hroute Hskip.
  apply Deploy_success in Hrun as (version & port & _ & _ & Hdep).
  destruct Hdep as [_ _ _ (row & Hrows & Hn & _ & _ & Hrt & Hrv) Hact Hdb Hwarn].
  destruct (Hwarn Hroute Hskip) as (Hw & Hr & Hrt').
  repeat split; auto.
  - exists row. repeat split; auto. congruence.
  - apply Hdb; assumption.
  - apply Hdb; assumption.
Qed.

Lemma compensate_Systemd_reports env name version w :
  fst (compensate env name version Systemd w)
  = fst (systemd.RemoveUser (fails env RB_RemoveUser) name (sd w)).
Proof.
  unfold compensate. rewrite on_sd_fst.
  unfold systemd.RemoveUser. repeat case_if; reflexivity.
Qed.


Lemma Next_empty_range a io st p :
  state.services st = [] ->
  ports.Next a io st = Ok p -> p = ports.rangeStart a.
Proof.
  intros Hemp Hn. destruct io.
  - unfold ports.Next, state.UsedPorts in Hn. discriminate.
  - destruct (Next_spec a st) as (Hlow & _).
    destruct (Hlow p Hn) as (Hr & _ & Hq).
    destruct (decide (p = ports.rangeStart a)) as [|Hne]; [done|].
    exfalso. specialize (Hq (ports.rangeStart a)).
    unfold assigned in Hq. rewrite Hemp in Hq. apply Hq. lia.
Qed.

(** C8.  When the store answers, [Next] returns the lowest port of
    [rangeStart, rangeEnd) that no stored service is assigned, it returns one
    whenever such a port exists, and its result depends on the store only
    through the set of assigned ports; a deploy with automatic port
    assignment against an empty store with range 3000-4000 gets port 3000,
    in its result and in the stored record. *)
Theorem Next_lowest_unassigned_port (a : ports.Allocator) (st : state.Store) :
  (forall p, ports.Next a false st = Ok p ->
     ports.rangeStart a <= p < ports.rangeEnd a /\ ~ assigned st p
     /\ forall q, ports.rangeStart a <= q < p -> assigned st q)
  /\ (forall q, ports.rangeStart a <= q < ports.rangeEnd a -> ~ assigned st q ->
      exists p, ports.Next a false st = Ok p)
  /\ (forall st', (forall p, assigned st' p <-> assigned st p) ->
      ports.Next a false st' = ports.Next a false st)
  /\ (forall o env req w res w',
        orchestrator.ports o = ports.New 3000 4000 ->
        state.services (store w) = [] ->
        DeployRequest.Port req = 0 ->
        Deploy o env req w = (Ok res, w') ->
        DeployResult.Port res = 3000
        /\ exists row, state.services (store w') = [row]
                       /\ state.c_port row = 3000).
Proof.
  destruct (Next_spec a st) as (H1 & H2 & H3).
  split; [exact H1|]. split; [exact H2|]. split; [exact H3|].
  intros o env req w res w' Hports Hemp Hauto Hrun.
  apply Deploy_success in Hrun as (version & port & _ & Hport & Hdep).
  unfold deploy_port in Hport. rewrite Hauto in Hport. cbn in Hport.
  apply Next_empty_range in Hport; [|exact Hemp].
  rewrite Hports in Hport. cbn in Hport. subst port.
  destruct Hdep as [_ _ Hp (row & Hrows & _ & _ & Hrp & _) _ _ _].
  split; [exact Hp|]. exists row. rewrite Hrows, Hemp. auto.
Qed.

End Facts.

(** * Further properties of the code *)

#[local] Existing Instance state.name_le_dec.
#[local] Existing Instance state.newer_dec.
#[local] Existing Instance gotext.str_le_dec.

Section Coverage.
Context {J : JSONCodec}.

#[local] Hint Rewrite @on_store_store @on_store_bin @on_store_etc
  @on_store_sd @on_store_ngx @on_store_maria @on_store_trace @on_store_fst
  @on_bin_store @on_bin_bin @on_bin_etc @on_bin_sd @on_bin_ngx @on_bin_maria
  @on_bin_trace @on_bin_fst @on_etc_store @on_etc_bin @on_etc_etc @on_etc_sd
  @on_etc_ngx @on_etc_maria @on_etc_trace @on_etc_fst @on_sd_store @on_sd_bin
  @on_sd_etc @on_sd_sd @on_sd_ngx @on_sd_maria @on_sd_trace @on_sd_fst
  @on_ngx_store @on_ngx_bin @on_ngx_etc @on_ngx_sd @on_ngx_ngx @on_ngx_maria
  @on_ngx_trace @on_ngx_fst @on_maria_store @on_maria_bin @on_maria_etc
  @on_maria_sd @on_maria_ngx @on_maria_maria @on_maria_trace @on_maria_fst
  @log_store @log_bin @log_etc @log_sd @log_ngx @log_maria @log_trace : world.

Lemma select_by_port_None st p :
  state.select_by_port p st = None <-> ~ assigned st p.
Proof.
  unfold state.select_by_port, assigned. split.
  - intros Hf Hin. apply in_map_iff in Hin as (r & Hr & Hin).
    eapply List.find_none in Hf; [|exact Hin]. simpl in Hf.
    apply Z.eqb_neq in Hf. congruence.
  - intros Hn. destruct (List.find _ _) as [r|] eqn:E; [|reflexivity].
    apply List.find_some in E as [Hin Heq]. apply Z.eqb_eq in Heq.
    exfalso. apply Hn. apply in_map_iff. eauto.
Qed.

Lemma select_by_name_None st n :
  state.select_by_name n st = None
  <-> ~ In n (List.map state.c_name (state.services st)).
Proof.
  unfold state.select_by_name. split.
  - intros Hf Hin. apply in_map_iff in Hin as (r & Hr & Hin).
    eapply List.find_none in Hf; [|exact Hin]. simpl in Hf.
    apply String.eqb_neq in Hf. congruence.
  - intros Hn. destruct (List.find _ _) as [r|] eqn:E; [|reflexivity].
    apply List.find_some in E as [Hin Heq]. apply String.eqb_eq in Heq.
    exfalso. apply Hn. apply in_map_iff. eauto.
Qed.

Lemma InsertService_None_iff io svc st :
  (fst (state.InsertService io svc st) = None
   <-> io = false /\ state.select_by_name (state.Name svc) st = None
       /\ ~ assigned st (state.Port svc))
  /\ (fst (state.InsertService io svc st) <> None ->
      snd (state.InsertService io svc st) = st).
Proof.
  rewrite <- select_by_port_None.
  unfold state.InsertService.
  destruct (marshalJSON_ok (state.ExtraEnv svc)) as [ns ->].
  destruct io; cbn; [split; [split; [discriminate|intros (? & _); discriminate]|reflexivity]|].
  destruct (state.select_by_name (state.Name svc) st) eqn:En; cbn.
  { split; [split; [discriminate|intros (_ & ? & _); discriminate]|reflexivity]. }
  destruct (state.select_by_port (state.Port svc) st) eqn:Ep; cbn.
  { split; [split; [discriminate|intros (_ & _ & ?); discriminate]|reflexivity]. }
  split; [tauto|congruence].
Qed.

Lemma InsertService_None_inv io svc st st' :
  state.InsertService io svc st = (None, st') ->
  state.select_by_name (state.Name svc) st = None
  /\ ~ assigned st (state.Port svc)
  /\ exists ns, state.marshalJSON (state.ExtraEnv svc) = Ok ns
       /\ st' = {| state.services :=
                     (state.services st
                        ++ [state.row_of svc ns (unix_sec (state.DeployedAt svc))])%list;
                   state.history := state.history st |}.
Proof.
  rewrite <- select_by_port_None. unfold state.InsertService.
  destruct (marshalJSON_ok (state.ExtraEnv svc)) as [ns ->].
  destruct io; cbn; [discriminate|].
  destruct (state.select_by_name (state.Name svc) st) eqn:En; cbn; [discriminate|].
  destruct (state.select_by_port (state.Port svc) st) eqn:Ep; cbn; [discriminate|].
  intros [= <-]. eauto.
Qed.

Lemma find_app_other {A} (p : A -> bool) (l : list A) (x : A) :
  p x = false -> List.find p (l ++ [x]) = List.find p l.
Proof.
  intros Hx. induction l as [|y l IH]; simpl; [rewrite Hx; reflexivity|].
  destruct (p y); auto.
Qed.

(** X1. InsertService succeeds exactly when the statement is executed, the
    name is not yet a key of the table and the port is not assigned; when it
    fails the table is as before.  When it succeeds, the records of the other
    names are read back as before, the assigned ports are those there were
    and the new record's, and the history is as before. *)
Theorem InsertService_succeeds_iff io svc st :
  (fst (state.InsertService io svc st) = None
   <-> io = false /\ state.select_by_name (state.Name svc) st = None
       /\ ~ assigned st (state.Port svc))
  /\ (fst (state.InsertService io svc st) <> None ->
      snd (state.InsertService io svc st) = st)
  /\ (fst (state.InsertService io svc st) = None ->
      (forall n, n <> state.Name svc ->
         state.GetService false n (snd (state.InsertService io svc st))
         = state.GetService false n st)
      /\ (forall p, assigned (snd (state.InsertService io svc st)) p
                    <-> assigned st p \/ p = state.Port svc)
      /\ state.history (snd (state.InsertService io svc st)) = state.history st).
Proof.
  destruct (InsertService_None_iff io svc st) as [Hiff Hfail].
  split; [exact Hiff|]. split; [exact Hfail|].
  intros Hok.
  destruct (state.InsertService io svc st) as [e st'] eqn:E. cbn in Hok. subst e.
  apply InsertService_None_inv in E as (_ & _ & ns & _ & ->). cbn [snd].
  split; [|split; [|reflexivity]].
  - intros n Hn. unfold state.GetService, state.select_by_name. cbn [state.services].
    rewrite find_app_other; [reflexivity|].
    cbn. apply String.eqb_neq. congruence.
  - intros p. unfold assigned. cbn [state.services].
    rewrite List.map_app, in_app_iff. cbn. intuition congruence.
Qed.

Lemma nullString_scan p :
  state.NString (state.scan_NullString (state.to_column (state.nullString p))) = p.
Proof.
  unfold state.nullString. destruct (String.eqb p "") eqn:E; cbn; [|reflexivity].
  apply String.eqb_eq in E. auto.
Qed.

(** What [scanService] reads from the row written for [svc]. *)
Lemma scanService_row_of svc ns deployed_at :
  state.marshalJSON (state.ExtraEnv svc) = Ok ns ->
  decodable (state.ExtraEnv svc) ->
  exists svc', state.scanService (state.row_of svc ns deployed_at) = Ok svc'
    /\ same_record svc svc'
    /\ state.DeployedAt svc' = time_Unix deployed_at 0.
Proof.
  intros Hm Hdec. unfold state.scanService.
  destruct (state.Valid _ && _) eqn:Ev.
  - unfold state.marshalJSON in Hm.
    destruct (len (state.ExtraEnv svc) =? 0).
    { injection Hm as <-. discriminate Ev. }
    destruct (state.ExtraEnv svc) as [m|] eqn:Em.
    2:{ injection Hm as <-. discriminate Ev. }
    injection Hm as <-. cbn. destruct (Hdec m eq_refl) as [m' ->].
    eexists. split; [reflexivity|]. unfold same_record. cbn.
    rewrite nullString_scan. repeat split.
  - eexists. split; [reflexivity|]. unfold same_record. cbn.
    rewrite nullString_scan. repeat split.
Qed.

(** X2. A record that was inserted is read back by GetService with every
    field as written, except that the two time stamps come back in whole
    seconds (the sub-second part is lost). *)
Theorem InsertService_GetService_fields io svc st st' :
  state.InsertService io svc st = (None, st') ->
  decodable (state.ExtraEnv svc) ->
  exists svc', state.GetService false (state.Name svc) st' = Ok svc'
    /\ same_record svc svc'
    /\ state.DeployedAt svc' = time_Unix (unix_sec (state.DeployedAt svc)) 0.
Proof.
  intros Hins Hdec. apply InsertService_ok in Hins as (ns & Hm & Hsel).
  destruct (scanService_row_of svc ns (unix_sec (state.DeployedAt svc)) Hm Hdec)
    as (svc' & Hscan & Hrec & Hdep).
  exists svc'. unfold state.GetService. rewrite Hsel, Hscan. auto.
Qed.

Lemma update_rows_other svc ns rows n :
  n <> state.Name svc ->
  List.find (fun r => String.eqb (state.c_name r) n) (state.update_rows svc ns rows)
  = List.find (fun r => String.eqb (state.c_name r) n) rows.
Proof.
  intros Hne. induction rows as [|r rows IH]; simpl; [reflexivity|].
  destruct (String.eqb (state.c_name r) (state.Name svc)) eqn:E; cbn.
  - apply String.eqb_eq in E. rewrite E.
    destruct (String.eqb (state.Name svc) n) eqn:E'.
    + apply String.eqb_eq in E'. congruence.
    + exact IH.
  - rewrite IH. reflexivity.
Qed.

(** X3. UpdateService overwrites every column of the named row but
    [deployed_at]: the record read back has the fields passed in, and the
    deployment time of the row that was there; the rows of other services
    and the history are untouched.  For a name that is not in the table the
    call returns ErrNotFound and changes nothing. *)
Theorem UpdateService_keeps_deployed_at svc st :
  (forall io st', state.UpdateService io svc st = (None, st') ->
     decodable (state.ExtraEnv svc) ->
     exists row svc',
       state.select_by_name (state.Name svc) st = Some row
       /\ state.GetService false (state.Name svc) st' = Ok svc'
       /\ same_record svc svc'
       /\ state.DeployedAt svc' = time_Unix (state.c_deployed_at row) 0
       /\ (forall n, n <> state.Name svc ->
             state.select_by_name n st' = state.select_by_name n st)
       /\ state.history st' = state.history st)
  /\ (state.select_by_name (state.Name svc) st = None ->
      state.UpdateService false svc st = (Some ErrNotFound, st)).
Proof.
  split.
  - intros io st' Hup Hdec. unfold state.UpdateService in Hup.
    destruct (marshalJSON_ok (state.ExtraEnv svc)) as [ns Hm]. rewrite Hm in Hup.
    destruct io; [discriminate|].
    destruct (state.select_by_name (state.Name svc) st) as [row|] eqn:Hsel;
      [|discriminate].
    destruct (state.port_taken_by_other svc st); [discriminate|].
    injection Hup as <-.
    destruct (scanService_row_of svc ns (state.c_deployed_at row) Hm Hdec)
      as (svc' & Hscan & Hrec & Hdep).
    exists row, svc'. split; [reflexivity|].
    unfold state.GetService, state.select_by_name in *. cbn.
    rewrite (update_rows_find svc ns _ row (state.Name svc) eq_refl Hsel), Hscan.
    repeat split; try apply Hrec; auto.
    intros n Hn. apply update_rows_other. exact Hn.
  - intros Hsel. unfold state.UpdateService.
    destruct (marshalJSON_ok (state.ExtraEnv svc)) as [ns ->]. rewrite Hsel.
    reflexivity.
Qed.

Lemma find_filter_other name n rows :
  n <> name ->
  List.find (fun r => String.eqb (state.c_name r) n)
    (List.filter (fun r => negb (String.eqb (state.c_name r) name)) rows)
  = List.find (fun r => String.eqb (state.c_name r) n) rows.
Proof.
  intros Hne. induction rows as [|r rows IH]; simpl; [reflexivity|].
  destruct (String.eqb (state.c_name r) name) eqn:E; cbn.
  - apply String.eqb_eq in E. rewrite E.
    destruct (String.eqb name n) eqn:E'; [apply String.eqb_eq in E'; congruence|].
    exact IH.
  - rewrite IH. reflexivity.
Qed.

Lemma find_filter_self name rows :
  List.find (fun r => String.eqb (state.c_name r) name)
    (List.filter (fun r => negb (String.eqb (state.c_name r) name)) rows) = None.
Proof.
  induction rows as [|r rows IH]; simpl; [reflexivity|].
  destruct (String.eqb (state.c_name r) name) eqn:E; cbn; [exact IH|].
  rewrite E. exact IH.
Qed.

(** X4. DeleteService removes the named record and nothing else: afterwards
    GetService reports ErrNotFound for the name, the records of the other
    services and the history are as before; deleting a name that is not
    in the table returns ErrNotFound and changes nothing. *)
Theorem DeleteService_removes_only_the_named name st :
  (state.select_by_name name st = None ->
   state.DeleteService false name st = (Some ErrNotFound, st))
  /\ (forall row, state.select_by_name name st = Some row ->
      exists st', state.DeleteService false name st = (None, st')
        /\ state.GetService false name st' = Fail ErrNotFound
        /\ (forall n, n <> name ->
              state.select_by_name n st' = state.select_by_name n st)
        /\ state.history st' = state.history st).
Proof.
  unfold state.DeleteService. split.
  - intros ->. reflexivity.
  - intros row ->. cbn. eexists. split; [reflexivity|].
    unfold state.GetService, state.select_by_name. cbn.
    rewrite find_filter_self. repeat split.
    intros n Hn. apply find_filter_other. exact Hn.
Qed.

Lemma NoDup_snoc {A} (l : list A) x :
  List.NoDup l -> ~ In x l -> List.NoDup (l ++ [x]).
Proof.
  intros Hnd Hx. apply List.NoDup_app; [exact Hnd|repeat constructor; simpl; tauto|].
  intros a Ha [<-|[]]. auto.
Qed.

Lemma port_taken_false svc st r :
  state.port_taken_by_other svc st = false ->
  In r (state.services st) -> state.c_port r = state.Port svc ->
  state.c_name r = state.Name svc.
Proof.
  unfold state.port_taken_by_other. intros Hex Hin Hp.
  destruct (String.eqb (state.c_name r) (state.Name svc)) eqn:E;
    [apply String.eqb_eq in E; exact E|].
  exfalso. apply not_true_iff_false in Hex. apply Hex.
  apply List.existsb_exists. exists r. split; [exact Hin|].
  rewrite E. apply andb_true_iff. split; [apply Z.eqb_eq; exact Hp|reflexivity].
Qed.

(** X5. The constraints of the schema (names are unique, ports are unique)
    are an invariant of the store: whatever they return, InsertService,
    UpdateService, DeleteService and AppendHistory lead from a table that
    satisfies them to a table that satisfies them. *)
Theorem store_constraints_preserved st :
  store_wf st ->
  (forall io svc, store_wf (snd (state.InsertService io svc st)))
  /\ (forall io svc, store_wf (snd (state.UpdateService io svc st)))
  /\ (forall io name, store_wf (snd (state.DeleteService io name st)))
  /\ (forall io entry, store_wf (snd (state.AppendHistory io entry st))).
Proof.
  intros [Hn Hp]. repeat split.
  - destruct (InsertService_None_iff io svc st) as [Hiff Hfail].
    destruct (fst (state.InsertService io svc st)) eqn:E.
    + rewrite Hfail by discriminate. exact Hn.
    + apply proj1 in Hiff. destruct (Hiff eq_refl) as (-> & Hname & Hport).
      unfold state.InsertService in *.
      destruct (marshalJSON_ok (state.ExtraEnv svc)) as [ns Hm]. rewrite Hm in *.
      cbn in *. repeat case_match; try discriminate. cbn.
      rewrite List.map_app. apply NoDup_snoc; [exact Hn|]. cbn.
      apply select_by_name_None. exact Hname.
  - destruct (InsertService_None_iff io svc st) as [Hiff Hfail].
    destruct (fst (state.InsertService io svc st)) eqn:E.
    + rewrite Hfail by discriminate. exact Hp.
    + apply proj1 in Hiff. destruct (Hiff eq_refl) as (-> & Hname & Hport).
      unfold state.InsertService in *.
      destruct (marshalJSON_ok (state.ExtraEnv svc)) as [ns Hm]. rewrite Hm in *.
      cbn in *. repeat case_match; try discriminate. cbn.
      rewrite List.map_app. apply NoDup_snoc; [exact Hp|]. cbn. exact Hport.
  - unfold state.UpdateService.
    destruct (marshalJSON_ok (state.ExtraEnv svc)) as [ns ->].
    repeat case_match; cbn; try exact Hn.
    rewrite update_rows_names. exact Hn.
  - unfold state.UpdateService.
    destruct (marshalJSON_ok (state.ExtraEnv svc)) as [ns ->].
    destruct io; [exact Hp|].
    destruct (state.select_by_name (state.Name svc) st) as [row|]; [|exact Hp].
    destruct (state.port_taken_by_other svc st) eqn:Ht; [exact Hp|]. cbn.
    unfold state.update_rows. rewrite List.map_map.
    apply Finite.Injective_map_NoDup_in; [|eapply NoDup_map_inv; exact Hn].
    intros x y Hx Hy.
    destruct (String.eqb (state.c_name x) (state.Name svc)) eqn:Ex,
             (String.eqb (state.c_name y) (state.Name svc)) eqn:Ey; cbn; intros Heq.
    + apply String.eqb_eq in Ex, Ey.
      eapply (NoDup_map_inj state.c_name); eauto. congruence.
    + pose proof (port_taken_false svc st y Ht Hy (eq_sym Heq)) as Hc.
      apply String.eqb_neq in Ey. contradiction.
    + pose proof (port_taken_false svc st x Ht Hx Heq) as Hc.
      apply String.eqb_neq in Ex. contradiction.
    + eapply (NoDup_map_inj state.c_port); eauto.
  - unfold state.DeleteService. repeat case_match; cbn; try exact Hn.
    apply Finite.Injective_map_NoDup_in.
    + intros x y Hx Hy. apply List.filter_In in Hx as [Hx _], Hy as [Hy _].
      eapply (NoDup_map_inj state.c_name); eauto.
    + apply List.NoDup_filter. eapply NoDup_map_inv; exact Hn.
  - unfold state.DeleteService. repeat case_match; cbn; try exact Hp.
    apply Finite.Injective_map_NoDup_in.
    + intros x y Hx Hy. apply List.filter_In in Hx as [Hx _], Hy as [Hy _].
      eapply (NoDup_map_inj state.c_port); eauto.
    + apply List.NoDup_filter. eapply NoDup_map_inv; exact Hn.
  - rewrite AppendHistory_services'. exact Hn.
  - rewrite AppendHistory_services'. exact Hp.
Qed.

Lemma scanService_name row svc :
  state.scanService row = Ok svc -> state.Name svc = state.c_name row.
Proof.
  unfold state.scanService.
  destruct (_ && _); [destruct (json_Unmarshal _); [|discriminate]|];
    intros [= <-]; reflexivity.
Qed.

Lemma scan_rows_spec rows acc :
  match state.scan_rows rows acc with
  | Ok l => exists l', l = (acc ++ l')%list
              /\ Forall2 (fun row svc => state.scanService row = Ok svc) rows l'
  | Fail e => exists row, In row rows /\ state.scanService row = Fail e
  end.
Proof.
  revert acc. induction rows as [|row rows IH]; intros acc; simpl.
  - exists []. rewrite app_nil_r. split; [reflexivity|constructor].
  - destruct (state.scanService row) as [svc|e] eqn:E; [|eauto].
    specialize (IH (acc ++ [svc])%list).
    destruct (state.scan_rows rows (acc ++ [svc])) as [l|e].
    + destruct IH as (l' & -> & Hall). exists (svc :: l').
      rewrite <- app_assoc. split; [reflexivity|]. constructor; assumption.
    + destruct IH as (r & Hin & Hr). eauto.
Qed.

Lemma find_NoDup_name rows row :
  List.NoDup (List.map state.c_name rows) -> In row rows ->
  List.find (fun r => String.eqb (state.c_name r) (state.c_name row)) rows = Some row.
Proof.
  intros Hnd Hin.
  destruct (List.find _ rows) as [r|] eqn:E.
  - apply find_some_name in E as [Hr Hname]. f_equal.
    eapply (NoDup_map_inj state.c_name); eauto.
  - eapply List.find_none in E; [|exact Hin]. cbn in E.
    rewrite String.eqb_refl in E. discriminate.
Qed.

Lemma Forall2_Sorted_name rows l :
  Forall2 (fun row svc => state.scanService row = Ok svc) rows l ->
  Sorted state.name_le rows -> Sorted by_name l.
Proof.
  induction 1 as [|row svc rows l Hs Hall IH]; intros Hsorted; [constructor|].
  apply Sorted_inv in Hsorted as [Hsorted Hhd]. constructor; [auto|].
  destruct Hall as [|row' svc' rows' l' Hs' Hall']; constructor.
  apply HdRel_inv in Hhd. unfold by_name, state.name_le in *.
  rewrite (scanService_name _ _ Hs), (scanService_name _ _ Hs'). exact Hhd.
Qed.

#[local] Instance name_le_total : Total state.name_le.
Proof. intros a b. apply String.leb_total. Qed.

Lemma Forall2_In_r {A B} (R : A -> B -> Prop) l1 l2 y :
  Forall2 R l1 l2 -> In y l2 -> exists x, In x l1 /\ R x y.
Proof.
  induction 1 as [|a b l1 l2 Hab Hall IH]; simpl; [tauto|].
  intros [<-|Hin]; [eauto|]. destruct (IH Hin) as (x & ? & ?). eauto.
Qed.

Lemma Forall2_In_l {A B} (R : A -> B -> Prop) l1 l2 x :
  Forall2 R l1 l2 -> In x l1 -> exists y, In y l2 /\ R x y.
Proof.
  induction 1 as [|a b l1 l2 Hab Hall IH]; simpl; [tauto|].
  intros [<-|Hin]; [eauto|]. destruct (IH Hin) as (y & ? & ?). eauto.
Qed.

(** X6. ListServices returns one record per row of the table, in ascending
    order of the names, and each of them is what GetService returns for its
    name; a single row whose extra-environment blob cannot be decoded makes
    the whole listing fail. *)
Theorem ListServices_agrees_with_GetService st :
  store_wf st ->
  (forall l, state.ListServices false st = Ok l ->
     Sorted by_name l
     /\ length l = length (state.services st)
     /\ forall svc, In svc l <-> state.GetService false (state.Name svc) st = Ok svc)
  /\ (forall row e, In row (state.services st) -> state.scanService row = Fail e ->
      exists e', state.ListServices false st = Fail e').
Proof.
  intros [Hn _]. unfold state.ListServices.
  pose proof (scan_rows_spec (merge_sort state.name_le (state.services st)) []) as Hspec.
  pose proof (merge_sort_Permutation state.name_le (state.services st)) as Hperm.
  destruct (state.scan_rows _ _) as [l0|e0].
  - destruct Hspec as (l' & -> & Hall). cbn. split.
    + intros l [= <-]. split; [|split].
      * eapply Forall2_Sorted_name; [exact Hall|].
        apply Sorted_merge_sort. apply _.
      * rewrite <- (Forall2_length _ _ _ Hall). apply Permutation_length. exact Hperm.
      * intros svc. unfold state.GetService, state.select_by_name. split.
        -- intros Hin. destruct (Forall2_In_r _ _ _ _ Hall Hin) as (row & Hrow & Hs).
           eapply Permutation_in in Hrow; [|exact Hperm].
           rewrite (scanService_name _ _ Hs), (find_NoDup_name _ _ Hn Hrow), Hs.
           reflexivity.
        -- destruct (List.find _ _) as [row|] eqn:E; [|discriminate].
           destruct (state.scanService row) as [svc'|] eqn:Hs; [|discriminate].
           intros [= ->]. apply find_some_name in E as [Hrow _].
           eapply Permutation_in in Hrow; [|symmetry; exact Hperm].
           destruct (Forall2_In_l _ _ _ _ Hall Hrow) as (svc' & Hin & Hs').
           congruence.
    + intros row e Hrow Hs.
      eapply Permutation_in in Hrow; [|symmetry; exact Hperm].
      destruct (Forall2_In_l _ _ _ _ Hall Hrow) as (svc' & Hin & Hs'). congruence.
  - split; [discriminate|]. eauto.
Qed.

Lemma scan_history_acc rows acc :
  state.scan_history rows acc
  = match state.scan_history rows [] with
    | Ok l => Ok (acc ++ l)%list
    | Fail e => Fail e
    end.
Proof.
  revert acc. induction rows as [|row rows IH]; intros acc; simpl.
  - rewrite app_nil_r. reflexivity.
  - destruct (state.scanHistory row) as [e|err]; [|reflexivity].
    rewrite (IH (acc ++ [e])%list), (IH [e]).
    destruct (state.scan_history rows []); [|reflexivity].
    rewrite <- app_assoc. reflexivity.
Qed.

Lemma scan_history_cons row rows e :
  state.scanHistory row = Ok e ->
  state.scan_history (row :: rows) []
  = match state.scan_history rows [] with
    | Ok l => Ok (e :: l)
    | Fail err => Fail err
    end.
Proof. intros H. simpl. rewrite H. apply scan_history_acc. Qed.

#[local] Instance newer_total : Total state.newer.
Proof. intros a b. unfold state.newer. lia. Qed.

#[local] Instance newer_trans : Transitive state.newer.
Proof. intros a b c. unfold state.newer. lia. Qed.

Lemma history_wf_id st row :
  history_wf st -> In row (state.history st) ->
  1 <= state.h_id row <= Z.of_nat (length (state.history st)).
Proof.
  intros Hwf Hin. apply In_nth_error in Hin as [i Hi].
  rewrite (Hwf i row Hi).
  assert (i < length (state.history st))%nat.
  { apply nth_error_Some. congruence. }
  lia.
Qed.

Lemma history_wf_inj st r1 r2 :
  history_wf st -> In r1 (state.history st) -> In r2 (state.history st) ->
  state.h_id r1 = state.h_id r2 -> r1 = r2.
Proof.
  intros Hwf H1 H2 Heq.
  apply In_nth_error in H1 as [i Hi], H2 as [j Hj].
  rewrite (Hwf i r1 Hi), (Hwf j r2 Hj) in Heq.
  assert (i = j) by lia. subst j. congruence.
Qed.

Lemma sort_newest_first rows row :
  (forall r, In r rows -> state.h_id r < state.h_id row) ->
  (forall r1 r2, In r1 rows -> In r2 rows -> state.h_id r1 = state.h_id r2 -> r1 = r2) ->
  merge_sort state.newer (rows ++ [row]) = row :: merge_sort state.newer rows.
Proof.
  intros Hlt Hinj.
  assert (Hp : merge_sort state.newer (rows ++ [row])
               ≡ₚ row :: merge_sort state.newer rows).
  { rewrite !merge_sort_Permutation. symmetry. apply Permutation_cons_append. }
  apply (StronglySorted_unique_strong state.newer); [| | |exact Hp].
  - intros x1 x2 H1 H2 R1 R2. unfold state.newer in *.
    assert (Hid : state.h_id x1 = state.h_id x2) by lia.
    apply list_elem_of_In in H1, H2.
    eapply Permutation_in in H1; [|apply merge_sort_Permutation].
    apply in_app_or in H1. destruct H2 as [<-|H2].
    + destruct H1 as [H1|[<-|[]]]; [|reflexivity].
      apply Hlt in H1. lia.
    + eapply Permutation_in in H2; [|apply merge_sort_Permutation].
      destruct H1 as [H1|[<-|[]]]; [auto|].
      apply Hlt in H2. lia.
  - apply StronglySorted_merge_sort; apply _.
  - constructor; [apply StronglySorted_merge_sort; apply _|].
    apply List.Forall_forall. intros r Hr.
    eapply Permutation_in in Hr; [|apply merge_sort_Permutation].
    apply Hlt in Hr. unfold state.newer. lia.
Qed.

(** X7. ListHistory returns the entries of a service newest first: after an
    entry was appended, it is the head of the listing of its service,
    followed by the listing as it was; it carries the next id of the table
    (the ID passed in is ignored) and the time stamp in whole seconds;
    the listings of the other services are unchanged. *)
Theorem ListHistory_newest_first entry st st' l :
  history_wf st ->
  state.AppendHistory false entry st = (None, st') ->
  decodable (state.Detail entry) ->
  state.ListHistory false (state.HService entry) st = Ok l ->
  (exists e, state.ListHistory false (state.HService entry) st' = Ok (e :: l)
     /\ state.ID e = Z.of_nat (length (state.history st)) + 1
     /\ state.HService e = state.HService entry
     /\ state.Action e = state.Action entry
     /\ state.HVersion e = state.HVersion entry
     /\ state.Timestamp e = time_Unix (unix_sec (state.Timestamp entry)) 0)
  /\ (forall s, s <> state.HService entry ->
        state.ListHistory false s st' = state.ListHistory false s st)
  /\ history_wf st'.
Proof.
  intros Hwf Happ Hdec Hl. unfold state.AppendHistory in Happ.
  destruct (state.marshalJSON (state.Detail entry)) as [ns|] eqn:Hm; [|discriminate].
  injection Happ as <-. unfold state.ListHistory in *. cbn.
  split; [|split].
  - rewrite List.filter_app. cbn. rewrite String.eqb_refl.
    rewrite sort_newest_first.
    + assert (Hscan : exists e, state.scanHistory
          {| state.h_id := Z.of_nat (length (state.history st)) + 1;
             state.h_service := state.HService entry;
             state.h_action := state.Action entry;
             state.h_version := state.to_column (state.nullString (state.HVersion entry));
             state.h_timestamp := unix_sec (state.Timestamp entry);
             state.h_detail := state.to_column ns |} = Ok e
          /\ state.ID e = Z.of_nat (length (state.history st)) + 1
          /\ state.HService e = state.HService entry
          /\ state.Action e = state.Action entry
          /\ state.HVersion e = state.HVersion entry
          /\ state.Timestamp e = time_Unix (unix_sec (state.Timestamp entry)) 0).
      { unfold state.scanHistory. cbn. destruct (state.Valid _ && _) eqn:Ev.
        - unfold state.marshalJSON in Hm.
          destruct (len (state.Detail entry) =? 0).
          { injection Hm as <-. discriminate Ev. }
          destruct (state.Detail entry) as [m|] eqn:Em.
          2:{ injection Hm as <-. discriminate Ev. }
          injection Hm as <-. cbn. destruct (Hdec m eq_refl) as [m' ->].
          eexists. split; [reflexivity|]. cbn. rewrite nullString_scan. auto.
        - eexists. split; [reflexivity|]. cbn. rewrite nullString_scan. auto. }
      destruct Hscan as (e & Hs & Hfields). exists e.
      rewrite (scan_history_cons _ _ e Hs), Hl. split; [reflexivity|exact Hfields].
    + intros r Hr. apply List.filter_In in Hr as [Hr _]. cbn.
      pose proof (history_wf_id st r Hwf Hr). lia.
    + intros r1 r2 H1 H2. apply List.filter_In in H1 as [H1 _], H2 as [H2 _].
      apply (history_wf_inj st); assumption.
  - intros s Hs. rewrite List.filter_app. cbn.
    destruct (String.eqb (state.HService entry) s) eqn:E;
      [apply String.eqb_eq in E; congruence|].
    rewrite app_nil_r. reflexivity.
  - intros i row Hi. cbn in Hi.
    destruct (Nat.lt_ge_cases i (length (state.history st))) as [Hlt|Hge].
    + rewrite nth_error_app1 in Hi by exact Hlt. apply Hwf. exact Hi.
    + rewrite nth_error_app2 in Hi by exact Hge.
      destruct (i - length (state.history st))%nat as [|k] eqn:Ek; cbn in Hi.
      * injection Hi as <-. cbn. lia.
      * destruct k; discriminate.
Qed.

Lemma PortOwner_free st p :
  ~ assigned st p -> state.PortOwner false p st = Ok "".
Proof.
  intros H. apply select_by_port_None in H. unfold state.PortOwner. rewrite H.
  reflexivity.
Qed.

(** X8. Request accepts a port exactly when it lies in the configured range
    and no record holds it; a port held by a record is refused with an error
    that names the record. *)
Theorem Request_accepts_iff a port st :
  named st ->
  (ports.Request a false port st = None <-> in_range a port /\ ~ assigned st port)
  /\ (forall row, in_range a port -> state.select_by_port port st = Some row ->
      ports.Request a false port st
      = Some (Errorf "port is already in use by service" [pretty port; state.c_name row])).
Proof.
  intros Hnamed. unfold ports.Request, in_range, state.PortOwner.
  rewrite <- select_by_port_None.
  destruct (port <? ports.rangeStart a) eqn:E1; cbn.
  { apply Z.ltb_lt in E1. split; [split; [discriminate|lia]|lia]. }
  destruct (ports.rangeEnd a <=? port) eqn:E2; cbn.
  { apply Z.leb_le in E2. split; [split; [discriminate|lia]|lia]. }
  apply Z.ltb_ge in E1. apply Z.leb_gt in E2.
  destruct (state.select_by_port port st) as [row|] eqn:Hsel; cbn.
  - assert (Hne : state.c_name row <> "").
    { apply Hnamed. unfold state.select_by_port in Hsel.
      apply List.find_some in Hsel. tauto. }
    apply String.eqb_neq in Hne. rewrite Hne. cbn. split.
    + split; [discriminate|]. intros [_ ?]. discriminate.
    + intros row' _ [= <-]. reflexivity.
  - split; [|discriminate]. split; [intros _; split; [lia|reflexivity]|reflexivity].
Qed.

(** X9. A port handed out by Next passes the check of Request on the same
    table. *)
Theorem Next_port_accepted_by_Request a st p :
  ports.Next a false st = Ok p -> ports.Request a false p st = None.
Proof.
  intros Hp. destruct (Next_spec a st) as (H1 & _). destruct (H1 p Hp) as (Hr & Hfree & _).
  unfold ports.Request. rewrite (PortOwner_free st p Hfree).
  destruct (p <? ports.rangeStart a) eqn:E1; [apply Z.ltb_lt in E1; lia|].
  destruct (ports.rangeEnd a <=? p) eqn:E2; [apply Z.leb_le in E2; lia|].
  reflexivity.
Qed.

(** X10. Next reports the range as exhausted exactly when every port of the
    range is held by a record, which includes every range whose end is not
    above its start; when the query for the used ports fails, the error is
    wrapped twice with the same message. *)
Theorem Next_exhausted_iff a st :
  ((forall q, in_range a q -> assigned st q)
   <-> ports.Next a false st
       = Fail (Errorf "port range exhausted"
                 [pretty (ports.rangeStart a); pretty (ports.rangeEnd a)]))
  /\ ports.Next a true st
     = Fail (Wrapf "querying used ports" []
               (Wrapf "querying used ports" [] (ErrExternal SqlExec))).
Proof.
  split; [|reflexivity]. unfold in_range. split.
  - intros Hall. destruct (ports.Next a false st) as [p|e] eqn:E.
    + destruct (Next_spec a st) as (H1 & _). destruct (H1 p E) as (Hr & Hfree & _).
      exfalso. apply Hfree. apply Hall. exact Hr.
    + unfold ports.Next in E. cbn in E.
      destruct (ports.scan _ _ _); [discriminate|]. congruence.
  - intros Hfail q Hq.
    destruct (In_dec Z.eq_dec q (List.map state.c_port (state.services st)))
      as [Hin|Hout]; [exact Hin|].
    destruct (Next_spec a st) as (_ & H2 & _).
    destruct (H2 q Hq Hout) as [p Hp]. congruence.
Qed.

(** X11. RenderConfig refuses exactly the route types other than "subdomain"
    and "path", and the type InferRouteType infers is never refused: a value
    with a leading slash is rendered as a location block, any other value as
    a server block. *)
Theorem inferred_route_type_is_rendered name value port :
  (forall params,
     ((exists e, nginx.RenderConfig params = Fail e)
      <-> (nginx.RouteType params <> "subdomain"
           /\ nginx.RouteType params <> "path")))
  /\ nginx.RenderConfig {| nginx.Name := name;
                           nginx.RouteType := nginx.InferRouteType value;
                           nginx.RouteValue := value; nginx.Port := port |}
     = Ok (if nginx.HasPrefix_slash value then nginx.LocationBlock value port
           else nginx.ServerBlock value port).
Proof.
  split.
  - intros params. unfold nginx.RenderConfig.
    destruct (String.eqb_spec (nginx.RouteType params) "subdomain") as [E|E].
    { split; [intros [e [=]]|tauto]. }
    destruct (String.eqb_spec (nginx.RouteType params) "path") as [E'|E'].
    { split; [intros [e [=]]|tauto]. }
    split; eauto.
  - unfold nginx.InferRouteType, nginx.RenderConfig.
    destruct (nginx.HasPrefix_slash value); cbn; [reflexivity|].
    destruct (nginx.Contains_dot value); reflexivity.
Qed.

Lemma same_routes_but_trans name s1 s2 s3 :
  same_routes_but name s1 s2 -> same_routes_but name s2 s3 ->
  same_routes_but name s1 s3.
Proof.
  intros H1 H2 n Hn. destruct (H1 n Hn) as [A1 B1], (H2 n Hn) as [A2 B2].
  split; [congruence|tauto].
Qed.

Lemma WriteConfig_frame f params s :
  same_routes_but (nginx.Name params) s (snd (nginx.WriteConfig f params s)).
Proof.
  unfold nginx.WriteConfig, same_routes_but, nginx.remove_enabled, nginx.remove_site.
  repeat case_match; cbn; intros n Hn;
    (split; [rewrite ?lookup_delete_ne, ?lookup_insert_ne by congruence; reflexivity
            |set_solver]).
Qed.

Lemma WriteConfig_installed f params s content :
  nginx.RenderConfig params = Ok content ->
  fst (nginx.WriteConfig f params s) = None
  \/ fst (nginx.WriteConfig f params s)
     = Some (Wrapf "reloading nginx" [] (ErrExternal NgxReload)) ->
  nginx.sites_available (snd (nginx.WriteConfig f params s)) !! nginx.Name params
    = Some content
  /\ nginx.Name params ∈ nginx.sites_enabled (snd (nginx.WriteConfig f params s)).
Proof.
  intros Hr. unfold nginx.WriteConfig, nginx.remove_enabled, nginx.remove_site.
  rewrite Hr.
  repeat case_match; cbn; intros [?|?]; try discriminate;
    (split; [rewrite ?lookup_insert_eq; reflexivity|set_solver]).
Qed.

(** X12. What WriteConfig leaves behind.  It never touches the configuration
    of another name.  When it returns nil the rendered configuration of the
    name is installed and enabled.  When the configuration test fails and
    the two removals are not refused, no configuration of the name is left,
    also where one was installed before the call.  When only the reload
    fails, the configuration stays installed and enabled although an error
    is returned.  A route type that cannot be rendered changes nothing. *)
Theorem WriteConfig_outcomes f params s :
  same_routes_but (nginx.Name params) s (snd (nginx.WriteConfig f params s))
  /\ (fst (nginx.WriteConfig f params s) = None ->
      exists content, nginx.RenderConfig params = Ok content
        /\ nginx.sites_available (snd (nginx.WriteConfig f params s))
             !! nginx.Name params = Some content
        /\ nginx.Name params ∈ nginx.sites_enabled (snd (nginx.WriteConfig f params s)))
  /\ (fst (nginx.WriteConfig f params s)
        = Some (Errorf "nginx config test failed (config rolled back)" []) ->
      f NgxRemoveEnabledAfterTest = false -> f NgxRemoveSitesAfterTest = false ->
      no_route (nginx.Name params) (snd (nginx.WriteConfig f params s)))
  /\ (fst (nginx.WriteConfig f params s)
        = Some (Wrapf "reloading nginx" [] (ErrExternal NgxReload)) ->
      exists content, nginx.RenderConfig params = Ok content
        /\ nginx.sites_available (snd (nginx.WriteConfig f params s))
             !! nginx.Name params = Some content
        /\ nginx.Name params ∈ nginx.sites_enabled (snd (nginx.WriteConfig f params s)))
  /\ (forall e, nginx.RenderConfig params = Fail e ->
      nginx.WriteConfig f params s = (Some e, s)).
Proof.
  split; [apply WriteConfig_frame|].
  destruct (nginx.RenderConfig params) as [content|e0] eqn:Hr.
  - split; [|split; [|split]].
    + intros H. exists content. split; [reflexivity|].
      apply WriteConfig_installed; auto.
    + unfold nginx.WriteConfig, nginx.remove_enabled, nginx.remove_site, no_route.
      rewrite Hr. intros H Hf1 Hf2. revert H. rewrite Hf1, Hf2.
      repeat case_match; cbn; intros; try discriminate;
        (split; [rewrite ?lookup_delete_eq; reflexivity|set_solver]).
    + intros H. exists content. split; [reflexivity|].
      apply WriteConfig_installed; auto.
    + discriminate.
  - assert (He : e0 = Errorf "unknown route type; must be 'subdomain' or 'path'"
                        [nginx.RouteType params]).
    { unfold nginx.RenderConfig in Hr. repeat case_match; congruence. }
    subst e0. unfold nginx.WriteConfig. rewrite Hr. cbn.
    repeat split; try discriminate. intros e [= <-]. reflexivity.
Qed.

Lemma RemoveConfig_removed f name s :
  removal_succeeds f -> no_route name (snd (nginx.RemoveConfig f name s)).
Proof.
  intros [H1 H2]. unfold nginx.RemoveConfig, no_route. rewrite H1, H2.
  unfold nginx.remove_enabled, nginx.remove_site.
  case_match; cbn; (split; [apply lookup_delete_eq|set_solver]).
Qed.

Lemma nginx_State_eq (s s' : nginx.State) :
  nginx.sites_available s = nginx.sites_available s' ->
  nginx.sites_enabled s = nginx.sites_enabled s' -> s = s'.
Proof. destruct s, s'. cbn. congruence. Qed.

(** X13. RemoveConfig undoes WriteConfig, whatever WriteConfig returned:
    starting without a configuration for the name, a WriteConfig followed by
    a RemoveConfig whose two removals are not refused leads back to the
    configurations there were.  The only error RemoveConfig returns is that
    of the reload; a missing configuration is not one. *)
Theorem RemoveConfig_undoes_WriteConfig f1 f2 params s :
  no_route (nginx.Name params) s ->
  removal_succeeds f2 ->
  snd (nginx.RemoveConfig f2 (nginx.Name params)
         (snd (nginx.WriteConfig f1 params s))) = s
  /\ (fst (nginx.RemoveConfig f2 (nginx.Name params)
             (snd (nginx.WriteConfig f1 params s))) = None
      <-> f2 NgxReload = false).
Proof.
  intros [Ha He] Hrm. split.
  - pose proof (RemoveConfig_removed f2 (nginx.Name params)
                  (snd (nginx.WriteConfig f1 params s)) Hrm) as [Ha' He'].
    assert (Hframe : same_routes_but (nginx.Name params) s
              (snd (nginx.RemoveConfig f2 (nginx.Name params)
                      (snd (nginx.WriteConfig f1 params s))))).
    { eapply same_routes_but_trans; [apply WriteConfig_frame|].
      unfold nginx.RemoveConfig, nginx.remove_enabled, nginx.remove_site, same_routes_but.
      repeat case_match; cbn; intros n Hn;
        (split; [rewrite ?lookup_delete_ne by congruence; reflexivity|set_solver]). }
    apply nginx_State_eq.
    + apply map_eq. intros n. destruct (decide (n = nginx.Name params)) as [->|Hn].
      * congruence.
      * apply Hframe. exact Hn.
    + apply set_eq. intros n. destruct (decide (n = nginx.Name params)) as [->|Hn].
      * tauto.
      * apply Hframe. exact Hn.
  - unfold nginx.RemoveConfig. destruct (f2 NgxReload); cbn; split; congruence.
Qed.

Lemma all_name_chars_In s c :
  db.all_name_chars s = true -> In c (list_ascii_of_string s) ->
  db.is_name_char c = true.
Proof.
  induction s as [|a s IH]; simpl; [tauto|].
  intros H [<-|Hin]; apply andb_true_iff in H as [Ha Hs]; auto.
Qed.

Lemma is_alnum_name_char c : db.is_alnum c = true -> db.is_name_char c = true.
Proof. unfold db.is_name_char. intros ->. reflexivity. Qed.

(** X14. A name accepted by ValidateServiceName is not empty, starts with a
    letter or digit, and holds only letters, digits, underscores and
    hyphens: in particular no quote, backquote, slash, backslash, dot, blank,
    semicolon or line feed, the characters that would end the quoted
    identifiers of the SQL statements or leave the directories built from
    the name. *)
Theorem validated_name_is_safe name :
  db.ValidateServiceName name = None ->
  (exists c rest, name = String c rest /\ db.is_alnum c = true)
  /\ forall c, In c (list_ascii_of_string name) ->
       db.is_name_char c = true /\ ~ In c unsafe_chars.
Proof.
  unfold db.ValidateServiceName. destruct (db.validName name) eqn:Hv; [|discriminate].
  intros _. destruct name as [|c0 rest]; [discriminate|]. cbn in Hv.
  apply andb_true_iff in Hv as [H0 Hrest]. split; [eauto|].
  intros c Hin.
  assert (Hc : db.is_name_char c = true).
  { destruct Hin as [<-|Hin]; [apply is_alnum_name_char; exact H0|].
    eapply all_name_chars_In; eauto. }
  split; [exact Hc|]. intros Hbad. unfold unsafe_chars in Hbad. simpl in Hbad.
  repeat (destruct Hbad as [<-|Hbad]; [vm_compute in Hc; discriminate|]).
  exact Hbad.
Qed.

Lemma db_State_eq (s s' : db.State) :
  db.databases s = db.databases s' -> db.users s = db.users s' -> s = s'.
Proof. destruct s, s'. cbn. congruence. Qed.

Lemma CreateDatabase_success f random name s res s' :
  db.CreateDatabase f random name s = (Ok res, s') ->
  db.validName name = true
  /\ res = {| db.DBName := "gc_" ++ name; db.DBUser := "gc_" ++ name;
              db.Password := random |}
  /\ ("gc_" ++ name ∉ db.databases s) /\ ("gc_" ++ name ∉ db.users s)
  /\ db.databases s' = {["gc_" ++ name]} ∪ db.databases s
  /\ db.users s' = {["gc_" ++ name]} ∪ db.users s.
Proof.
  unfold db.CreateDatabase, db.ValidateServiceName, db.DatabaseExists, creds.Generate,
    db.drop_database, db.drop_user.
  destruct (db.validName name); cbn; [|discriminate].
  destruct (f DbExistsQuery); [discriminate|].
  case_bool_decide as Hdb; [discriminate|].
  destruct (f RandInt); [discriminate|].
  destruct (f DbCreateDatabase); [discriminate|]. cbn.
  destruct (f DbCreateUser); cbn; [case_match; discriminate|].
  case_bool_decide as Hu; [case_match; discriminate|].
  destruct (f DbGrant); [repeat case_match; discriminate|].
  destruct (f DbFlush); [discriminate|].
  intros [= <- <-]. cbn. repeat split; auto.
Qed.

(** X15. CreateDatabase is all or nothing, except for the flush.  When it
    succeeds, the name is valid, no database and no principal gc_<name>
    existed before, both exist afterwards and the result carries their names
    and the generated password.  When it fails at any statement before
    FLUSH PRIVILEGES and its clean-up statements are not refused, the
    server is as before; in particular an existing database is never
    touched.  When only FLUSH PRIVILEGES fails, an error is returned but the
    database and the principal stay. *)
Theorem CreateDatabase_all_or_nothing f random name s :
  (forall res s', db.CreateDatabase f random name s = (Ok res, s') ->
     db.validName name = true
     /\ res = {| db.DBName := "gc_" ++ name; db.DBUser := "gc_" ++ name;
                 db.Password := random |}
     /\ ("gc_" ++ name ∉ db.databases s) /\ ("gc_" ++ name ∉ db.users s)
     /\ db.databases s' = {["gc_" ++ name]} ∪ db.databases s
     /\ db.users s' = {["gc_" ++ name]} ∪ db.users s)
  /\ (forall e s', db.CreateDatabase f random name s = (Fail e, s') ->
      cleanup_succeeds f ->
      e <> Wrapf "flushing privileges" [] (ErrExternal DbFlush) ->
      s' = s)
  /\ (forall s', db.CreateDatabase f random name s
                 = (Fail (Wrapf "flushing privileges" [] (ErrExternal DbFlush)), s') ->
      db.databases s' = {["gc_" ++ name]} ∪ db.databases s
      /\ db.users s' = {["gc_" ++ name]} ∪ db.users s)
  /\ ("gc_" ++ name ∈ db.databases s ->
      exists e, db.CreateDatabase f random name s = (Fail e, s)).
Proof.
  split; [intros res s'; apply CreateDatabase_success|].
  unfold db.CreateDatabase, db.ValidateServiceName, db.DatabaseExists, creds.Generate,
    db.drop_database, db.drop_user, cleanup_succeeds.
  destruct (db.validName name); cbn.
  2:{ split; [intros e s' [= <- <-]; reflexivity|].
      split; [discriminate|eauto]. }
  destruct (f DbExistsQuery).
  { split; [intros e s' [= <- <-]; reflexivity|].
    split; [discriminate|eauto]. }
  case_bool_decide as Hdb.
  { split; [intros e s' [= <- <-]; reflexivity|].
    split; [discriminate|eauto]. }
  split; [|split; [|tauto]].
  - intros e s' Hrun (C1 & C2 & C3) Hne. revert Hrun. rewrite C1, C2, C3.
    repeat case_match; cbn; intros ?; simplify_eq; try reflexivity;
      try congruence;
      repeat match goal with
             | H : _ || _ = false |- _ => apply orb_false_iff in H as [? ?]
             | H : bool_decide _ = false |- _ => apply bool_decide_eq_false in H
             end;
      apply db_State_eq; cbn; set_solver.
  - intros s'. repeat case_match; cbn; intros ?; simplify_eq; cbn; auto.
Qed.

(** X16. DropDatabase undoes CreateDatabase: after a successful CreateDatabase
    a successful DropDatabase for the same name leads back to the server as
    it was.  DropDatabase does not require the database or the principal to
    exist, and when it succeeds neither exists. *)
Theorem DropDatabase_undoes_CreateDatabase f1 f2 random name s :
  (forall res s1 s2,
     db.CreateDatabase f1 random name s = (Ok res, s1) ->
     db.DropDatabase f2 name s1 = (None, s2) -> s2 = s)
  /\ (forall s2, db.DropDatabase f2 name s = (None, s2) ->
      ("gc_" ++ name ∉ db.databases s2) /\ ("gc_" ++ name ∉ db.users s2)
      /\ db.databases s2 = db.databases s ∖ {["gc_" ++ name]}
      /\ db.users s2 = db.users s ∖ {["gc_" ++ name]})
  /\ (db.validName name = true -> f2 DbDropUser = false -> f2 DbDropDatabase = false ->
      fst (db.DropDatabase f2 name s) = None).
Proof.
  assert (Hdrop : forall s0 s2, db.DropDatabase f2 name s0 = (None, s2) ->
            db.databases s2 = db.databases s0 ∖ {["gc_" ++ name]}
            /\ db.users s2 = db.users s0 ∖ {["gc_" ++ name]}).
  { intros s0 s2. unfold db.DropDatabase, db.ValidateServiceName, db.drop_database,
      db.drop_user.
    repeat case_match; cbn; intros [= <-]; cbn; auto. }
  split; [|split].
  - intros res s1 s2 Hc Hd.
    apply CreateDatabase_success in Hc as (_ & _ & Hdb & Hu & Hd1 & Hu1).
    apply Hdrop in Hd as [Hd2 Hu2]. apply db_State_eq.
    + rewrite Hd2, Hd1. set_solver.
    + rewrite Hu2, Hu1. set_solver.
  - intros s2 Hd. apply Hdrop in Hd as [Hd2 Hu2]. rewrite Hd2, Hu2.
    repeat split; set_solver.
  - intros Hv H1 H2. unfold db.DropDatabase, db.ValidateServiceName.
    rewrite Hv, H1, H2. reflexivity.
Qed.

(** X17. FindAsset succeeds exactly when the expected name is among the
    assets of the release, and then returns that name. *)
Theorem FindAsset_iff assets expected a :
  github.FindAsset assets expected = Ok a <-> a = expected /\ In expected assets.
Proof.
  induction assets as [|x assets IH]; simpl.
  - split; [discriminate|tauto].
  - destruct (String.eqb_spec x expected) as [->|Hne].
    + split; [intros [= <-]; auto|intros [-> _]; reflexivity].
    + rewrite IH. split; [tauto|]. intros [-> [?|?]]; [contradiction|auto].
Qed.

Lemma FindAsset_missing assets expected :
  ~ In expected assets ->
  github.FindAsset assets expected
  = Fail (Errorf "no asset matching found; available assets" [expected]).
Proof.
  induction assets as [|x assets IH]; simpl; [reflexivity|].
  intros Hn. destruct (String.eqb_spec x expected) as [->|Hne]; [tauto|].
  apply IH. tauto.
Qed.

Lemma existsb_eqb_In expected assets :
  existsb (String.eqb expected) assets = true <-> In expected assets.
Proof.
  rewrite List.existsb_exists. split.
  - intros (x & Hin & Heq). apply String.eqb_eq in Heq. congruence.
  - intros Hin. exists expected. split; [exact Hin|apply String.eqb_refl].
Qed.

(** X18. What DownloadAsset leaves behind.  When it returns a path, the path
    is that of the versioned file, the asset named by the pattern is part of
    the release, the versioned file exists besides the files there were, and
    the symlink of the service points to the version.  Whatever it returns,
    no versioned file is removed and the symlinks of the other services are
    untouched.  When the release does not hold the expected asset, nothing
    is written. *)
Theorem DownloadAsset_outcomes c api f owner repo version name s :
  (forall path s',
     github.DownloadAsset c api f owner repo version name s = (Ok path, s') ->
     path = github.binPath name version
     /\ (exists expected, github.assetTmpl c name version = Ok expected
           /\ In expected (github.release_assets api (effective_owner c owner)
                             repo version))
     /\ github.artifacts s' = {[(name, version)]} ∪ github.artifacts s
     /\ github.symlinks s' !! name = Some version)
  /\ (github.artifacts s
        ⊆ github.artifacts (snd (github.DownloadAsset c api f owner repo version name s))
      /\ forall n, n <> name ->
           github.symlinks (snd (github.DownloadAsset c api f owner repo version name s))
             !! n = github.symlinks s !! n)
  /\ (forall expected, github.assetTmpl c name version = Ok expected ->
      ~ In expected (github.release_assets api (effective_owner c owner) repo version) ->
      exists e, github.DownloadAsset c api f owner repo version name s = (Fail e, s)).
Proof.
  unfold github.DownloadAsset, github.ResolveAssetName. fold (effective_owner c owner).
  split; [|split].
  - intros path s'.
    destruct (f GhGetReleaseByTag); [discriminate|].
    destruct (github.assetTmpl c name version) as [expected|]; [|discriminate].
    destruct (existsb _ _) eqn:Hex; cbn; [|case_match; discriminate].
    apply existsb_eqb_In in Hex.
    repeat case_match; cbn; try discriminate.
    all: intros [= <- <-]; cbn; split; [reflexivity|];
      (split; [eauto|]); (split; [reflexivity|]); apply lookup_insert_eq.
  - repeat case_match; cbn; (split; [set_solver|]); intros n Hn;
      rewrite ?lookup_insert_ne, ?lookup_delete_ne by congruence; reflexivity.
  - intros expected -> Hn.
    destruct (f GhGetReleaseByTag); [eauto|].
    destruct (existsb _ _) eqn:Hex; cbn.
    + apply existsb_eqb_In in Hex. contradiction.
    + rewrite (FindAsset_missing _ _ Hn). eauto.
Qed.

Lemma Split_slash_shape s :
  exists h t, gostrings.Split_slash s = h :: t
    /\ gostrings.Contains_slash h = false
    /\ ((t = [] /\ s = h)
        \/ (t <> [] /\ gostrings.Contains_slash (List.last t "") = false
            /\ exists p, s = p ++ "/" ++ List.last t "")).
Proof.
  induction s as [|c rest (h & t & Hs & Hh & IH)]; simpl.
  - exists "", []. auto.
  - destruct (Ascii.eqb_spec c "/") as [->|Hc].
    + exists "", (h :: t). rewrite Hs. split; [reflexivity|]. split; [reflexivity|].
      right. split; [discriminate|].
      destruct IH as [[-> ->]|(Ht & Hl & p & ->)].
      * split; [exact Hh|]. exists "". reflexivity.
      * destruct t as [|x t]; [contradiction|].
        split; [exact Hl|]. exists (String "/" p). reflexivity.
    + rewrite Hs. exists (String c h), t. split; [reflexivity|]. split.
      { simpl. apply Ascii.eqb_neq in Hc. rewrite Hc. exact Hh. }
      destruct IH as [[-> ->]|(Ht & Hl & p & ->)]; [auto|].
      right. split; [exact Ht|]. split; [exact Hl|]. exists (String c p). reflexivity.
Qed.

Lemma SplitN2_slash_spec s :
  gostrings.Contains_slash s = true ->
  s = fst (gostrings.SplitN2_slash s) ++ "/" ++ snd (gostrings.SplitN2_slash s)
  /\ gostrings.Contains_slash (fst (gostrings.SplitN2_slash s)) = false.
Proof.
  induction s as [|c rest IH]; simpl; [discriminate|].
  destruct (Ascii.eqb_spec c "/") as [->|Hc]; simpl; [auto|].
  intros Hrest. destruct (IH Hrest) as [Heq Hno].
  destruct (gostrings.SplitN2_slash rest) as [a b]. simpl in *.
  apply Ascii.eqb_neq in Hc. split.
  - change (String c rest = String c (a ++ "/" ++ b)). f_equal. exact Heq.
  - simpl. rewrite Hc. exact Hno.
Qed.

(** X19. How Deploy names a service and addresses the repository.  A name
    given in the request is used as it is.  Otherwise the name is the text
    after the last slash of the repository argument (the whole argument when
    it has no slash) and never holds a slash.  An argument with a slash is
    cut at its first slash into owner and repository; an argument without
    one is the repository, with the owner of the request. *)
Theorem deploy_name_derivation req :
  (DeployRequest.Name req <> "" -> deploy_name req = DeployRequest.Name req)
  /\ (DeployRequest.Name req = "" ->
      gostrings.Contains_slash (deploy_name req) = false
      /\ (DeployRequest.Repo req = deploy_name req
          \/ exists p, DeployRequest.Repo req = p ++ "/" ++ deploy_name req))
  /\ (gostrings.Contains_slash (DeployRequest.Repo req) = true ->
      DeployRequest.Repo req
      = fst (deploy_owner_repo req) ++ "/" ++ snd (deploy_owner_repo req)
      /\ gostrings.Contains_slash (fst (deploy_owner_repo req)) = false)
  /\ (gostrings.Contains_slash (DeployRequest.Repo req) = false ->
      deploy_owner_repo req = (DeployRequest.Owner req, DeployRequest.Repo req)
      /\ (DeployRequest.Name req = "" -> deploy_name req = DeployRequest.Repo req)).
Proof.
  unfold deploy_name, deploy_owner_repo.
  destruct (Split_slash_shape (DeployRequest.Repo req))
    as (h & t & Hs & Hh & Hshape). rewrite Hs.
  split; [|split; [|split]].
  - intros Hn. apply String.eqb_neq in Hn. rewrite Hn. reflexivity.
  - intros ->. cbn [String.eqb].
    destruct Hshape as [[-> ->]|(Ht & Hl & p & Hp)]; cbn [List.last]; [auto|].
    destruct t as [|x t]; [contradiction|]. split; [exact Hl|]. right. eauto.
  - intros Hc. rewrite Hc. apply SplitN2_slash_spec. exact Hc.
  - intros Hc. rewrite Hc. split; [reflexivity|]. intros ->. cbn [String.eqb].
    destruct Hshape as [[-> ->]|(Ht & Hl & p & Hp)]; [reflexivity|].
    exfalso. rewrite Hp in Hc. clear -Hc.
    induction p as [|c p IH]; simpl in Hc; [discriminate|].
    apply orb_false_iff in Hc as [_ Hc]. auto.
Qed.

(** X20. Deploy checks before it acts: when the name is not valid, when a
    record of that name can be read, when the version cannot be resolved or
    when no port can be assigned, Deploy returns an error and the host is
    left exactly as it was, with no call issued to any manager. *)
Theorem Deploy_prechecks_leave_host_untouched o env req w :
  db.validName (deploy_name req) = false
  \/ (exists svc, state.GetService (fails env D_GetService SqlExec)
                    (deploy_name req) (store w) = Ok svc)
  \/ (exists e, deploy_version o env req = Fail e)
  \/ (exists e, deploy_port o env req w = Fail e) ->
  exists e, Deploy o env req w = (Fail e, w).
Proof.
  intros H. unfold Deploy, DeployRun, db.ValidateServiceName.
  destruct (db.validName (deploy_name req)) eqn:Hv; cbn [negb]; [|eauto].
  destruct H as [H|H]; [discriminate|].
  destruct (state.GetService _ _ _) as [svc|e0] eqn:Hg; [eauto|].
  destruct H as [[svc H]|H]; [discriminate|].
  fold (deploy_version o env req).
  destruct (deploy_version o env req) as [version|e1] eqn:Hver; [|eauto].
  destruct H as [[e H]|[e H]]; [discriminate|].
  fold (deploy_port o env req w). rewrite H. eauto.
Qed.

(** X21. Upgrade, Rollback and Remove refuse a service whose record cannot be
    read: whatever the reason GetService failed for, they report the service
    as not found and leave the host exactly as it was.  Rollback also
    refuses a service that has no previous version, again without touching
    anything. *)
Theorem workflows_refuse_unknown_service o env w name e :
  (forall req, up_Name req = name ->
     state.GetService (fails env U_GetService SqlExec) name (store w) = Fail e ->
     Upgrade o env req w = (Fail (not_found name), w))
  /\ (state.GetService (fails env R_GetService SqlExec) name (store w) = Fail e ->
      Rollback env name w = (Fail (not_found name), w))
  /\ (forall req, rm_Name req = name ->
      state.GetService (fails env M_GetService SqlExec) name (store w) = Fail e ->
      Remove env req w = (Some (not_found name), w))
  /\ (forall svc,
      state.GetService (fails env R_GetService SqlExec) name (store w) = Ok svc ->
      state.PrevVersion svc = "" ->
      Rollback env name w
      = (Fail (Errorf "service has no previous version to roll back to" [name]), w)).
Proof.
  split; [|split; [|split]].
  - intros req <- Hg. unfold Upgrade. rewrite Hg. reflexivity.
  - intros Hg. unfold Rollback. rewrite Hg. reflexivity.
  - intros req <- Hg. unfold Remove. rewrite Hg. reflexivity.
  - intros svc Hg Hp. unfold Rollback. rewrite Hg, Hp. reflexivity.
Qed.

(** X22. pruneVersions never removes the file of the current or of the
    previous version, a file of another service, or a symlink; when the
    directory can be read and no removal is refused, the current and the
    previous version are the only versioned files of the service left. *)
Theorem pruneVersions_keeps_current_and_previous f name current previous s :
  (forall n v, (n, v) ∈ github.artifacts s ->
     n <> name \/ v = current \/ v = previous ->
     (n, v) ∈ github.artifacts (snd (pruneVersions f name current previous s)))
  /\ github.artifacts (snd (pruneVersions f name current previous s))
       ⊆ github.artifacts s
  /\ github.symlinks (snd (pruneVersions f name current previous s))
     = github.symlinks s
  /\ (f OsReadDir = false -> (forall v, f (OsRemoveEntry v) = false) ->
      forall v, (name, v) ∈ github.artifacts (snd (pruneVersions f name current previous s))
                <-> (name, v) ∈ github.artifacts s /\ (v = current \/ v = previous)).
Proof.
  unfold pruneVersions. destruct (f OsReadDir); cbn.
  - split; [auto|]. split; [reflexivity|]. split; [reflexivity|discriminate].
  - split; [|split; [|split]].
    + intros n v Hin Hkeep. apply elem_of_filter. cbn. split; [tauto|exact Hin].
    + intros p Hp. apply elem_of_filter in Hp. tauto.
    + reflexivity.
    + intros _ Hrm v. rewrite elem_of_filter. cbn. rewrite Hrm.
      split; [intros [[?|[?|[?|?]]] ?]; try tauto; try discriminate|tauto].
Qed.

Lemma AppendHistory_history io entry st :
  state.history (snd (state.AppendHistory io entry st)) = state.history st
  \/ exists h, state.history (snd (state.AppendHistory io entry st))
               = (state.history st ++ [h])%list
       /\ state.h_service h = state.HService entry
       /\ state.h_action h = state.Action entry
       /\ state.h_version h = state.to_column (state.nullString (state.HVersion entry)).
Proof.
  unfold state.AppendHistory.
  destruct (state.marshalJSON (state.Detail entry)); [|auto].
  destruct io; [auto|]. right. cbn. eexists. split; [reflexivity|]. cbn. auto.
Qed.

Lemma deploy_record_Ok env req name version port routeType dbResult result completed w res j w' :
  deploy_record env req name version port routeType dbResult result completed w
  = (Ok res, j, w') ->
  res = result /\ j = completed
  /\ recorded name version port (store w) (store w')
  /\ bin w' = bin w /\ etc w' = etc w /\ sd w' = sd w /\ ngx w' = ngx w
  /\ maria w' = maria w.
Proof.
  unfold deploy_record. cbv zeta.
  match goal with |- context [state.InsertService ?io ?svc] =>
    set (io0 := io); set (svc0 := svc) end.
  destruct (fst (on_store (CallInsertService name) (state.InsertService io0 svc0) w))
    as [err|] eqn:Hins; [unfold abort; discriminate|].
  intros [= <- <- <-]. autorewrite with world in *.
  destruct (state.InsertService io0 svc0 (store w)) as [r st1] eqn:Hi.
  cbn [fst snd] in *. subst r.
  apply InsertService_None_inv in Hi as (Hname & Hport & ns & Hm & ->).
  repeat split; auto; cbn [store].
  - exists (state.row_of svc0 ns (unix_sec (state.DeployedAt svc0))).
    rewrite AppendHistory_services'. cbn. repeat split.
  - match goal with |- context [state.AppendHistory ?io ?e ?st] =>
      destruct (AppendHistory_history io e st) as [H|(h & H & H1 & H2 & H3)] end.
    + left. exact H.
    + right. exists h. auto.
Qed.

Lemma deploy_route_Ok env req name version port routeType dbResult completed w res j w' :
  deploy_route env req name version port routeType dbResult completed w
  = (Ok res, j, w') ->
  recorded name version port (store w) (store w')
  /\ bin w' = bin w /\ etc w' = etc w /\ sd w' = sd w /\ maria w' = maria w
  /\ DeployResult.DBName res
     = match dbResult with Some r => db.DBName r | None => "" end
  /\ DeployResult.Name res = name /\ DeployResult.Version res = version
  /\ DeployResult.Port res = port
  /\ if String.eqb (DeployRequest.Route req) "" then
       ngx w' = ngx w /\ DeployResult.NginxSkip res = true
       /\ DeployResult.NginxWarn res = ""
     else
       ngx w' = snd (nginx.WriteConfig (fails env D_WriteConfig)
                       {| nginx.Name := name; nginx.RouteType := routeType;
                          nginx.RouteValue := DeployRequest.Route req;
                          nginx.Port := port |} (ngx w))
       /\ (DeployResult.NginxSkip res = false ->
           DeployResult.Route res = DeployRequest.Route req
           /\ DeployResult.RouteType res = routeType
           /\ fst (nginx.WriteConfig (fails env D_WriteConfig)
                     {| nginx.Name := name; nginx.RouteType := routeType;
                        nginx.RouteValue := DeployRequest.Route req;
                        nginx.Port := port |} (ngx w)) = None).
Proof.
  unfold deploy_route.
  destruct (String.eqb (DeployRequest.Route req) "") eqn:Hroute; cbn [negb].
  - intros H. apply deploy_record_Ok in H
      as (-> & -> & Hrec & Hb & He & Hs & Hn & Hm). cbn. auto 12.
  - cbn [on_ngx fst snd].
    destruct (fst (nginx.WriteConfig _ _ (ngx w))) as [err|] eqn:Hw;
      intros H; apply deploy_record_Ok in H
        as (-> & -> & Hrec & Hb & He & Hs & Hn & Hm); cbn in *.
    + split; [exact Hrec|]. repeat split; auto; intros; discriminate.
    + split; [exact Hrec|]. repeat split; auto.
Qed.

Lemma WriteUnit_units f name s :
  fst (systemd.WriteUnit f name s) = None ->
  name ∈ systemd.units (snd (systemd.WriteUnit f name s)).
Proof.
  unfold systemd.WriteUnit. destruct (f SdWriteFile); [discriminate|].
  intros _. cbn. set_solver.
Qed.

Lemma DaemonReload_state f s : snd (systemd.DaemonReload f s) = s.
Proof. unfold systemd.DaemonReload. destruct (f SdSystemctl); reflexivity. Qed.

Lemma Enable_enabled f name s :
  fst (systemd.Enable f name s) = None ->
  name ∈ systemd.enabled (snd (systemd.Enable f name s))
  /\ systemd.units (snd (systemd.Enable f name s)) = systemd.units s.
Proof.
  unfold systemd.Enable. destruct (f SdSystemctl); [discriminate|].
  intros _. cbn. split; [set_solver|reflexivity].
Qed.

Lemma Start_active f name s :
  fst (systemd.Start f name s) = None ->
  name ∈ systemd.active (snd (systemd.Start f name s))
  /\ systemd.units (snd (systemd.Start f name s)) = systemd.units s
  /\ systemd.enabled (snd (systemd.Start f name s)) = systemd.enabled s.
Proof.
  unfold systemd.Start. destruct (f SdSystemctl); [discriminate|].
  destruct (f SdNeverActive); [discriminate|].
  intros _. cbn. split; [set_solver|split; reflexivity].
Qed.

Lemma unit_installed f1 f2 f3 f4 f5 name s :
  fst (systemd.WriteUnit f2 name (snd (systemd.CreateUser f1 name s))) = None ->
  fst (systemd.Enable f4 name
         (snd (systemd.DaemonReload f3
                 (snd (systemd.WriteUnit f2 name
                         (snd (systemd.CreateUser f1 name s))))))) = None ->
  fst (systemd.Start f5 name
         (snd (systemd.Enable f4 name
                 (snd (systemd.DaemonReload f3
                         (snd (systemd.WriteUnit f2 name
                                 (snd (systemd.CreateUser f1 name s))))))))) = None ->
  let s' := snd (systemd.Start f5 name
                   (snd (systemd.Enable f4 name
                           (snd (systemd.DaemonReload f3
                                   (snd (systemd.WriteUnit f2 name
                                           (snd (systemd.CreateUser f1 name s)))))))))
  in name ∈ systemd.units s' /\ name ∈ systemd.enabled s'
     /\ name ∈ systemd.active s'.
Proof.
  intros H2 H4 H5. cbv zeta. rewrite DaemonReload_state in *.
  destruct (Start_active _ _ _ H5) as (Ha & Hu & He).
  destruct (Enable_enabled _ _ _ H4) as (He' & Hu').
  rewrite Hu, He, Hu'.
  split; [apply WriteUnit_units; exact H2|]. split; assumption.
Qed.

Lemma deploy_unit_Ok env req name version port routeType dbResult completed w res j w' :
  deploy_unit env req name version port routeType dbResult completed w
  = (Ok res, j, w') ->
  exists w1,
    deploy_route env req name version port routeType dbResult
      (completed ++ [Systemd])%list w1 = (Ok res, j, w')
    /\ store w1 = store w /\ bin w1 = bin w /\ etc w1 = etc w
    /\ ngx w1 = ngx w /\ maria w1 = maria w
    /\ name ∈ systemd.units (sd w1) /\ name ∈ systemd.enabled (sd w1)
    /\ name ∈ systemd.active (sd w1).
Proof.
  unfold deploy_unit. cbn [on_sd fst snd sd].
  destruct (fst (systemd.CreateUser _ _ _)) eqn:H1; [unfold abort; discriminate|].
  destruct (fst (systemd.WriteUnit _ _ _)) eqn:H2; [unfold abort; discriminate|].
  destruct (fst (systemd.DaemonReload _ _)) eqn:H3; [unfold abort; discriminate|].
  destruct (fst (systemd.Enable _ _ _)) eqn:H4; [unfold abort; discriminate|].
  destruct (fst (systemd.Start _ _ _)) eqn:H5; [unfold abort; discriminate|].
  intros H. eexists. split; [exact H|]. cbn [store bin etc ngx maria sd].
  repeat split; try reflexivity;
    apply (unit_installed _ _ _ _ _ _ _ H2 H4 H5).
Qed.

Lemma env_written fmt f1 f2 name content e :
  fst (mkdirEnvDir f1 name e) = None ->
  fst (creds.write fmt f2 name content (snd (mkdirEnvDir f1 name e))) = None ->
  let e' := snd (creds.write fmt f2 name content (snd (mkdirEnvDir f1 name e))) in
  name ∈ creds.envdirs e'
  /\ creds.envfiles e' !! name = Some (fmt, creds.Entries content).
Proof.
  unfold mkdirEnvDir, creds.write.
  repeat case_match; cbn; try discriminate; intros; split;
    try set_solver; apply lookup_insert_eq.
Qed.

Lemma deploy_env_Ok o env req name version port routeType dbResult completed w res j w' :
  deploy_env o env req name version port routeType dbResult completed w
  = (Ok res, j, w') ->
  exists w1,
    deploy_unit env req name version port routeType dbResult
      (completed ++ [Envfile])%list w1 = (Ok res, j, w')
    /\ store w1 = store w /\ bin w1 = bin w /\ sd w1 = sd w
    /\ ngx w1 = ngx w /\ maria w1 = maria w
    /\ name ∈ creds.envdirs (etc w1)
    /\ creds.envfiles (etc w1) !! name
       = Some (if DeployRequest.ConfigFile req then creds.TOML else creds.EnvLines,
               deploy_envEntries o req port dbResult).
Proof.
  unfold deploy_env. cbv zeta. cbn [on_etc fst snd etc].
  fold (deploy_envEntries o req port dbResult).
  destruct (fst (mkdirEnvDir _ _ _)) eqn:H1; [unfold abort; discriminate|].
  destruct (DeployRequest.ConfigFile req);
    (destruct (fst (_ (fails env D_WriteEnv) _ _ _)) eqn:H2;
       [unfold abort; discriminate|]);
    intros H; eexists; (split; [exact H|]); cbn [store bin etc ngx maria sd];
    repeat split; try reflexivity;
    apply (env_written _ _ _ _ _ _ H1 H2).
Qed.

Lemma deploy_database_Ok o env req name version port routeType w res j w' :
  deploy_database o env req name version port routeType [Binary] w
  = (Ok res, j, w') ->
  exists completed w1,
    deploy_env o env req name version port routeType (deploy_dbResult env req name)
      completed w1 = (Ok res, j, w')
    /\ store w1 = store w /\ bin w1 = bin w /\ etc w1 = etc w /\ sd w1 = sd w
    /\ ngx w1 = ngx w
    /\ if DeployRequest.NoDB req then maria w1 = maria w
       else ("gc_" ++ name ∉ db.databases (maria w))
            /\ "gc_" ++ name ∈ db.databases (maria w1)
            /\ "gc_" ++ name ∈ db.users (maria w1).
Proof.
  unfold deploy_database, deploy_dbResult.
  destruct (DeployRequest.NoDB req); cbn [negb].
  - intros H. eexists _, _. split; [exact H|]. auto 10.
  - cbn [on_maria fst snd].
    destruct (db.CreateDatabase (fails env D_CreateDatabase) (random env) name (maria w))
      as [[r|e] m1] eqn:Hc; cbn [fst snd]; [|unfold abort; discriminate].
    apply CreateDatabase_success in Hc as (_ & -> & Hdb & _ & Hd1 & Hu1).
    intros H. eexists _, _. split; [exact H|]. cbn [store bin etc sd ngx maria].
    repeat split; auto; set_solver.
Qed.

Lemma DownloadAsset_Ok c api f owner repo version name s path s' :
  github.DownloadAsset c api f owner repo version name s = (Ok path, s') ->
  (name, version) ∈ github.artifacts s'
  /\ github.symlinks s' !! name = Some version.
Proof.
  unfold github.DownloadAsset.
  repeat case_match; cbn; try discriminate.
  all: intros [= <- <-]; cbn; split; [set_solver|apply lookup_insert_eq].
Qed.

Lemma DeployRun_Ok o env req w res j w' :
  DeployRun o env req w = (Ok res, j, w') ->
  db.validName (deploy_name req) = true
  /\ exists version port w1,
       deploy_version o env req = Ok version
       /\ deploy_port o env req w = Ok port
       /\ deploy_database o env req (deploy_name req) version port
            (deploy_routeType req) [Binary] w1 = (Ok res, j, w')
       /\ store w1 = store w /\ etc w1 = etc w /\ sd w1 = sd w
       /\ ngx w1 = ngx w /\ maria w1 = maria w
       /\ (deploy_name req, version) ∈ github.artifacts (bin w1)
       /\ github.symlinks (bin w1) !! deploy_name req = Some version.
Proof.
  unfold DeployRun, db.ValidateServiceName.
  destruct (db.validName (deploy_name req)); cbn [negb]; [|discriminate].
  destruct (state.GetService _ _ _) as [svc|e0]; [discriminate|].
  fold (deploy_version o env req).
  destruct (deploy_version o env req) as [version|e1]; [|discriminate].
  fold (deploy_port o env req w).
  destruct (deploy_port o env req w) as [port|e2]; [|discriminate].
  fold (deploy_routeType req). cbn [on_bin fst snd].
  destruct (github.DownloadAsset _ _ _ _ _ _ _ _) as [[path|e3] b1] eqn:Hd;
    cbn [fst snd]; [|discriminate].
  apply DownloadAsset_Ok in Hd as [Ha Hl].
  intros H. split; [reflexivity|]. eexists version, port, _.
  split; [reflexivity|]. split; [reflexivity|]. split; [exact H|].
  cbn [store bin etc sd ngx maria]. auto 10.
Qed.

Lemma Deploy_Ok_inv o env req w res w' :
  Deploy o env req w = (Ok res, w') ->
  db.validName (deploy_name req) = true
  /\ exists version port,
       deploy_version o env req = Ok version
       /\ deploy_port o env req w = Ok port
       /\ DeployResult.Name res = deploy_name req
       /\ DeployResult.Version res = version
       /\ DeployResult.Port res = port
       /\ recorded (deploy_name req) version port (store w) (store w')
       /\ installed o env req (deploy_name req) version port w w' res.
Proof.
  unfold Deploy. destruct (DeployRun o env req w) as [[r j] w0] eqn:Hrun.
  cbn [fst snd]. intros [= -> ->].
  apply DeployRun_Ok in Hrun
    as (Hv & version & port & w1 & Hver & Hport & Hrun & S1 & E1 & D1 & N1 & M1 & Ha & Hl).
  apply deploy_database_Ok in Hrun
    as (c2 & w2 & Hrun & S2 & B2 & E2 & D2 & N2 & Hdb).
  apply deploy_env_Ok in Hrun
    as (w3 & Hrun & S3 & B3 & D3 & N3 & M3 & Hdir & Hfile).
  apply deploy_unit_Ok in Hrun
    as (w4 & Hrun & S4 & B4 & E4 & N4 & M4 & Hu & He & Hact).
  apply deploy_route_Ok in Hrun
    as (Hrec & B5 & E5 & D5 & M5 & Hdbn & Hn & Hvn & Hp & Hroute).
  split; [exact Hv|]. exists version, port.
  split; [exact Hver|]. split; [exact Hport|].
  split; [exact Hn|]. split; [exact Hvn|]. split; [exact Hp|].
  split.
  { rewrite S4, S3, S2, S1 in Hrec. exact Hrec. }
  constructor.
  - rewrite B5, B4, B3, B2. exact Ha.
  - rewrite B5, B4, B3, B2. exact Hl.
  - rewrite E5, E4. exact Hdir.
  - rewrite E5, E4. exact Hfile.
  - rewrite D5. exact Hu.
  - rewrite D5. exact He.
  - rewrite D5. exact Hact.
  - rewrite M5, M4, M3. unfold deploy_dbResult in Hdbn.
    destruct (DeployRequest.NoDB req).
    + congruence.
    + rewrite <- M1. destruct Hdb as (? & ? & ?). auto.
  - rewrite N4, N3, N2, N1 in Hroute. unfold deploy_params.
    destruct (String.eqb (DeployRequest.Route req) ""); [exact Hroute|].
    destruct Hroute as [Hngx Hskip]. split; [exact Hngx|].
    intros Hs. destruct (Hskip Hs) as (Hr1 & Hr2 & Hw). split; [exact Hr1|].
    split; [exact Hr2|]. rewrite Hngx.
    pose proof (WriteConfig_installed (fails env D_WriteConfig)
                  {| nginx.Name := deploy_name req;
                     nginx.RouteType := deploy_routeType req;
                     nginx.RouteValue := DeployRequest.Route req;
                     nginx.Port := port |} (ngx w)) as Hinst.
    destruct (nginx.RenderConfig _) as [content|e] eqn:Hrender.
    + exists content. split; [reflexivity|]. apply (Hinst content eq_refl). auto.
    + exfalso. unfold nginx.WriteConfig in Hw. rewrite Hrender in Hw. discriminate.
Qed.

(** X23. What a successful Deploy has recorded.  The name is valid and was
    not a key of the table, the port lies in the configured range and was
    not assigned (whether it was requested or chosen), exactly one row was
    appended for them with no previous version, and the history has grown
    by at most the entry of the deploy.  Hence Deploy keeps the uniqueness
    of names and ports in the table. *)
Theorem Deploy_success_record o env req w res w' :
  Deploy o env req w = (Ok res, w') ->
  db.validName (DeployResult.Name res) = true
  /\ in_range (ports o) (DeployResult.Port res)
  /\ recorded (DeployResult.Name res) (DeployResult.Version res)
       (DeployResult.Port res) (store w) (store w')
  /\ (DeployRequest.Port req <> 0 -> DeployResult.Port res = DeployRequest.Port req)
  /\ (store_wf (store w) -> store_wf (store w')).
Proof.
  intros H. apply Deploy_Ok_inv in H
    as (Hv & version & port & Hver & Hport & -> & -> & -> & Hrec & _).
  split; [exact Hv|]. split; [|split; [exact Hrec|split]].
  - unfold deploy_port in Hport. unfold in_range.
    destruct (DeployRequest.Port req =? 0).
    + apply (Next_spec (ports o) (store w)). 
      destruct (fails env D_Next SqlExec) eqn:Hio; [|exact Hport].
      discriminate Hport.
    + unfold ports.Request in Hport.
      destruct (_ || _) eqn:Hr; [discriminate|].
      assert (port = DeployRequest.Port req) as -> by (repeat case_match; congruence).
      apply orb_false_iff in Hr as [H1 H2].
      apply Z.ltb_ge in H1. apply Z.leb_gt in H2. lia.
  - intros Hne. unfold deploy_port in Hport. apply Z.eqb_neq in Hne.
    rewrite Hne in Hport. repeat case_match; congruence.
  - intros [Hn Hp]. destruct Hrec as (Hname & Hfree & (row & Hrows & Hrn & _ & Hrp & _) & _).
    split; rewrite Hrows, List.map_app; apply NoDup_snoc; auto; cbn;
      [rewrite Hrn; apply select_by_name_None; exact Hname|rewrite Hrp; exact Hfree].
Qed.

(** X24. What a successful Deploy has installed.  The versioned file exists
    and the symlink points to it; the env directory exists and holds the
    file in the requested format with the port, the coordinates of the new
    database and the extra environment of the request, which overrides the
    generated entries; the unit file exists, the unit is enabled and
    active; unless the request says --no-db, a database and a principal
    gc_<name> exist that did not exist before; and when the result reports
    the route as activated, the rendered configuration is installed and
    enabled. *)
Theorem Deploy_success_host o env req w res w' :
  Deploy o env req w = (Ok res, w') ->
  exists version port entries,
    deploy_version o env req = Ok version /\ deploy_port o env req w = Ok port
    /\ installed o env req (deploy_name req) version port w w' res
    /\ entries = deploy_envEntries o req port (deploy_dbResult env req (deploy_name req))
    /\ (forall extra k v, DeployRequest.ExtraEnv req = Some extra ->
          extra !! k = Some v -> entries !! k = Some v)
    /\ ((forall extra, DeployRequest.ExtraEnv req = Some extra ->
           extra !! "PORT" = None) ->
        entries !! "PORT" = Some (pretty port))
    /\ (DeployRequest.NoDB req = false ->
        (forall extra, DeployRequest.ExtraEnv req = Some extra ->
           extra !! "DB_NAME" = None /\ extra !! "DB_PASSWORD" = None) ->
        entries !! "DB_NAME" = Some ("gc_" ++ deploy_name req)
        /\ entries !! "DB_PASSWORD" = Some (random env)).
Proof.
  intros H. apply Deploy_Ok_inv in H
    as (Hv & version & port & Hver & Hport & _ & _ & _ & _ & Hinst).
  exists version, port,
    (deploy_envEntries o req port (deploy_dbResult env req (deploy_name req))).
  split; [exact Hver|]. split; [exact Hport|].
  split; [exact Hinst|]. split; [reflexivity|].
  unfold deploy_envEntries, deploy_dbResult. split; [|split].
  - intros extra k v -> Hk. apply lookup_union_Some_l. exact Hk.
  - intros Hno. destruct (DeployRequest.ExtraEnv req) as [extra|].
    + rewrite lookup_union_r by (apply Hno; reflexivity).
      destruct (DeployRequest.NoDB req); reflexivity.
    + destruct (DeployRequest.NoDB req); reflexivity.
  - intros -> Hno. destruct (DeployRequest.ExtraEnv req) as [extra|].
    + destruct (Hno extra eq_refl) as [H1 H2].
      rewrite !lookup_union_r by assumption. split; reflexivity.
    + split; reflexivity.
Qed.

Lemma GetService_name io name st svc :
  state.GetService io name st = Ok svc -> state.Name svc = name.
Proof.
  intros H. apply GetService_inv in H as (row & Hsel & Hn & _).
  apply find_some_name in Hsel as [_ Hrow]. congruence.
Qed.

Lemma updateSymlink_None f name version b :
  fst (updateSymlink f name version b) = None ->
  github.symlinks (snd (updateSymlink f name version b)) !! name = Some version
  /\ github.artifacts (snd (updateSymlink f name version b)) = github.artifacts b.
Proof.
  unfold updateSymlink, unlink.
  repeat case_match; cbn; try discriminate; intros _;
    (split; [apply lookup_insert_eq|reflexivity]).
Qed.

Lemma UpdateService_versions io svc st st' :
  state.UpdateService io svc st = (None, st') ->
  exists row, state.select_by_name (state.Name svc) st' = Some row
    /\ state.c_version row = state.Version svc
    /\ state.NString (state.scan_NullString (state.c_prev_version row))
       = state.PrevVersion svc.
Proof.
  unfold state.UpdateService.
  destruct (marshalJSON_ok (state.ExtraEnv svc)) as [ns ->].
  destruct io; [discriminate|].
  destruct (state.select_by_name (state.Name svc) st) as [row|] eqn:Hsel;
    [|discriminate].
  destruct (state.port_taken_by_other svc st); [discriminate|].
  intros [= <-]. eexists. split.
  - unfold state.select_by_name in *. cbn.
    apply (update_rows_find svc ns _ row (state.Name svc) eq_refl Hsel).
  - cbn. split; [reflexivity|apply nullString_scan].
Qed.

Lemma pruneVersions_frame f name current previous s :
  (forall n v, (n, v) ∈ github.artifacts s ->
     n <> name \/ v = current \/ v = previous ->
     (n, v) ∈ github.artifacts (snd (pruneVersions f name current previous s)))
  /\ github.artifacts (snd (pruneVersions f name current previous s))
       ⊆ github.artifacts s
  /\ github.symlinks (snd (pruneVersions f name current previous s))
     = github.symlinks s.
Proof.
  unfold pruneVersions. destruct (f OsReadDir); cbn.
  - split; [auto|]. split; reflexivity.
  - split; [|split].
    + intros n v Hin Hkeep. apply elem_of_filter. cbn. split; [tauto|exact Hin].
    + intros p Hp. apply elem_of_filter in Hp. tauto.
    + reflexivity.
Qed.

Lemma upgrade_commit_Ok env req svc version oldVersion w res w' :
  state.Name svc = up_Name req ->
  upgrade_commit env req svc version oldVersion w = (Ok res, w') ->
  res = {| res_Name := up_Name req; OldVersion := oldVersion;
           NewVersion := version; RolledBack := false; RollbackMsg := "" |}
  /\ stored_versions (up_Name req) w' = Some (version, oldVersion)
  /\ bin w' = snd (pruneVersions (fails env U_pruneVersions) (up_Name req)
                     version oldVersion (bin w))
  /\ sd w' = sd w /\ etc w' = etc w /\ ngx w' = ngx w /\ maria w' = maria w.
Proof.
  intros Hname. unfold upgrade_commit. cbv zeta.
  match goal with |- context [state.UpdateService ?io ?s] =>
    set (io0 := io); set (svc0 := s) end.
  destruct (fst (on_store _ (state.UpdateService io0 svc0) _)) as [err|] eqn:Hup;
    [discriminate|].
  intros [= <- <-]. autorewrite with world in *. split; [reflexivity|].
  split; [|auto].
  destruct (state.UpdateService io0 svc0 (store w)) as [r st1] eqn:Hu.
  cbn [fst snd] in *. subst r.
  apply UpdateService_versions in Hu as (row & Hsel & Hv & Hp).
  unfold stored_versions. autorewrite with world. cbn [snd].
  cbn [store]. unfold state.select_by_name in *. rewrite AppendHistory_services'.
  change (state.Name svc0) with (state.Name svc) in Hsel. rewrite Hname in Hsel.
  rewrite Hsel, Hv, Hp. reflexivity.
Qed.

(** X25. What an upgrade that went through has done.  The service was known,
    the requested version resolved to one other than the installed one, and
    the health check on the service's port was passed; the symlink points to
    the new version, whose file exists, the unit is active, and the record
    carries the new version with the installed one as its previous
    version. *)
Theorem Upgrade_success_commits o env req w res w' :
  Upgrade o env req w = (Ok res, w') ->
  RolledBack res = false ->
  exists svc,
    state.GetService (fails env U_GetService SqlExec) (up_Name req) (store w) = Ok svc
    /\ upgrade_version o env req svc = Ok (NewVersion res)
    /\ NewVersion res <> state.Version svc
    /\ res_Name res = up_Name req /\ OldVersion res = state.Version svc
    /\ health.WaitForPort (fails env U_WaitForPort) (state.Port svc) 10 = None
    /\ github.symlinks (bin w') !! up_Name req = Some (NewVersion res)
    /\ (up_Name req, NewVersion res) ∈ github.artifacts (bin w')
    /\ up_Name req ∈ systemd.active (sd w')
    /\ stored_versions (up_Name req) w' = Some (NewVersion res, state.Version svc).
Proof.
  unfold Upgrade.
  destruct (state.GetService _ _ _) as [svc|e0] eqn:Hget; [|discriminate].
  fold (upgrade_version o env req svc).
  destruct (upgrade_version o env req svc) as [version|e1] eqn:Hver; [|discriminate].
  destruct (String.eqb_spec version (state.Version svc)) as [Heq|Hne]; [discriminate|].
  cbn [on_bin fst snd]. fold (upgrade_fetch o env req svc version w).
  destruct (upgrade_fetch o env req svc version w) as [[path|e2] b1] eqn:Hfetch;
    cbn [fst snd]; [|discriminate].
  apply DownloadAsset_Ok in Hfetch as [Hart _].
  unfold upgrade_switch. cbn [on_sd on_bin fst snd store sd bin].
  destruct (fst (systemd.Stop _ _ _)) eqn:Hstop; [discriminate|].
  destruct (fst (updateSymlink _ _ _ _)) eqn:Hlink; [discriminate|].
  apply updateSymlink_None in Hlink as [Hl Ha].
  destruct (fst (systemd.Start _ _ _)) eqn:Hstart.
  { intros [= <- <-]. discriminate. }
  apply Start_active in Hstart as (Hact & _).
  destruct (health.WaitForPort _ _ _) eqn:Hh.
  { intros [= <- <-]. discriminate. }
  intros Hc _. apply upgrade_commit_Ok in Hc
    as (-> & Hsv & Hb & Hs & _); [|eapply GetService_name; exact Hget].
  exists svc. cbn [res_Name OldVersion NewVersion].
  repeat split; auto.
  - rewrite Hb. cbn [bin].
    destruct (pruneVersions_frame (fails env U_pruneVersions) (up_Name req) version
                (state.Version svc) (snd (updateSymlink (fails env U_updateSymlink)
                                            (up_Name req) version b1))) as (_ & _ & ->).
    exact Hl.
  - rewrite Hb. cbn [bin].
    apply (pruneVersions_frame (fails env U_pruneVersions)); [|auto].
    rewrite Ha. exact Hart.
  - rewrite Hs. exact Hact.
Qed.

(** X26. During an upgrade the symlink moves to the new version as soon as
    the binary is fetched: when the fetch succeeds and stopping the service
    then fails, Upgrade returns that error with the old process untouched
    and the record unchanged, but the symlink already points to the new
    version. *)
Theorem Upgrade_stop_failure_leaves_new_symlink o env req w svc version err :
  state.GetService (fails env U_GetService SqlExec) (up_Name req) (store w) = Ok svc ->
  upgrade_version o env req svc = Ok version ->
  version <> state.Version svc ->
  (exists path, fst (upgrade_fetch o env req svc version w) = Ok path) ->
  fst (systemd.Stop (fails env U_Stop) (up_Name req) (sd w)) = Some err ->
  exists w',
    Upgrade o env req w = (Fail (Wrapf "stopping service" [] err), w')
    /\ store w' = store w /\ sd w' = sd w
    /\ github.symlinks (bin w') !! up_Name req = Some version.
Proof.
  intros Hget Hver Hne (path & Hfetch) Hstop. unfold Upgrade. rewrite Hget.
  fold (upgrade_version o env req svc). rewrite Hver.
  apply String.eqb_neq in Hne. rewrite Hne.
  cbn [on_bin fst snd]. fold (upgrade_fetch o env req svc version w).
  rewrite Hfetch. unfold upgrade_switch. cbn [on_sd fst snd store sd bin].
  rewrite Hstop. eexists. split; [reflexivity|]. cbn [store sd bin].
  split; [reflexivity|]. split.
  - unfold systemd.Stop in *. destruct (fails env U_Stop SdSystemctl);
      [reflexivity|discriminate].
  - destruct (upgrade_fetch o env req svc version w) as [r b1] eqn:E.
    cbn [fst snd] in *. subst r. unfold upgrade_fetch in E.
    apply DownloadAsset_Ok in E as [_ Hl]. exact Hl.
Qed.

Lemma DeleteService_gone name st :
  state.select_by_name name (snd (state.DeleteService false name st)) = None.
Proof.
  unfold state.DeleteService.
  destruct (state.select_by_name name st) eqn:E; cbn; [|exact E].
  unfold state.select_by_name. cbn. apply find_filter_self.
Qed.

Lemma DropDatabase_None f name m :
  fst (db.DropDatabase f name m) = None ->
  ("gc_" ++ name ∉ db.databases (snd (db.DropDatabase f name m)))
  /\ ("gc_" ++ name ∉ db.users (snd (db.DropDatabase f name m))).
Proof.
  unfold db.DropDatabase, db.ValidateServiceName, db.drop_database, db.drop_user.
  repeat case_match; cbn; try discriminate; intros _; split; set_solver.
Qed.


Lemma charset_at_alnum n :
  0 <= n < 62 -> db.is_alnum (creds.charset_at n) = true.
Proof.
  intros Hn. assert (Hcases : exists k, (k < 62)%nat /\ n = Z.of_nat k).
  { exists (Z.to_nat n). lia. }
  destruct Hcases as (k & Hk & ->). unfold creds.charset_at.
  rewrite Nat2Z.id.
  do 62 (destruct k as [|k]; [vm_compute; reflexivity|]). lia.
Qed.

Lemma generate_from_spec draw i todo :
  below 62 draw ->
  match creds.generate_from draw i todo with
  | Ok pw =>
      String.length pw = todo
      /\ (forall c, In c (list_ascii_of_string pw) -> db.is_alnum c = true)
      /\ forall k, (k < todo)%nat -> exists n, draw (i + k)%nat = Ok n
  | Fail e =>
      exists k err, (k < todo)%nat /\ draw (i + k)%nat = Fail err
        /\ e = Wrapf "generating random credential" [] err
  end.
Proof.
  intros Hb. revert i. induction todo as [|todo IH]; intros i; simpl.
  - split; [reflexivity|]. split; [tauto|]. intros k Hk. lia.
  - destruct (draw i) as [n|err] eqn:Hd.
    + specialize (IH (S i)). destruct (creds.generate_from draw (S i) todo) as [rest|e].
      * destruct IH as (Hlen & Hal & Hdraws). simpl. split; [congruence|]. split.
        -- intros c [<-|Hin]; [apply charset_at_alnum; eapply Hb; eauto|auto].
        -- intros [|k] Hk; [rewrite Nat.add_0_r; eauto|].
           replace (i + S k)%nat with (S i + k)%nat by lia. apply Hdraws. lia.
      * destruct IH as (k & err & Hk & Hdk & ->). exists (S k), err.
        replace (i + S k)%nat with (S i + k)%nat by lia. split; [lia|auto].
    + exists 0%nat, err. rewrite Nat.add_0_r. split; [lia|auto].
Qed.

(** X28. Generate returns a string of exactly the requested length made of
    letters and digits only, whatever numbers the random source returns
    within its contract, provided every draw succeeds; it fails exactly
    when one of the first [length] draws fails, with that error wrapped. *)
Theorem Generate_alphanumeric draw length :
  0 <= length -> below 62 draw ->
  (forall pw, creds.GenerateWith draw length = Ok pw ->
     Z.of_nat (String.length pw) = length
     /\ forall c, In c (list_ascii_of_string pw) -> db.is_alnum c = true)
  /\ ((forall k, (Z.of_nat k < length) -> exists n, draw k = Ok n) ->
      exists pw, creds.GenerateWith draw length = Ok pw)
  /\ (forall e, creds.GenerateWith draw length = Fail e ->
      exists k err, Z.of_nat k < length /\ draw k = Fail err
        /\ e = Wrapf "generating random credential" [] err).
Proof.
  intros Hlen Hb. unfold creds.GenerateWith.
  pose proof (generate_from_spec draw 0 (Z.to_nat length) Hb) as Hspec.
  destruct (creds.generate_from draw 0 (Z.to_nat length)) as [pw|e].
  - destruct Hspec as (Hl & Hal & _). split; [|split].
    + intros pw' [= <-]. split; [lia|exact Hal].
    + eauto.
    + discriminate.
  - destruct Hspec as (k & err & Hk & Hd & ->). split; [discriminate|]. split.
    + intros Hall. destruct (Hall k) as [n Hn]; [lia|]. simpl in Hd. congruence.
    + intros e' [= <-]. exists k, err. simpl in Hd. split; [lia|auto].
Qed.

Lemma without_cons c a s : without c (String a s) <-> a <> c /\ without c s.
Proof. unfold without. simpl. intuition congruence. Qed.

Lemma without_app c s1 s2 : without c s1 -> without c s2 -> without c (s1 ++ s2).
Proof.
  induction s1 as [|a s1 IH]; [intros _ H; exact H|].
  intros H1 H2. apply without_cons in H1 as [Ha H1].
  change (without c (String a (s1 ++ s2))). apply without_cons. auto.
Qed.

Lemma Split_line sep l rest :
  without sep l ->
  gotext.Split sep (l ++ String sep rest) = l :: gotext.Split sep rest.
Proof.
  induction l as [|c l IH]; simpl.
  - intros _. rewrite Ascii.eqb_refl. reflexivity.
  - rewrite without_cons. intros [Hc Hl]. apply Ascii.eqb_neq in Hc. rewrite Hc.
    rewrite (IH Hl). reflexivity.
Qed.

Lemma cut_spec sep k v :
  without sep k -> gotext.cut sep (k ++ String sep v) = Some (k, v).
Proof.
  induction k as [|c k IH]; simpl.
  - intros _. rewrite Ascii.eqb_refl. reflexivity.
  - rewrite without_cons. intros [Hc Hk]. apply Ascii.eqb_neq in Hc. rewrite Hc.
    rewrite (IH Hk). reflexivity.
Qed.

Lemma cut_None sep s : without sep s -> gotext.cut sep s = None.
Proof.
  induction s as [|c s IH]; simpl; [reflexivity|].
  rewrite without_cons. intros [Hc Hs]. apply Ascii.eqb_neq in Hc. rewrite Hc.
  rewrite (IH Hs). reflexivity.
Qed.

Lemma Split_data l ls :
  Forall (without gotext.newline) (l :: ls) ->
  gotext.Split gotext.newline
    (gotext.Join (l :: ls) (String gotext.newline EmptyString)
       ++ String gotext.newline EmptyString)
  = ((l :: ls) ++ [""])%list.
Proof.
  unfold gotext.Join. revert l. induction ls as [|l2 ls IH]; intros l Hall.
  - cbn [String.concat]. apply Forall_inv in Hall.
    rewrite (Split_line _ _ _ Hall). reflexivity.
  - inversion Hall as [|? ? Hl Hrest]; subst.
    change (String.concat (String gotext.newline "") (l :: l2 :: ls))
      with (l ++ String gotext.newline (String.concat (String gotext.newline "") (l2 :: ls))).
    replace ((l ++ String gotext.newline
                (String.concat (String gotext.newline "") (l2 :: ls)))
             ++ String gotext.newline "")
      with (l ++ String gotext.newline
              (String.concat (String gotext.newline "") (l2 :: ls)
                 ++ String gotext.newline "")).
    2:{ clear. induction l as [|c l IHl]; [reflexivity|].
        change (String c (l ++ String gotext.newline
                  (String.concat (String gotext.newline "") (l2 :: ls)
                     ++ String gotext.newline ""))
                = String c ((l ++ String gotext.newline
                               (String.concat (String gotext.newline "") (l2 :: ls)))
                            ++ String gotext.newline "")).
        f_equal. exact IHl. }
    rewrite (Split_line _ _ _ Hl), (IH l2 Hrest). reflexivity.
Qed.

Lemma printed_app l1 l2 :
  commands.printed (l1 ++ l2) = commands.printed l1 ++ commands.printed l2.
Proof.
  unfold commands.printed. induction l1 as [|x l1 IH]; [reflexivity|].
  cbn [app fold_right]. rewrite IH. clear.
  induction x as [|c x IHx]; [reflexivity|].
  change (String c (x ++ (fold_right append "" l1 ++ fold_right append "" l2))
          = String c ((x ++ fold_right append "" l1) ++ fold_right append "" l2)).
  f_equal. exact IHx.
Qed.

Lemma printed_nil_r s : s ++ "" = s.
Proof.
  induction s as [|c s IH]; [reflexivity|].
  change (String c (s ++ "") = String c s). f_equal. exact IH.
Qed.

Lemma keys_In content k :
  In k (envfile.keys content) <-> is_Some (creds.Entries content !! k).
Proof.
  unfold envfile.keys, gotext.sort_Strings.
  rewrite <- list_elem_of_In, merge_sort_Permutation, list_elem_of_In.
  rewrite in_map_iff. split.
  - intros ([k' v] & <- & Hin). apply list_elem_of_In, elem_of_map_to_list in Hin.
    cbn. eauto.
  - intros [v Hv]. exists (k, v). split; [reflexivity|].
    apply list_elem_of_In, elem_of_map_to_list. exact Hv.
Qed.

Lemma inspect_line_entry content k :
  line_safe content -> is_Some (creds.Entries content !! k) ->
  commands.inspect_line (envfile.line content k) = shown content k
  /\ without gotext.newline (envfile.line content k).
Proof.
  intros Hsafe [v Hv]. destruct (Hsafe k v Hv) as (Hk & Hkn & Hvn).
  unfold commands.inspect_line, shown, envfile.line, gotext.SplitN2. rewrite Hv.
  cbn [default from_option id].
  change (k ++ "=" ++ v) with (k ++ String "=" v).
  rewrite (cut_spec "=" k v Hk). split.
  - destruct (String.eqb_spec (k ++ String "=" v) "") as [E|E]; [|reflexivity].
    destruct k; discriminate.
  - apply without_app; [exact Hkn|]. apply without_cons. split; [discriminate|exact Hvn].
Qed.

Lemma printed_lines content ks :
  (forall k, In k ks ->
     commands.inspect_line (envfile.line content k) = shown content k) ->
  commands.printed
    (List.map commands.inspect_line (List.map (envfile.line content) ks))
  = commands.printed (List.map (shown content) ks).
Proof.
  unfold commands.printed. induction ks as [|k ks IH]; intros Hall; [reflexivity|].
  cbn [List.map fold_right]. rewrite (Hall k (or_introl eq_refl)). f_equal.
  apply IH. intros k' Hk'. apply Hall. right. exact Hk'.
Qed.

(** X29. inspect never prints the value of a credential: for an env file as
    WriteEnvFile writes it for entries that fit on a line each (no equals
    sign or line feed in a key, no line feed in a value), the output lists
    every key of the map once, in sorted order, and shows the entry as it
    is unless the key matches PASSWORD, SECRET, TOKEN or KEY in any case, in
    which case four stars are shown in place of the value. *)
Theorem inspect_redacts_credentials content :
  line_safe content ->
  commands.inspect_env (envfile.data content)
  = commands.printed (List.map (shown content) (envfile.keys content))
  /\ (forall k, In k (envfile.keys content)
               <-> is_Some (creds.Entries content !! k))
  /\ Sorted gotext.str_le (envfile.keys content).
Proof.
  intros Hsafe. split; [|split; [apply keys_In|]].
  2:{ apply Sorted_merge_sort. intros a b. apply String.leb_total. }
  unfold commands.inspect_env, envfile.data, envfile.lines.
  assert (Hall : forall k, In k (envfile.keys content) ->
            commands.inspect_line (envfile.line content k) = shown content k
            /\ without gotext.newline (envfile.line content k)).
  { intros k Hk. apply inspect_line_entry; [exact Hsafe|]. apply keys_In. exact Hk. }
  destruct (envfile.keys content) as [|k ks]; [reflexivity|].
  cbn [List.map]. rewrite Split_data.
  - rewrite List.map_app, printed_app. cbn [List.map commands.printed fold_right].
    change (commands.inspect_line "") with "". rewrite !printed_nil_r.
    apply (printed_lines content (k :: ks)). intros k' Hk'. apply Hall. exact Hk'.
  - apply List.Forall_forall. intros l Hl.
    change (In l (List.map (envfile.line content) (k :: ks))) in Hl.
    apply in_map_iff in Hl as (k' & <- & Hk'). apply Hall. exact Hk'.
Qed.

(** The argument [-e KEY=VALUE] for a pair. *)
Lemma parse_env_fold kvs acc :
  (forall kv, In kv kvs -> without "=" kv.1) ->
  commands.parse_env (List.map (fun kv => kv.1 ++ "=" ++ kv.2) kvs) acc
  = Ok (List.fold_left (fun m kv => <[kv.1 := kv.2]> m) kvs acc).
Proof.
  revert acc. induction kvs as [|[k v] kvs IH]; intros acc Hk; [reflexivity|].
  cbn [List.map commands.parse_env List.fold_left fst snd]. unfold gotext.SplitN2.
  change (k ++ "=" ++ v) with (k ++ String "=" v).
  rewrite (cut_spec "=" k v (Hk (k, v) (or_introl eq_refl))).
  apply IH. intros kv Hin. apply Hk. right. exact Hin.
Qed.

(** X30. The -e arguments of deploy.  An argument is cut at its first equals
    sign into key and value, so a value may hold equals signs; of two
    arguments with the same key the later one wins; an argument without an
    equals sign makes the command fail before anything is deployed. *)
Theorem parse_env_later_wins kvs :
  (forall kv, In kv kvs -> without "=" kv.1) ->
  commands.parse_env (List.map (fun kv => kv.1 ++ "=" ++ kv.2) kvs) ∅
  = Ok (list_to_map (rev kvs))
  /\ forall envVars e acc,
       In e envVars -> without "=" e ->
       exists bad, commands.parse_env envVars acc
                   = Fail (Errorf "invalid env var: must be KEY=VALUE" [bad])
                   /\ In bad envVars /\ without "=" bad.
Proof.
  intros Hk. split.
  - rewrite (parse_env_fold kvs ∅ Hk). f_equal.
    exact (eq_sym (fold_left_rev_right
                     (fun (kv : string * string) (m : gmap string string) =>
                        <[kv.1 := kv.2]> m) kvs ∅)).
  - intros envVars. induction envVars as [|x envVars IH]; intros e acc Hin He;
      [destruct Hin|].
    cbn [commands.parse_env]. unfold gotext.SplitN2.
    destruct (gotext.cut "=" x) as [[a b]|] eqn:Hcut.
    + destruct Hin as [->|Hin].
      * rewrite (cut_None "=" e He) in Hcut. discriminate.
      * destruct (IH e (<[a := b]> acc) Hin He) as (bad & -> & Hb & Hw).
        exists bad. split; [reflexivity|]. split; [right; exact Hb|exact Hw].
    + exists x. split; [reflexivity|]. split; [left; reflexivity|].
      clear -Hcut. induction x as [|c x IH]; [unfold without; simpl; tauto|].
      simpl in Hcut. destruct (Ascii.eqb_spec c "=") as [->|Hc]; [discriminate|].
      destruct (gotext.cut "=" x) as [[a b]|]; [discriminate|].
      apply without_cons. auto.
Qed.

End Coverage.

(** ** Runs on concrete inputs *)
Import fixtures.

Lemma Deploy_failure_database_remains :
  exists e journal w',
    @DeployRun json.codec o0 env_env_and_drop_fail req0 world0 = (Fail e, journal, w')
    /\ In Database journal
    /\ "gc_api" ∈ db.databases (maria w').
Proof.
  eexists _, _, _. split; [vm_compute; reflexivity|].
  split; [simpl; tauto|].
  refine (bool_decide_unpack _ _). vm_compute. exact I.
Qed.

Lemma InferRouteType_classifies_witness :
  nginx.InferRouteType "/api.v2" = "path"
  /\ nginx.InferRouteType "api.example.com" = "subdomain"
  /\ nginx.InferRouteType "api" = "subdomain".
Proof.
  split; [|split].
  - apply (proj1 (InferRouteType_classifies "/api.v2")). eexists. reflexivity.
  - apply (proj1 (proj2 (InferRouteType_classifies "api.example.com"))).
    + intros [rest Hr]. discriminate.
    + reflexivity.
  - apply (proj2 (proj2 (InferRouteType_classifies "api"))).
    + intros [rest Hr]. discriminate.
    + reflexivity.
Defined.

Lemma Next_lowest_unassigned_port_witness :
  (3000 <= 3002 < 4000 /\ ~ assigned store3 3002
   /\ forall q, 3000 <= q < 3002 -> assigned store3 q)
  /\ DeployResult.Port
       {| DeployResult.Name := "api"; DeployResult.Version := "v1.0.0";
          DeployResult.Port := 3000; DeployResult.Route := "api.example.com";
          DeployResult.RouteType := "subdomain"; DeployResult.DBName := "gc_api";
          DeployResult.NginxSkip := false; DeployResult.NginxWarn := "" |} = 3000.
Proof.
  split.
  - apply (proj1 (@Next_lowest_unassigned_port json.codec (ports.New 3000 4000) store3) 3002).
    vm_compute. reflexivity.
  - apply (proj2 (proj2 (proj2 (@Next_lowest_unassigned_port json.codec
                                   (ports.New 3000 4000) store3)))
             o0 env_ok req0 world0 _ world1).
    + reflexivity.
    + reflexivity.
    + reflexivity.
    + vm_compute. reflexivity.
Defined.


Lemma Upgrade_same_version_no_change_witness :
  @Upgrade json.codec o0 env_ok upgrade_same world1
  = (Fail (Errorf "service is already at version" ["api"; "v1.0.0"]), world1).
Proof.
  apply (@Upgrade_same_version_no_change json.codec o0 env_ok upgrade_same world1 svc1).
  - vm_compute. reflexivity.
  - vm_compute. reflexivity.
  - reflexivity.
Defined.


Lemma Remove_keeps_record_witness :
  exists w',
    @Remove json.codec env_drop_fails remove0 world1
    = (Some (Wrapf "dropping database" []
               (Wrapf "dropping user" ["gc_api"] (ErrExternal DbDropUser))), w')
    /\ store w' = store world1
    /\ trace w' = (trace world1 ++ teardown_calls "api" svc1
                     ++ [Progress "Dropping database gc_api...";
                         CallDropDatabase "api"])%list
    /\ (teardown_succeeds env_drop_fails -> torn_down "api" svc1 w').
Proof.
  apply (@Remove_keeps_record_when_drop_fails json.codec env_drop_fails remove0
           world1 svc1).
  - vm_compute. reflexivity.
  - reflexivity.
  - vm_compute. discriminate.
  - vm_compute. reflexivity.
Defined.


Lemma Deploy_route_failure_witness :
  exists res w',
    @Deploy json.codec o0 env_nginx_test_fails req0 world0 = (Ok res, w')
    /\ DeployResult.NginxWarn res <> ""
    /\ DeployResult.Route res = "" /\ DeployResult.RouteType res = ""
    /\ (exists row,
          state.services (store w') = (state.services (store world0) ++ [row])%list
          /\ state.c_name row = "api"
          /\ state.c_route_type row = "subdomain"
          /\ state.c_route_value row = "api.example.com"
          /\ state.c_route_value row <> "")
    /\ "api" ∈ systemd.active (sd w')
    /\ (DeployRequest.NoDB req0 = false ->
        "gc_api" ∈ db.databases (maria w') /\ "gc_api" ∈ db.users (maria w')).
Proof.
  eexists _, _. split; [vm_compute; reflexivity|].
  eapply (@Deploy_route_failure_keeps_requested_route json.codec o0
            env_nginx_test_fails req0 world0).
  - vm_compute. reflexivity.
  - discriminate.
  - reflexivity.
Defined.

Lemma Deploy_failure_undoes_journal_witness :
  exists version,
    deploy_version o0 env_insert_fails req0 = Ok version
    /\ (forall s, In s (snd (fst run_insert_fails)) ->
                  step_undone "api" version s (snd run_insert_fails))
    /\ store (snd run_insert_fails) = store world0
    /\ (state.select_by_name "api" (store world0) = None ->
        state.select_by_name "api" (store (snd run_insert_fails)) = None).
Proof.
  apply (@Deploy_failure_undoes_journal json.codec o0 env_insert_fails req0 world0
           (Wrapf "recording state" []
              (Wrapf "inserting service" ["api"] (ErrExternal SqlExec)))).
  - vm_compute. reflexivity.
  - vm_compute. tauto.
  - intros s _ site f Hin. destruct s; simpl in Hin; intuition subst; reflexivity.
Defined.



(** ** Runs of the further properties *)

Lemma InsertService_succeeds_iff_witness :
  fst (@state.InsertService json.codec false svc0 state.empty) = None
  /\ snd (@state.InsertService json.codec false svc0 store_svc0) = store_svc0.
Proof.
  split.
  - apply (proj2 (proj1 (@InsertService_succeeds_iff json.codec false svc0 state.empty))).
    split; [reflexivity|]. split; [reflexivity|]. intros H. exact H.
  - apply (proj1 (proj2 (@InsertService_succeeds_iff json.codec false svc0 store_svc0))).
    vm_compute. discriminate.
Defined.

Lemma InsertService_GetService_fields_witness :
  exists svc',
    @state.GetService json.codec false "api" store_svc0 = Ok svc'
    /\ same_record svc0 svc'
    /\ state.DeployedAt svc' = time_Unix 1700000000 0.
Proof.
  apply (@InsertService_GetService_fields json.codec false svc0 state.empty store_svc0).
  - vm_compute. reflexivity.
  - intros m [= <-]. eexists. vm_compute. reflexivity.
Defined.

Lemma UpdateService_keeps_deployed_at_witness :
  exists row svc',
    state.select_by_name "api" store_svc0 = Some row
    /\ @state.GetService json.codec false "api"
         (snd (@state.UpdateService json.codec false svc0_v2 store_svc0)) = Ok svc'
    /\ same_record svc0_v2 svc'
    /\ state.DeployedAt svc' = time_Unix (state.c_deployed_at row) 0
    /\ (forall n, n <> "api" ->
          state.select_by_name n (snd (@state.UpdateService json.codec false svc0_v2 store_svc0))
          = state.select_by_name n store_svc0)
    /\ state.history (snd (@state.UpdateService json.codec false svc0_v2 store_svc0))
       = state.history store_svc0.
Proof.
  apply (proj1 (@UpdateService_keeps_deployed_at json.codec svc0_v2 store_svc0) false).
  - vm_compute. reflexivity.
  - intros m [=].
Defined.

Lemma DeleteService_removes_only_the_named_witness :
  exists st',
    state.DeleteService false "api" store_svc0 = (None, st')
    /\ @state.GetService json.codec false "api" st' = Fail ErrNotFound
    /\ (forall n, n <> "api" ->
          state.select_by_name n st' = state.select_by_name n store_svc0)
    /\ state.history st' = state.history store_svc0.
Proof.
  eapply (proj2 (@DeleteService_removes_only_the_named json.codec "api" store_svc0)).
  vm_compute. reflexivity.
Defined.

Lemma store_constraints_preserved_witness :
  store_wf (snd (@state.InsertService json.codec false svc0 store3))
  /\ store_wf (snd (state.DeleteService false "b" store3)).
Proof.
  assert (Hwf : store_wf store3).
  { split; vm_compute; repeat constructor; simpl; intuition (discriminate || lia). }
  split.
  - apply (proj1 (@store_constraints_preserved json.codec store3 Hwf)).
  - apply (proj1 (proj2 (proj2 (@store_constraints_preserved json.codec store3 Hwf)))).
Defined.

Lemma ListServices_agrees_with_GetService_witness :
  exists l,
    @state.ListServices json.codec false store3 = Ok l
    /\ Sorted by_name l
    /\ length l = length (state.services store3)
    /\ forall svc, In svc l
         <-> @state.GetService json.codec false (state.Name svc) store3 = Ok svc.
Proof.
  eexists. split; [vm_compute; reflexivity|].
  apply (proj1 (@ListServices_agrees_with_GetService json.codec store3
                  ltac:(split; vm_compute; repeat constructor; simpl;
                        intuition (discriminate || lia)))).
  vm_compute. reflexivity.
Defined.

Lemma ListHistory_newest_first_witness :
  (exists e,
     @state.ListHistory json.codec false "api"
       (snd (@state.AppendHistory json.codec false entry0 state.empty)) = Ok [e]
     /\ state.ID e = 1
     /\ state.HService e = "api" /\ state.Action e = "deploy"
     /\ state.HVersion e = "v1.0.0"
     /\ state.Timestamp e = time_Unix 1700000000 0)
  /\ (forall s, s <> "api" ->
        @state.ListHistory json.codec false s
          (snd (@state.AppendHistory json.codec false entry0 state.empty))
        = @state.ListHistory json.codec false s state.empty)
  /\ history_wf (snd (@state.AppendHistory json.codec false entry0 state.empty)).
Proof.
  apply (@ListHistory_newest_first json.codec entry0 state.empty).
  - intros i row H. destruct i; discriminate H.
  - vm_compute. reflexivity.
  - intros m [=].
  - vm_compute. reflexivity.
Defined.

Lemma Request_accepts_iff_witness :
  ports.Request (ports.New 3000 4000) false 3002 store3 = None.
Proof.
  apply (proj1 (@Request_accepts_iff (ports.New 3000 4000) 3002 store3
                  ltac:(intros row [<-|[<-|[<-|[]]]]; discriminate))).
  split; [unfold in_range; cbn; lia|].
  vm_compute. intuition discriminate.
Defined.

Lemma Next_port_accepted_by_Request_witness :
  ports.Request (ports.New 3000 4000) false 3002 store3 = None.
Proof.
  apply (@Next_port_accepted_by_Request (ports.New 3000 4000) store3 3002).
  vm_compute. reflexivity.
Defined.

Lemma Next_exhausted_iff_witness :
  ports.Next (ports.New 3000 3002) false store3
  = Fail (Errorf "port range exhausted" [pretty 3000; pretty 3002]).
Proof.
  apply (proj1 (proj1 (@Next_exhausted_iff (ports.New 3000 3002) store3))).
  intros q [Hlo Hhi]. cbn in Hlo, Hhi.
  assert (Hq : q = 3000 \/ q = 3001) by lia.
  destruct Hq as [->| ->]; vm_compute; auto.
Defined.

Lemma inferred_route_type_is_rendered_witness :
  nginx.RenderConfig {| nginx.Name := "api";
                        nginx.RouteType := nginx.InferRouteType "/api";
                        nginx.RouteValue := "/api"; nginx.Port := 3000 |}
  = Ok (nginx.LocationBlock "/api" 3000).
Proof. exact (proj2 (inferred_route_type_is_rendered "api" "/api" 3000)). Defined.

Lemma WriteConfig_outcomes_witness :
  no_route "api"
    (snd (nginx.WriteConfig (fails env_nginx_test_fails D_WriteConfig) params0
            (ngx world0))).
Proof.
  apply (proj1 (proj2 (proj2 (WriteConfig_outcomes
                                (fails env_nginx_test_fails D_WriteConfig)
                                params0 (ngx world0))))).
  - vm_compute. reflexivity.
  - reflexivity.
  - reflexivity.
Defined.

Lemma RemoveConfig_undoes_WriteConfig_witness :
  snd (nginx.RemoveConfig no_fault "api"
         (snd (nginx.WriteConfig no_fault params0 (ngx world0)))) = ngx world0
  /\ (fst (nginx.RemoveConfig no_fault "api"
             (snd (nginx.WriteConfig no_fault params0 (ngx world0)))) = None
      <-> no_fault NgxReload = false).
Proof.
  apply (RemoveConfig_undoes_WriteConfig no_fault no_fault params0 (ngx world0)).
  - split; [reflexivity|]. apply not_elem_of_empty.
  - split; reflexivity.
Defined.

Lemma validated_name_is_safe_witness :
  (exists c rest, "my-api_2" = String c rest /\ db.is_alnum c = true)
  /\ forall c, In c (list_ascii_of_string "my-api_2") ->
       db.is_name_char c = true /\ ~ In c unsafe_chars.
Proof. apply (validated_name_is_safe "my-api_2"). vm_compute. reflexivity. Defined.

Lemma CreateDatabase_all_or_nothing_witness :
  snd (db.CreateDatabase grant_fails "s3cr3t" "api" (maria world0)) = maria world0.
Proof.
  apply (proj1 (proj2 (CreateDatabase_all_or_nothing grant_fails "s3cr3t" "api"
                         (maria world0)))
           (Wrapf "granting privileges" [] (ErrExternal DbGrant))).
  - vm_compute. reflexivity.
  - repeat split.
  - discriminate.
Defined.

Lemma DropDatabase_undoes_CreateDatabase_witness :
  snd (db.DropDatabase no_fault "api"
         (snd (db.CreateDatabase no_fault "s3cr3t" "api" (maria world0))))
  = maria world0.
Proof.
  eapply (proj1 (DropDatabase_undoes_CreateDatabase no_fault no_fault "s3cr3t" "api"
                   (maria world0))).
  - vm_compute. reflexivity.
  - vm_compute. reflexivity.
Defined.

Lemma FindAsset_iff_witness :
  github.FindAsset ["api-linux-amd64"; "checksums.txt"] "checksums.txt"
  = Ok "checksums.txt".
Proof.
  apply (proj2 (FindAsset_iff ["api-linux-amd64"; "checksums.txt"] "checksums.txt"
                  "checksums.txt")).
  split; [reflexivity|]. simpl. auto.
Defined.

Lemma DownloadAsset_outcomes_witness :
  exists path s',
    github.DownloadAsset gh0 api0 no_fault "owner" "api" "v1.0.0" "api" (bin world0)
    = (Ok path, s')
    /\ path = github.binPath "api" "v1.0.0"
    /\ (exists expected, github.assetTmpl gh0 "api" "v1.0.0" = Ok expected
          /\ In expected (github.release_assets api0 (effective_owner gh0 "owner")
                            "api" "v1.0.0"))
    /\ github.artifacts s' = {[("api", "v1.0.0")]} ∪ github.artifacts (bin world0)
    /\ github.symlinks s' !! "api" = Some "v1.0.0".
Proof.
  eexists _, _. split; [vm_compute; reflexivity|].
  apply (proj1 (DownloadAsset_outcomes gh0 api0 no_fault "owner" "api" "v1.0.0" "api"
                  (bin world0))).
  vm_compute. reflexivity.
Defined.

Lemma deploy_name_derivation_witness :
  gostrings.Contains_slash (deploy_name req0) = false
  /\ (DeployRequest.Repo req0 = deploy_name req0
      \/ exists p, DeployRequest.Repo req0 = p ++ "/" ++ deploy_name req0).
Proof. apply (proj1 (proj2 (deploy_name_derivation req0))). reflexivity. Defined.

Lemma Deploy_prechecks_leave_host_untouched_witness :
  exists e, @Deploy json.codec o0 env_ok req0 world1 = (Fail e, world1).
Proof.
  apply (@Deploy_prechecks_leave_host_untouched json.codec o0 env_ok req0 world1).
  right. left. eexists. vm_compute. reflexivity.
Defined.

Lemma workflows_refuse_unknown_service_witness :
  @Rollback json.codec env_ok "ghost" world1 = (Fail (not_found "ghost"), world1).
Proof.
  apply (proj1 (proj2 (@workflows_refuse_unknown_service json.codec o0 env_ok world1
                         "ghost" ErrNotFound))).
  vm_compute. reflexivity.
Defined.

Lemma pruneVersions_keeps_current_and_previous_witness :
  ("api", "v1.0.0")
    ∈ github.artifacts (snd (pruneVersions no_fault "api" "v1.1.0" "v1.0.0" (bin world2))).
Proof.
  apply (proj1 (pruneVersions_keeps_current_and_previous no_fault "api" "v1.1.0"
                  "v1.0.0" (bin world2))).
  - refine (bool_decide_unpack _ _). vm_compute. exact I.
  - right. right. reflexivity.
Defined.

Lemma Deploy_success_record_witness :
  db.validName "api" = true
  /\ in_range (ports o0) 3000
  /\ recorded "api" "v1.0.0" 3000 (store world0) (store world1)
  /\ (DeployRequest.Port req0 <> 0 -> 3000 = DeployRequest.Port req0)
  /\ (store_wf (store world0) -> store_wf (store world1)).
Proof.
  exact (@Deploy_success_record json.codec o0 env_ok req0 world0 res0 world1
           ltac:(vm_compute; reflexivity)).
Defined.

Lemma Deploy_success_host_witness :
  exists version port entries,
    deploy_version o0 env_ok req0 = Ok version
    /\ deploy_port o0 env_ok req0 world0 = Ok port
    /\ installed o0 env_ok req0 "api" version port world0 world1 res0
    /\ entries = deploy_envEntries o0 req0 port (deploy_dbResult env_ok req0 "api")
    /\ (forall extra k v, DeployRequest.ExtraEnv req0 = Some extra ->
          extra !! k = Some v -> entries !! k = Some v)
    /\ ((forall extra, DeployRequest.ExtraEnv req0 = Some extra ->
           extra !! "PORT" = None) ->
        entries !! "PORT" = Some (pretty port))
    /\ (DeployRequest.NoDB req0 = false ->
        (forall extra, DeployRequest.ExtraEnv req0 = Some extra ->
           extra !! "DB_NAME" = None /\ extra !! "DB_PASSWORD" = None) ->
        entries !! "DB_NAME" = Some ("gc_" ++ "api")
        /\ entries !! "DB_PASSWORD" = Some (random env_ok)).
Proof.
  exact (@Deploy_success_host json.codec o0 env_ok req0 world0 res0 world1
           ltac:(vm_compute; reflexivity)).
Defined.

Lemma Upgrade_success_commits_witness :
  exists svc,
    @state.GetService json.codec false "api" (store world1) = Ok svc
    /\ upgrade_version o0 env_ok upgrade0 svc = Ok "v1.1.0"
    /\ "v1.1.0" <> state.Version svc
    /\ "api" = "api" /\ "v1.0.0" = state.Version svc
    /\ health.WaitForPort (fails env_ok U_WaitForPort) (state.Port svc) 10 = None
    /\ github.symlinks (bin world2) !! "api" = Some "v1.1.0"
    /\ ("api", "v1.1.0") ∈ github.artifacts (bin world2)
    /\ "api" ∈ systemd.active (sd world2)
    /\ stored_versions "api" world2 = Some ("v1.1.0", state.Version svc).
Proof.
  exact (@Upgrade_success_commits json.codec o0 env_ok upgrade0 world1 upres0 world2
           ltac:(vm_compute; reflexivity) eq_refl).
Defined.

Lemma Upgrade_stop_failure_leaves_new_symlink_witness :
  exists w',
    @Upgrade json.codec o0 env_stop_fails upgrade0 world1
    = (Fail (Wrapf "stopping service" []
               (Wrapf "stopping" ["api"] (ErrExternal SdSystemctl))), w')
    /\ store w' = store world1 /\ sd w' = sd world1
    /\ github.symlinks (bin w') !! "api" = Some "v1.1.0".
Proof.
  apply (@Upgrade_stop_failure_leaves_new_symlink json.codec o0 env_stop_fails
           upgrade0 world1 svc1 "v1.1.0").
  - vm_compute. reflexivity.
  - vm_compute. reflexivity.
  - discriminate.
  - eexists. vm_compute. reflexivity.
  - vm_compute. reflexivity.
Defined.


Lemma Generate_alphanumeric_witness :
  Z.of_nat (String.length "abc") = 3
  /\ forall c, In c (list_ascii_of_string "abc") -> db.is_alnum c = true.
Proof.
  apply (proj1 (Generate_alphanumeric draw0 3 ltac:(lia)
                  ltac:(intros i n [= <-]; apply Z.mod_pos_bound; lia))).
  vm_compute. reflexivity.
Defined.

Lemma inspect_redacts_credentials_witness :
  commands.inspect_env (envfile.data content0)
  = "DB_PASSWORD=****" ++ String gotext.newline ("PORT=3000" ++ String gotext.newline "").
Proof.
  refine (eq_trans (proj1 (inspect_redacts_credentials content0 _)) _).
  - intros k v H. apply elem_of_map_to_list in H. vm_compute in H.
    apply list_elem_of_In in H. simpl in H.
    destruct H as [[= <- <-]|[[= <- <-]|[]]]; unfold without; simpl;
      intuition discriminate.
  - vm_compute. reflexivity.
Defined.

Lemma parse_env_later_wins_witness :
  commands.parse_env ["A=1"; "B=x=y"; "A=2"] ∅
  = Ok (list_to_map [("A", "2"); ("B", "x=y"); ("A", "1")]).
Proof.
  exact (proj1 (parse_env_later_wins kvs0
                  ltac:(intros kv [<-|[<-|[<-|[]]]]; unfold without; simpl;
                        intuition discriminate))).
Defined.
